(** * Executive dashboard: column registry, cache store, retry loaders,
      request de-duplication, HTML escaping and row rendering.

    Shallow embedding of
      modules/importacoes/dashboards/executivo/static/js/dashboard.js
    and the properties the dashboard specification states about it. *)

From Stdlib Require Import ZArith QArith Lia Bool Ascii String.
From stdpp Require Import gmap strings list sorting pretty.

Local Open Scope Z_scope.

#[local] Set Warnings "-register-all".

(** ** JavaScript values *)

Module JS.

(** A JavaScript number.  The finite doubles are a subset of the rationals;
    the arithmetic the modelled code performs on them is the subtraction of
    a sort comparator, of which only the sign is used, and that sign is the
    sign of the exact difference (a difference of distinct doubles never
    rounds to zero, an overflow keeps its sign), and one product, written
    out with its overflow where it is computed ([BaseData.delay]). *)
Inductive number : Type :=
| NaN
| NegInf
| Fin (q : Q)
| PosInf.

Inductive value : Type :=
| VUndefined
| VNull
| VBool (b : bool)
| VNum (n : number)
| VStr (s : string)
| VArr (elems : list value)
| VObj (props : list (string * value)).

Definition of_Z (z : Z) : number := Fin (inject_Z z).
Definition of_nat (n : nat) : number := of_Z (Z.of_nat n).

(** [a - b] on numbers. *)
Definition sub (a b : number) : number :=
  match a, b with
  | NaN, _ | _, NaN => NaN
  | Fin x, Fin y => Fin (x - y)
  | PosInf, PosInf | NegInf, NegInf => NaN
  | PosInf, _ => PosInf
  | NegInf, _ => NegInf
  | Fin _, PosInf => NegInf
  | Fin _, NegInf => PosInf
  end.

(** ToBoolean. *)
Definition truthy (v : value) : bool :=
  match v with
  | VUndefined | VNull => false
  | VBool b => b
  | VNum NaN => false
  | VNum (Fin q) => negb (Qeq_bool q 0)
  | VNum _ => true
  | VStr s => negb (String.eqb s "")
  | VArr _ | VObj _ => true
  end.

(** [a || b] *)
Definition or (a b : value) : value := if truthy a then a else b.

(** [a && b] *)
Definition and (a b : value) : value := if truthy a then b else a.

(** [typeof v === 'number'] *)
Definition is_number (v : value) : option number :=
  match v with VNum n => Some n | _ => None end.

(** Property read [o.name] on an object literal; a name that is not there
    reads [undefined]. *)
Fixpoint prop (name : string) (props : list (string * value)) : value :=
  match props with
  | [] => VUndefined
  | (k, v) :: rest => if String.eqb k name then v else prop name rest
  end.

(** [v == null] *)
Definition nullish (v : value) : bool :=
  match v with VUndefined | VNull => true | _ => false end.

(** [v.name] for a [v] that is not nullish, at a name that is not built in:
    the property of an object, [undefined] on anything else. *)
Definition field (v : value) (name : string) : value :=
  match v with VObj props => prop name props | _ => VUndefined end.

(** [typeof v !== 'undefined'] *)
Definition defined (v : value) : bool :=
  match v with VUndefined => false | _ => true end.

(** [Array.isArray(v)] *)
Definition isArray (v : value) : bool :=
  match v with VArr _ => true | _ => false end.

(** [typeof v === 'object'], [null] included. *)
Definition is_object (v : value) : bool :=
  match v with VNull | VArr _ | VObj _ => true | _ => false end.

(** [a > b] on numbers. *)
Definition gt (a b : number) : bool :=
  match sub a b with
  | PosInf => true
  | Fin q => match (q ?= 0)%Q with Gt => true | _ => false end
  | _ => false
  end.

(** [a === b] on numbers. *)
Definition same_number (a b : number) : bool :=
  match a, b with
  | Fin x, Fin y => Qeq_bool x y
  | PosInf, PosInf | NegInf, NegInf => true
  | _, _ => false
  end.

(** [a === b].  The identity of objects is not represented: two objects
    or arrays are taken to be different objects. *)
Definition strict_eq (a b : value) : bool :=
  match a, b with
  | VUndefined, VUndefined | VNull, VNull => true
  | VBool x, VBool y => Bool.eqb x y
  | VNum x, VNum y => same_number x y
  | VStr x, VStr y => String.eqb x y
  | _, _ => false
  end.

End JS.

(** ** Array.prototype.sort

    [sort] calls the comparator and reads its result as a number: negative
    puts the first argument first, positive the second, zero and NaN leave
    the two in their order.  Since ECMAScript 2019 the sort is stable.  The
    model is a stable insertion sort; every stable sort returns the same
    array whenever the comparator is a consistent ordering of the elements
    (here: whenever no [order] is NaN). *)

Module ArraySort.

Inductive verdict := Before | Same | After.

(** The sign of a comparator result, NaN read as +0. *)
Definition verdict_of (v : JS.number) : verdict :=
  match v with
  | JS.NaN => Same
  | JS.NegInf => Before
  | JS.PosInf => After
  | JS.Fin q =>
      match (q ?= 0)%Q with Lt => Before | Eq => Same | Gt => After end
  end.

Section Sort.
Context {A : Type} (comparefn : A → A → JS.number).

(** [x] is older than every element of [l]: it moves right only past
    the elements the comparator puts strictly before it. *)
Fixpoint insert (x : A) (l : list A) : list A :=
  match l with
  | [] => [x]
  | y :: l' =>
      match verdict_of (comparefn x y) with
      | After => y :: insert x l'
      | _ => x :: l
      end
  end.

Fixpoint sort (l : list A) : list A :=
  match l with
  | [] => []
  | x :: l' => insert x (sort l')
  end.
End Sort.

End ArraySort.

(** ** Column registry and configuration *)

Module Columns.

(** One registry row.  [sortable] and [showInConfig] are absent from some
    rows of the source ([None]). *)
Record ColumnDefinition := mkCol {
  col_id : string;
  col_label : string;
  col_visible : bool;
  col_fixed : bool;
  col_showInConfig : option bool;
  col_sortable : option bool;
  col_sortField : string;
  col_category : string;
  col_order : Q
}.

(** An entry of a stored configuration as it comes back from storage or
    from the settings dialog: an object whose three properties hold
    whatever was stored, [VUndefined] when the property is missing. *)
Record StoredColumn := mkStored {
  st_id : JS.value;
  st_visible : JS.value;
  st_order : JS.value
}.

(** An entry built by this module: [{id, visible, order}]. *)
Record ColumnConfig := mkConfig {
  id : string;
  visible : bool;
  order : JS.number
}.

(** The object of a [ColumnConfig] seen as a stored entry. *)
Definition stored (c : ColumnConfig) : StoredColumn :=
  mkStored (JS.VStr (id c)) (JS.VBool (visible c)) (JS.VNum (order c)).

Definition plain (i l : string) (v : bool) (sf cat : string) (o : Q) :=
  mkCol i l v false None None sf cat o.
Definition unsortable (i l : string) (v : bool) (sf cat : string) (o : Q) :=
  mkCol i l v false None (Some false) sf cat o.
Definition sortable (i l : string) (v : bool) (sf cat : string) (o : Q) :=
  mkCol i l v false None (Some true) sf cat o.

Definition AVAILABLE_COLUMNS : list ColumnDefinition :=
  [ mkCol "acoes" "Ações" true true (Some false) (Some false) "acoes" "Identificação" 0;
    plain "ref_importador" "Ref. Importador" true "ref_importador" "Identificação" 1;
    plain "importador" "Importador" true "importador" "Identificação" 2;
    plain "data_abertura" "Data Abertura" true "data_abertura" "Informações Principais" 3;
    plain "exportador" "Exportador / Fornecedor" true "exportador_fornecedor" "Informações Principais" 4;
    plain "modal" "Modal" true "modal" "Informações Principais" 5;
    plain "status" "Status" true "status_sistema" "Informações Principais" 6;
    plain "custos" "Custos" true "custo_total" "Informações Financeiras" 7;
    unsortable "despesas" "Despesas Detalhadas" false "despesas" "Informações Financeiras" 21;
    plain "data_chegada" "Previsão Chegada" true "data_chegada" "Datas e Prazos" 8;
    plain "presenca_carga" "Presença Carga" false "presenca_carga" "Datas e Prazos" (17 # 2);
    plain "data_embarque" "Data Embarque" false "data_embarque" "Datas e Prazos" 9;
    plain "transit_time" "Transit Time" false "transit_time" "Datas e Prazos" 10;
    plain "data_registro" "Data Registro" false "data_registro" "Datas e Prazos" 11;
    plain "mercadoria" "Mercadoria" true "mercadoria" "Carga e Mercadoria" 12;
    plain "container" "Container" false "__container_sort" "Carga e Mercadoria" 13;
    plain "peso_bruto" "Peso Bruto" false "peso_bruto" "Carga e Mercadoria" 14;
    unsortable "produtos" "Produtos" false "produtos" "Carga e Mercadoria" 20;
    plain "urf" "URF" true "urf_despacho_normalizado" "Despacho Aduaneiro" 15;
    plain "numero_di" "Número DI" false "numero_di" "Despacho Aduaneiro" 16;
    plain "canal" "Canal" false "canal" "Despacho Aduaneiro" 17;
    plain "pais" "País" false "pais" "Informações Complementares" 18;
    unsortable "data_desova" "Data Desova (ETB)" false "data_desova" "Armazenagem" 22;
    unsortable "limite_primeiro_periodo" "Limite 1º Período" false "limite_primeiro_periodo" "Armazenagem" 23;
    unsortable "limite_segundo_periodo" "Limite 2º Período" false "limite_segundo_periodo" "Armazenagem" 24;
    unsortable "dias_extras_armazenagem" "Dias Extras Armazenagem" false "dias_extras_armazenagem" "Armazenagem" 25;
    unsortable "valor_despesas_extras" "Desp. Extras Armazenagem" false "valor_despesas_extras" "Armazenagem" 26;
    sortable "po_cliente" "PO Cliente" false "po_cliente" "Kingspan - Pedido" 27;
    sortable "referencia_exportador" "Referência Exportador" false "referencia_exportador" "Kingspan - Pedido" 28;
    sortable "codigo_produto" "Código Produto" false "codigo_produto" "Kingspan - Pedido" 29;
    sortable "filial_codigo" "Filial" false "filial_codigo" "Kingspan - Pedido" 30;
    sortable "licenca_importacao" "Licença Importação" false "licenca_importacao" "Kingspan - Pedido" 31;
    sortable "freetime" "Freetime" false "freetime" "Kingspan - Logística" 32;
    sortable "etb" "ETB" false "etb" "Kingspan - Logística" 33;
    sortable "navio" "Navio" false "navio" "Kingspan - Logística" 34;
    sortable "armador_agente_trade" "Armador/Agente Trade" false "armador_agente_trade" "Kingspan - Logística" 35;
    sortable "moeda" "Moeda" false "moeda" "Kingspan - Financeiro" 36;
    sortable "total_pedido_moeda_origem" "Total Pedido (Moeda Origem)" false "total_pedido_moeda_origem" "Kingspan - Financeiro" 37;
    sortable "ptax" "PTAX" false "ptax" "Kingspan - Financeiro" 38;
    sortable "incoterm" "Incoterm" false "incoterm" "Kingspan - Financeiro" 39 ].

Definition getDefaultColumnsConfig : list ColumnConfig :=
  (λ col, mkConfig (col_id col)
                   (if col_fixed col then true else col_visible col)
                   (JS.Fin (col_order col)))
    <$> AVAILABLE_COLUMNS.

(** [new Map(items.map(item => [item.id, item]))]: a later entry replaces
    an earlier one with the same key.  Only string keys are kept: the map
    is read at registry ids alone, which are strings. *)
Definition configMap_of (items : list StoredColumn) : gmap string StoredColumn :=
  foldl (λ m item,
           match st_id item with
           | JS.VStr k => <[k := item]> m
           | _ => m
           end) ∅ items.

(** The entry [normalizeColumnsConfig] builds for one registry row. *)
Definition resolve (configMap : gmap string StoredColumn)
    (col : ColumnDefinition) : ColumnConfig :=
  let stored := configMap !! col_id col in
  mkConfig
    (col_id col)
    (if col_fixed col then true
     else match stored with
          | Some s => JS.truthy (st_visible s)
          | None => col_visible col
          end)
    (match stored with
     | Some s =>
         match JS.is_number (st_order s) with
         | Some n => n
         | None => JS.Fin (col_order col)
         end
     | None => JS.Fin (col_order col)
     end).

Definition by_order (a b : ColumnConfig) : JS.number :=
  JS.sub (order a) (order b).

(** [normalized.forEach((item, index) => { item.order = index; })] *)
Definition renumber (normalized : list ColumnConfig) : list ColumnConfig :=
  imap (λ index item, mkConfig (id item) (visible item) (JS.of_nat index))
       normalized.

(** An entry whose [order] is a whole number, and that number. *)
Definition whole (c : ColumnConfig) : Prop := ∃ z, order c = JS.of_Z z.
Definition key (c : ColumnConfig) : Z :=
  match order c with JS.Fin q => Qnum q | _ => 0 end.

(** [config] is [None] for [null] and [undefined]. *)
Definition normalizeColumnsConfig (config : option (list StoredColumn))
    : list ColumnConfig :=
  let configMap := configMap_of (default [] config) in
  let normalized := resolve configMap <$> AVAILABLE_COLUMNS in
  renumber (ArraySort.sort by_order normalized).

End Columns.


(** ** Cache store *)

Module Cache.

(** The data groups the callers pass as [type] to [set] and [get]. *)
Inductive kind := kpis | charts | operations | filterOptions.

#[export] Instance kind_eq_dec : EqDecision kind.
Proof. solve_decision. Defined.

(** The mutable fields of the [dashboardCache] object.  [lastUpdate] is
    [None] for [null], otherwise a reading of [Date.now()] in
    milliseconds. *)
Record dashboardCache := mkCache {
  c_kpis : JS.value;
  c_charts : JS.value;
  c_operations : JS.value;
  c_filterOptions : JS.value;
  lastUpdate : option Z
}.

Definition cacheTimeout : Z := 5 * 60 * 1000.

(** The object as the script creates it. *)
Definition initial : dashboardCache :=
  mkCache JS.VNull JS.VNull JS.VNull JS.VNull None.

(** [this[type]] *)
Definition slot (type : kind) (c : dashboardCache) : JS.value :=
  match type with
  | kpis => c_kpis c
  | charts => c_charts c
  | operations => c_operations c
  | filterOptions => c_filterOptions c
  end.

(** [this.lastUpdate && (Date.now() - this.lastUpdate) < this.cacheTimeout],
    as a condition; [now] is what [Date.now()] returns.  A stamp of 0 is
    falsy like [null]. *)
Definition isValid (now : Z) (c : dashboardCache) : bool :=
  match lastUpdate c with
  | None => false
  | Some stamp => negb (stamp =? 0) && (now - stamp <? cacheTimeout)
  end.

Definition invalidate (c : dashboardCache) : dashboardCache :=
  mkCache JS.VNull JS.VNull JS.VNull (c_filterOptions c) None.

Definition set (type : kind) (data : JS.value) (now : Z) (c : dashboardCache)
    : dashboardCache :=
  match type with
  | kpis => mkCache data (c_charts c) (c_operations c) (c_filterOptions c) (Some now)
  | charts => mkCache (c_kpis c) data (c_operations c) (c_filterOptions c) (Some now)
  | operations => mkCache (c_kpis c) (c_charts c) data (c_filterOptions c) (Some now)
  | filterOptions => mkCache (c_kpis c) (c_charts c) (c_operations c) data (Some now)
  end.

Definition get (type : kind) (now : Z) (c : dashboardCache) : JS.value :=
  if isValid now c && JS.truthy (slot type c) then slot type c else JS.VNull.

End Cache.

(** ** Request de-duplication *)

Module Requests.

(** [requestControllers] maps a resource key to the controller of the
    request last issued for it.  A controller is named by its creation
    number; [aborted] holds the controllers whose [abort()] was called.
    The model is of a host that has [AbortController] and of keys for
    which the object inherits no property, as are the keys the script
    passes (['kpis'], ['charts'], ['operations'], ['filter-options'],
    ['monthly']): the [try] branch of [fetchWithAbort] runs to its
    [return].  [RequestLog.fetchWithAbort] is the function at any key. *)
Record requests := mkRequests {
  requestControllers : gmap string nat;
  aborted : gset nat;
  created : nat
}.

Definition none : requests := mkRequests ∅ ∅ 0.

(** Returns the controller whose signal the new [fetch] carries. *)
Definition fetchWithAbort (key : string) (r : requests) : requests * nat :=
  let aborted' :=
    match requestControllers r !! key with
    | Some previous => {[previous]} ∪ aborted r
    | None => aborted r
    end in
  let controller := created r in
  (mkRequests (<[key := controller]> (requestControllers r)) aborted'
              (S (created r)),
   controller).

End Requests.

(** ** Retry loaders *)

Module Loader.
Import Cache.

(** What a [catch] block receives. *)
Inductive exn :=
| AbortError                   (* the request's signal was aborted *)
| TypeError                    (* property read on [null] or [undefined] *)
| Rejection (reason : JS.value)  (* any other rejection of [fetch] or [json()] *)
| Error (message : JS.value).    (* [new Error(message)] *)

(** What the two awaits of one attempt produce. *)
Inductive response :=
| FetchRejected (e : exn)
| JsonRejected (e : exn)
| Json (result : JS.value).

(** The calls into the page that the loaders make.  [canViewMaterials] is
    the assignment to [window.canViewMaterials] with the call of
    [window.toggleMaterialSections] that follows it when the page defines
    that function. *)
Inductive call :=
| updateDashboardKPIs (kpis : JS.value)
| canViewMaterials (allowed : JS.value)
| createDashboardChartsWithValidation (charts : JS.value)
| createEmptyCharts
| updateRecentOperationsTable (operations : JS.value)
| populateFilterOptions (options : JS.value).

Inductive event :=
| Requested (key : string) (controller : nat)
| Slept (ms : Z)
| Called (c : call).

Record page := mkPage {
  cache : dashboardCache;
  trace : list event          (* oldest first *)
}.

Inductive outcome := Returned | Threw (e : exn).

Definition log (e : event) (p : page) : page :=
  mkPage (cache p) (trace p ++ [e]).
Definition invoke (c : call) (p : page) : page := log (Called c) p.
Definition store (type : kind) (data : JS.value) (now : Z) (p : page) : page :=
  mkPage (Cache.set type data now (cache p)) (trace p).

(** What a call into the page does in the state the page is in: [None]
    when it returns, [Some e] when it throws [e].  The functions called
    belong to the page and work on its document:
    [updateRecentOperationsTable] throws on a payload it cannot spread or
    whose records it cannot read, [populateFilterOptions] on a truthy
    member without [forEach], [window.toggleMaterialSections] is whatever
    the page defines.  The loaders are modelled over any such behaviour. *)
Definition updaters := page → call → option exn.

(** A page whose functions return. *)
Definition quiet : updaters := λ _ _, None.

(** The call [c] returns, in whatever state the page is. *)
Definition returns (u : updaters) (c : call) : Prop := ∀ p, u p c = None.

(** A call from inside a [try] or [catch] block: what it throws, if it
    throws, leaves the block. *)
Definition call_into (u : updaters) (c : call) (p : page) : page * option exn :=
  (invoke c p, u p c).

(** The end of a [catch] block: after the call, [return] or [throw error],
    as [o] says, unless the call threw. *)
Definition and_then (o : outcome) (called : page * option exn) : page * outcome :=
  match called with
  | (p, None) => (p, o)
  | (p, Some thrown) => (p, Threw thrown)
  end.

(** One of the four [load...WithRetry] functions: the key it fetches
    under, the rest of its [try] block once [result] is parsed, and its
    [catch] block for [attempt === maxRetries].  [now] is the reading of
    [Date.now()] while the block runs.  In the [try] block the updater is
    called after [dashboardCache.set]: when it throws, the attempt has
    failed with the value already cached. *)
Record retry_loader := mkLoader {
  key : string;
  attempt_body : JS.value → Z → page → page * option exn;
  exhausted : exn → Z → page → page * outcome
}.

Definition loadDashboardKPIs (u : updaters) : retry_loader :=
  mkLoader "kpis"
    (λ result now p,
       if JS.nullish result then (p, Some TypeError)
       else if JS.truthy (JS.field result "success")
               && JS.truthy (JS.field result "kpis") then
         call_into u (updateDashboardKPIs (JS.field result "kpis"))
                   (store kpis (JS.field result "kpis") now p)
       else
         (p, Some (Error (JS.or (JS.field result "error")
                                (JS.VStr "KPIs não encontrados")))))
    (λ error now p,
       let cachedKpis := Cache.get kpis now (cache p) in
       if JS.truthy cachedKpis then
         and_then Returned (call_into u (updateDashboardKPIs cachedKpis) p)
       else (p, Threw error)).

Definition loadDashboardCharts (u : updaters) : retry_loader :=
  mkLoader "charts"
    (λ result now p,
       if JS.nullish result then (p, Some TypeError)
       else if JS.truthy (JS.field result "success")
               && JS.truthy (JS.field result "charts") then
         let '(p1, thrown) :=
           if JS.defined (JS.field result "can_view_materials")
           then call_into u (canViewMaterials (JS.field result "can_view_materials")) p
           else (p, None) in
         match thrown with
         | Some e => (p1, Some e)
         | None =>
             call_into u (createDashboardChartsWithValidation (JS.field result "charts"))
                       (store charts (JS.field result "charts") now p1)
         end
       else
         (p, Some (Error (JS.or (JS.field result "error")
                                (JS.VStr "Gráficos não encontrados")))))
    (λ error now p,
       let cachedCharts := Cache.get charts now (cache p) in
       if JS.truthy cachedCharts then
         and_then Returned
                  (call_into u (createDashboardChartsWithValidation cachedCharts) p)
       else and_then (Threw error) (call_into u createEmptyCharts p)).

Definition loadRecentOperations (u : updaters) : retry_loader :=
  mkLoader "operations"
    (λ result now p,
       if JS.nullish result then (p, Some TypeError)
       else if JS.truthy (JS.field result "success")
               && JS.truthy (JS.field result "operations") then
         let operationsToUse :=
           JS.or (JS.field result "operations_all") (JS.field result "operations") in
         call_into u (updateRecentOperationsTable operationsToUse)
                   (store operations operationsToUse now p)
       else
         (p, Some (Error (JS.or (JS.field result "error")
                                (JS.VStr "Operações não encontradas")))))
    (λ error now p,
       let cachedOperations := Cache.get operations now (cache p) in
       if JS.truthy cachedOperations then
         and_then Returned (call_into u (updateRecentOperationsTable cachedOperations) p)
       else and_then (Threw error)
                     (call_into u (updateRecentOperationsTable (JS.VArr [])) p)).

Definition emptyFilterOptions : JS.value :=
  JS.VObj [("materiais", JS.VArr []); ("clientes", JS.VArr []);
           ("modais", JS.VArr []); ("canais", JS.VArr [])].

Definition loadFilterOptions (u : updaters) : retry_loader :=
  mkLoader "filter-options"
    (λ result now p,
       if JS.nullish result then (p, Some TypeError)
       else if JS.truthy (JS.field result "success")
               && JS.truthy (JS.field result "options") then
         call_into u (populateFilterOptions (JS.field result "options"))
                   (store filterOptions (JS.field result "options") now p)
       else
         (p, Some (Error (JS.or (JS.field result "error")
                                (JS.VStr "Opções de filtros não encontradas")))))
    (λ error now p,
       let cachedOptions := Cache.get filterOptions now (cache p) in
       if JS.truthy cachedOptions then
         and_then Returned (call_into u (populateFilterOptions cachedOptions) p)
       else and_then (Threw error)
                     (call_into u (populateFilterOptions emptyFilterOptions) p)).

(** The four loaders of a page. *)
Definition loaders (u : updaters) : list retry_loader :=
  [loadDashboardKPIs u; loadDashboardCharts u; loadRecentOperations u;
   loadFilterOptions u].

(** The [try] block from the first await on. *)
Definition settle (L : retry_loader) (r : response) (now : Z) (p : page)
    : page * option exn :=
  match r with
  | FetchRejected e | JsonRejected e => (p, Some e)
  | Json result => attempt_body L result now p
  end.

(** [fetchWithAbort(key, url)] called from a loader. *)
Definition issue (L : retry_loader) (p : page) (rq : Requests.requests)
    : page * Requests.requests * nat :=
  let '(rq', controller) := Requests.fetchWithAbort (key L) rq in
  (log (Requested (key L) controller) p, rq', controller).

(** [await new Promise(resolve => setTimeout(resolve, 1000 * attempt))] *)
Definition sleep (attempt : nat) (p : page) : page :=
  log (Slept (1000 * Z.of_nat attempt)) p.

(** *** A loader running alone

    [resource attempt] is what the awaits of the given attempt produce and
    the clock reading at that moment.  [remaining] counts the iterations
    the [for] loop has left: [maxRetries - attempt + 1]. *)
Definition resource := nat → response * Z.

Fixpoint loop (L : retry_loader) (res : resource) (maxRetries : nat)
    (remaining attempt : nat) (p : page) (rq : Requests.requests)
    : page * Requests.requests * outcome :=
  match remaining with
  | O => (p, rq, Returned)
  | S remaining' =>
      let '(p1, rq1, _) := issue L p rq in
      let '(r, now) := res attempt in
      match settle L r now p1 with
      | (p2, None) => (p2, rq1, Returned)
      | (p2, Some error) =>
          if (attempt =? maxRetries)%nat then
            let '(p3, o) := exhausted L error now p2 in (p3, rq1, o)
          else
            loop L res maxRetries remaining' (S attempt) (sleep attempt p2) rq1
      end
  end.

Definition withRetry (L : retry_loader) (maxRetries : nat) (res : resource)
    (p : page) (rq : Requests.requests) : page * Requests.requests * outcome :=
  loop L res maxRetries maxRetries 1 p rq.

Definition loadDashboardKPIsWithRetry (u : updaters) := withRetry (loadDashboardKPIs u).
Definition loadDashboardChartsWithRetry (u : updaters) :=
  withRetry (loadDashboardCharts u).
Definition loadRecentOperationsWithRetry (u : updaters) :=
  withRetry (loadRecentOperations u).
Definition loadFilterOptionsWithRetry (u : updaters) := withRetry (loadFilterOptions u).

(** A response the [try] block of [L] turns into the exception [e],
    leaving the page as it was: the attempt fails. *)
Definition rejects (L : retry_loader) (r : response) (e : exn) : Prop :=
  ∀ now p, settle L r now p = (p, Some e).

(** Every attempt from the first to the [n]-th is rejected. *)
Definition all_rejected (L : retry_loader) (res : resource) (n : nat) : Prop :=
  ∀ i, (1 ≤ i ≤ n)%nat → ∃ e, rejects L (res i).1 e.

(** Readings of a trace. *)
Definition requested (t : list event) : list (string * nat) :=
  omap (λ e, match e with Requested k c => Some (k, c) | _ => None end) t.

Definition attempts (t : list event) : nat := length (requested t).

Definition calls (t : list event) : list call :=
  omap (λ e, match e with Called c => Some c | _ => None end) t.

(** The calls [loadDashboardChartsWithRetry] makes before it draws. *)
Definition material_permission (result : JS.value) : list call :=
  if JS.defined (JS.field result "can_view_materials")
  then [canViewMaterials (JS.field result "can_view_materials")]
  else [].

(** [result.operations_all || result.operations] *)
Definition operationsToUse (result : JS.value) : JS.value :=
  JS.or (JS.field result "operations_all") (JS.field result "operations").

(** The three behaviours of a retry loader [L] for the data group [type]
    on a page whose functions behave as [u]: [tested] is the property of
    the response that must be present, [payload] the value taken from the
    response, [render] the updater, [extra] the calls made before it,
    [empty] the calls of the empty state. *)
Section Contract.
Context (u : updaters) (L : retry_loader) (type : kind) (tested : string)
        (payload : JS.value → JS.value) (render : JS.value → call)
        (extra : JS.value → list call) (empty : list call).

(** [N - 1] failures, then a success at attempt [N], the page's functions
    returning when they are called with the value of the response. *)
Definition succeeds_at_attempt : Prop :=
  ∀ (maxRetries N : nat) (res : resource) p rq result,
    (1 ≤ N ≤ maxRetries)%nat →
    all_rejected L res (N - 1) →
    (res N).1 = Json result →
    JS.nullish result = false →
    JS.truthy (JS.field result "success") = true →
    JS.truthy (JS.field result tested) = true →
    (∀ c, c ∈ extra result → returns u c) →
    returns u (render (payload result)) →
    ∃ p' rq',
      withRetry L maxRetries res p rq = (p', rq', Returned) ∧
      attempts (trace p') = (attempts (trace p) + N)%nat ∧
      calls (trace p') =
        calls (trace p) ++ extra result ++ [render (payload result)] ∧
      Cache.slot type (cache p') = payload result ∧
      Cache.lastUpdate (cache p') = Some (res N).2.

(** Every attempt fails and the cache, still valid when the last one
    fails, has a value for the group, on which the updater returns. *)
Definition falls_back_to_cache : Prop :=
  ∀ (maxRetries : nat) (res : resource) p rq,
    (1 ≤ maxRetries)%nat →
    all_rejected L res maxRetries →
    JS.truthy (Cache.slot type (cache p)) = true →
    Cache.isValid (res maxRetries).2 (cache p) = true →
    returns u (render (Cache.slot type (cache p))) →
    ∃ p' rq',
      withRetry L maxRetries res p rq = (p', rq', Returned) ∧
      attempts (trace p') = (attempts (trace p) + maxRetries)%nat ∧
      calls (trace p') = calls (trace p) ++ [render (Cache.slot type (cache p))] ∧
      cache p' = cache p.

(** Every attempt fails and [get] finds nothing for the group; the calls
    of the empty state return. *)
Definition falls_back_to_empty : Prop :=
  ∀ (maxRetries : nat) (res : resource) p rq,
    (1 ≤ maxRetries)%nat →
    all_rejected L res maxRetries →
    Cache.get type (res maxRetries).2 (cache p) = JS.VNull →
    (∀ c, c ∈ empty → returns u c) →
    ∃ p' rq' e,
      withRetry L maxRetries res p rq = (p', rq', Threw e) ∧
      rejects L (res maxRetries).1 e ∧
      attempts (trace p') = (attempts (trace p) + maxRetries)%nat ∧
      calls (trace p') = calls (trace p) ++ empty ∧
      cache p' = cache p.

(** The cache fallback without the condition that the cache is still
    valid. *)
Definition falls_back_to_any_cached : Prop :=
  ∀ (maxRetries : nat) (res : resource) p rq,
    (1 ≤ maxRetries)%nat →
    all_rejected L res maxRetries →
    JS.truthy (Cache.slot type (cache p)) = true →
    ∃ p' rq',
      withRetry L maxRetries res p rq = (p', rq', Returned) ∧
      calls (trace p') = calls (trace p) ++ [render (Cache.slot type (cache p))].
End Contract.

End Loader.

(** ** Loaders running side by side

    The page is single-threaded: a loader runs until its next [await] and
    is resumed by the host when the awaited promise settles.  A run of a
    loader is a task; the host's inputs are a call of a loader, the response
    to a request, and the timer of a sleeping task.  A [fetch] whose signal
    is aborted rejects with [AbortError]; the task that awaits it is resumed
    in its [catch] block as soon as the code that called [abort()] reaches
    its own await. *)

Module EventLoop.
Import Loader.

Inductive phase :=
| Awaiting (controller : nat)     (* inside [await fetchWithAbort] / [await json()] *)
| Sleeping                        (* inside [await new Promise(setTimeout)] *)
| Finished (o : outcome).

Record task := mkTask {
  loader : retry_loader;
  maxRetries : nat;
  attempt : nat;
  state : phase
}.

Record world := mkWorld {
  page : Loader.page;
  requests : Requests.requests;
  tasks : list task
}.

Definition start : world := mkWorld (mkPage Cache.initial []) Requests.none [].

Inductive input :=
| Call (L : retry_loader) (maxRetries : nat) (now : Z)
| Response (controller : nat) (r : response) (now : Z)
| Timer (tid : nat) (now : Z).

Definition set_state (s : phase) (t : task) : task :=
  mkTask (loader t) (maxRetries t) (attempt t) s.

(** The [catch] block of task [tid], entered with [error]. *)
Definition fail (tid : nat) (error : exn) (now : Z) (w : world) : world :=
  match tasks w !! tid with
  | None => w
  | Some t =>
      if (attempt t =? maxRetries t)%nat then
        let '(p, o) := exhausted (loader t) error now (page w) in
        mkWorld p (requests w) (<[tid := set_state (Finished o) t]> (tasks w))
      else
        mkWorld (sleep (attempt t) (page w)) (requests w)
                (<[tid := set_state Sleeping t]> (tasks w))
  end.

Definition is_awaiting (controller : nat) (t : task) : bool :=
  match state t with
  | Awaiting c => (c =? controller)%nat
  | _ => false
  end.

(** The tasks that await the request of [controller]; [tid] is the number
    of the first task of [ts]. *)
Fixpoint awaiting_from (tid : nat) (controller : nat) (ts : list task) : list nat :=
  match ts with
  | [] => []
  | t :: ts' =>
      if is_awaiting controller t
      then tid :: awaiting_from (S tid) controller ts'
      else awaiting_from (S tid) controller ts'
  end.

Definition awaiting (controller : nat) (ts : list task) : list nat :=
  awaiting_from 0 controller ts.

(** The awaits of the [victims] reject with [AbortError]. *)
Definition abort_all (victims : list nat) (now : Z) (w : world) : world :=
  foldl (λ w' victim, fail victim AbortError now w') w victims.

(** Task [tid] enters the loop body with its current [attempt]: the loop
    test, then [fetchWithAbort]; the request it replaces is rejected. *)
Definition begin (tid : nat) (now : Z) (w : world) : world :=
  match tasks w !! tid with
  | None => w
  | Some t =>
      if (attempt t <=? maxRetries t)%nat then
        let previous := Requests.requestControllers (requests w) !! key (loader t) in
        let '(p, rq, controller) := issue (loader t) (page w) (requests w) in
        let w1 := mkWorld p rq (<[tid := set_state (Awaiting controller) t]> (tasks w)) in
        match previous with
        | Some c => abort_all (awaiting c (tasks w)) now w1
        | None => w1
        end
      else
        mkWorld (page w) (requests w)
                (<[tid := set_state (Finished Returned) t]> (tasks w))
  end.

Definition step (i : input) (w : world) : world :=
  match i with
  | Call L n now =>
      begin (length (tasks w)) now
            (mkWorld (page w) (requests w) (tasks w ++ [mkTask L n 1 Sleeping]))
  | Response controller r now =>
      match awaiting controller (tasks w) with
      | [] => w
      | tid :: _ =>
          match tasks w !! tid with
          | None => w
          | Some t =>
              match settle (loader t) r now (page w) with
              | (p, None) =>
                  mkWorld p (requests w)
                          (<[tid := set_state (Finished Returned) t]> (tasks w))
              | (p, Some error) =>
                  fail tid error now (mkWorld p (requests w) (tasks w))
              end
          end
      end
  | Timer tid now =>
      match tasks w !! tid with
      | Some t =>
          match state t with
          | Sleeping =>
              begin tid now
                    (mkWorld (page w) (requests w)
                             (<[tid := mkTask (loader t) (maxRetries t)
                                              (S (attempt t)) Sleeping]> (tasks w)))
          | _ => w
          end
      | None => w
      end
  end.

(** The inputs are handled oldest first. *)
Definition exec (inputs : list input) (w : world) : world :=
  foldl (λ w' i, step i w') w inputs.

Definition reachable (w : world) : Prop := ∃ inputs, w = exec inputs start.

(** The request of [controller] has been replaced: it was issued and no
    key has it as its current request. *)
Definition superseded (controller : nat) (w : world) : Prop :=
  (controller < Requests.created (requests w))%nat ∧
  ∀ k, Requests.requestControllers (requests w) !! k ≠ Some controller.

Definition in_flight (controller : nat) (w : world) : Prop :=
  ∃ tid t, tasks w !! tid = Some t ∧ state t = Awaiting controller.

(** What holds of every world the host can bring about: an awaited
    request is the current one of its key, controllers are numbered below
    [created], no controller serves two keys, no request is awaited by
    two tasks. *)
Record consistent (w : world) : Prop := mkConsistent {
  awaited_current : ∀ tid t c,
    tasks w !! tid = Some t → state t = Awaiting c →
    Requests.requestControllers (requests w) !! key (loader t) = Some c;
  current_created : ∀ k c,
    Requests.requestControllers (requests w) !! k = Some c →
    (c < Requests.created (requests w))%nat;
  current_one_key : ∀ k1 k2 c,
    Requests.requestControllers (requests w) !! k1 = Some c →
    Requests.requestControllers (requests w) !! k2 = Some c → k1 = k2;
  awaited_once : ∀ tid1 tid2 t1 t2 c,
    tasks w !! tid1 = Some t1 → tasks w !! tid2 = Some t2 →
    state t1 = Awaiting c → state t2 = Awaiting c → tid1 = tid2
}.

(** The inputs of the host for a loader that runs alone: for each attempt
    the response of its request, then the timer of the sleep that may
    follow.  [controller] is the controller of the attempt's request. *)
Fixpoint alone (res : resource) (remaining attempt controller : nat) : list input :=
  match remaining with
  | O => []
  | S remaining' =>
      Response controller (res attempt).1 (res attempt).2
      :: Timer 0 (res attempt).2
      :: alone res remaining' (S attempt) (S controller)
  end.

(** A cancelled request that is no failure for the loader awaiting it:
    the call that replaces the request makes the loader neither call into
    the page nor wait for another attempt. *)
Definition cancellation_is_no_failure : Prop :=
  ∀ w L n now tid t c,
    reachable w → (1 ≤ n)%nat →
    tasks w !! tid = Some t → state t = Awaiting c → key (loader t) = key L →
    calls (trace (page (step (Call L n now) w))) = calls (trace (page w)) ∧
    ∃ t', tasks (step (Call L n now) w) !! tid = Some t' ∧ state t' ≠ Sleeping.

(** [w'] has the requests of [w] and its tasks, except that some of them
    have stopped awaiting. *)
Definition quieter (w w' : world) : Prop :=
  requests w' = requests w ∧
  ∀ j t' c, tasks w' !! j = Some t' → state t' = Awaiting c →
            tasks w !! j = Some t'.

End EventLoop.

(** ** HTML escaping *)

Module Html.

Definition amp : ascii := "&".
Definition lt : ascii := "<".
Definition gt : ascii := ">".
Definition quot : ascii := "034".
Definition apos : ascii := "'".

(** [s.replace(/c/g, replacement)] for a one-character pattern. *)
Fixpoint replace (c : ascii) (replacement : string) (s : string) : string :=
  match s with
  | EmptyString => EmptyString
  | String a rest =>
      if Ascii.eqb a c then replacement +:+ replace c replacement rest
      else String a (replace c replacement rest)
  end.

(** [String(value)].  The text of a number, an array or an object is the
    host's ([host]); that of the other values is fixed. *)
Definition String_ (host : JS.value → string) (value : JS.value) : string :=
  match value with
  | JS.VStr s => s
  | JS.VUndefined => "undefined"
  | JS.VNull => "null"
  | JS.VBool true => "true"
  | JS.VBool false => "false"
  | _ => host value
  end.

Definition escapeHtml (host : JS.value → string) (value : JS.value) : string :=
  if JS.nullish value then ""
  else
    replace apos "&#39;"
      (replace quot "&quot;"
         (replace gt "&gt;"
            (replace lt "&lt;"
               (replace amp "&amp;" (String_ host value))))).

(** The text one character ends up as after the five passes. *)
Definition escaped (a : ascii) : string :=
  if Ascii.eqb a amp then "&amp;"
  else if Ascii.eqb a lt then "&lt;"
  else if Ascii.eqb a gt then "&gt;"
  else if Ascii.eqb a quot then "&quot;"
  else if Ascii.eqb a apos then "&#39;"
  else String a "".

Fixpoint escape (s : string) : string :=
  match s with
  | EmptyString => EmptyString
  | String a rest => escaped a +:+ escape rest
  end.

(** What follows the ['&'] of the five entities. *)
Definition entity_tails : list string := ["amp;"; "lt;"; "gt;"; "quot;"; "#39;"].

Definition special (a : ascii) : Prop :=
  a = lt ∨ a = gt ∨ a = quot ∨ a = apos.

(** [a] occurs in [s]. *)
Fixpoint occurs (a : ascii) (s : string) : Prop :=
  match s with
  | EmptyString => False
  | String b rest => a = b ∨ occurs a rest
  end.

(** Every ['&'] of [s] starts an entity. *)
Definition ampersands_start_entities (s : string) : Prop :=
  ∀ before after, s = before +:+ String amp after →
    ∃ tail, tail ∈ entity_tails ∧ String.prefix tail after = true.

(** The same, as a test. *)
Fixpoint entities_only (s : string) : bool :=
  match s with
  | EmptyString => true
  | String a rest =>
      (if Ascii.eqb a amp
       then existsb (λ tail, String.prefix tail rest) entity_tails
       else true)
      && entities_only rest
  end.

End Html.

(** ** Table renderer *)

Module Table.
Import Columns.

(** The parts of the renderer that belong to the host or lie outside the
    embedding: the text of a number, array or object, the conversion of
    such a value to a number, case mapping, trimming, lengths and slices
    in code units, the date and number formats of the locale, and the two
    loops of the page that add up floating-point amounts
    ([processExpensesByCategory]) and label one product
    (the callback of [summarizeProdutos]).  [String(v)] and [Number(v)]
    are total here: a value whose conversion throws (an object with an own
    [toString] that is no function) is not represented. *)
Record host := mkHost {
  h_String : JS.value → string;          (* String(v) *)
  h_Number : JS.value → JS.number;       (* Number(v) *)
  h_toUpperCase : string → string;
  h_trim : string → string;
  h_length : string → nat;               (* s.length *)
  h_slice : nat → string → string;       (* s.substring(0, n), s.slice(0, n) *)
  h_split : string → list string;        (* s.split(/[,;|\n]+/) *)
  h_localeDate : JS.value → string;      (* formatDate of a truthy argument *)
  h_today : JS.value → bool;             (* parseDate(v) is today's date *)
  h_currency : JS.number → string;       (* toLocaleString('pt-BR', currency BRL) *)
  h_number : JS.number → nat → string;   (* toLocaleString('pt-BR', n digits) *)
  h_toFixed : JS.number → nat → string;
  h_produto : JS.value → option string;  (* label of one product, if it has one *)
  (* processExpensesByCategory(array): the amounts per category, the total *)
  h_expenses : list JS.value → list (string * JS.number) * JS.number
}.

(** The globals [renderRow] reads.  [position] is the index at which the
    very object passed to [renderRow] sits in [window.currentOperations]
    ([indexOf]). *)
Record window := mkWindow {
  currentOperations : option (list (list (string * JS.value)));
  position : option nat;
  hasKingspanAccess : JS.value;
  ArmazenagemKingspan : JS.value
}.

Inductive result (A : Type) :=
| Ok (a : A)
| TypeError (what : string).
Arguments Ok {A} a.
Arguments TypeError {A} what.

#[export] Instance result_ret : MRet result := λ A a, Ok a.
#[export] Instance result_bind : MBind result := λ A B f m,
  match m with Ok a => f a | TypeError what => TypeError what end.

Section Renderer.
Context (h : host).

Definition dq : string := String Html.quot "".
Definition nl : string := String "010" "".
Definition q (s : string) : string := dq +:+ s +:+ dq.
Fixpoint spaces (n : nat) : string :=
  match n with O => "" | S n' => String " " (spaces n') end.

(** [String(v)], [`${v}`] *)
Definition text (v : JS.value) : string := Html.String_ (h_String h) v.

Definition escapeHtml (v : JS.value) : string := Html.escapeHtml (h_String h) v.

(** [Number(v)] *)
Definition to_number (v : JS.value) : JS.number :=
  match v with
  | JS.VUndefined => JS.NaN
  | JS.VNull => JS.of_Z 0
  | JS.VBool b => JS.of_Z (if b then 1 else 0)
  | JS.VNum n => n
  | _ => h_Number h v
  end.

(** [v > n] *)
Definition exceeds (v : JS.value) (n : Z) : bool := JS.gt (to_number v) (JS.of_Z n).

(** [s.includes(needle)] *)
Fixpoint includes (needle s : string) : bool :=
  String.prefix needle s ||
  match s with
  | EmptyString => false
  | String _ rest => includes needle rest
  end.

(** The text after the first [n] characters. *)
Fixpoint skip (n : nat) (s : string) : string :=
  match n, s with
  | S n', String _ rest => skip n' rest
  | _, _ => s
  end.

(** [s] cut at the first occurrence of [sep]. *)
Fixpoint cut (sep s : string) : option (string * string) :=
  if String.prefix sep s then Some ("", skip (String.length sep) s)
  else match s with
       | EmptyString => None
       | String a rest =>
           match cut sep rest with
           | Some (before, after) => Some (String a before, after)
           | None => None
           end
       end.

(** [s.split(sep)[1]] for an [s] that includes [sep]. *)
Definition second_part (sep s : string) : string :=
  match cut sep s with
  | Some (_, after) =>
      match cut sep after with
      | Some (part, _) => part
      | None => after
      end
  | None => s
  end.

(** [v.length] *)
Definition length_of (v : JS.value) : JS.value :=
  match v with
  | JS.VStr s => JS.VNum (JS.of_nat (h_length h s))
  | JS.VArr elems => JS.VNum (JS.of_nat (length elems))
  | JS.VObj props => JS.prop "length" props
  | _ => JS.VUndefined
  end.

Definition formatDate (dateString : JS.value) : string :=
  if negb (JS.truthy dateString) then "-" else h_localeDate h dateString.

Definition formatCurrency (value : JS.value) : string :=
  if negb (JS.truthy value) then "R$ 0,00" else h_currency h (to_number value).

Definition formatNumber (value : JS.value) (decimals : nat) : string :=
  if negb (JS.truthy value) then "0" else h_number h (to_number value) decimals.

Definition formatDataChegada (dateString : JS.value) : string :=
  if negb (JS.truthy dateString) then "-"
  else if h_today h dateString then
    "<span class=" +:+ q "chegada-proxima" +:+ ">" +:+ nl +:+
    spaces 12 +:+ "<i class=" +:+ q "mdi mdi-clock" +:+ "></i>" +:+ nl +:+
    spaces 12 +:+ formatDate dateString +:+ nl +:+
    spaces 8 +:+ "</span>"
  else formatDate dateString.

Definition getStatusBadge (status : JS.value) : string :=
  if negb (JS.truthy status) then
    "<span class=" +:+ q "badge badge-secondary" +:+ ">-</span>"
  else
    match status with
    | JS.VStr s =>
        if String.eqb (h_toUpperCase h (h_trim h s)) "N/A" then
          "<span class=" +:+ q "badge badge-secondary" +:+ ">N/A</span>"
        else
          let displayStatus :=
            if includes " - " s then h_trim h (second_part " - " s) else s in
          "<span class=" +:+ q "badge badge-light-monochrome" +:+ ">" +:+
          displayStatus +:+ "</span>"
    | _ =>
        "<span class=" +:+ q "badge badge-light-monochrome" +:+ ">" +:+
        text status +:+ "</span>"
    end.

Definition modal_icon (modalUpper icon : string) : string :=
  "<span class=" +:+ q "modal-icon-badge" +:+ " title=" +:+ q modalUpper +:+
  "><i class=" +:+ q ("mdi " +:+ icon) +:+ "></i></span>".

Definition getModalBadge (modal : JS.value) : string :=
  if negb (JS.truthy modal) then
    "<span class=" +:+ q "badge badge-secondary" +:+ ">-</span>"
  else
    let modalUpper := h_trim h (h_toUpperCase h (text modal)) in
    if includes "MARÍTIMA" modalUpper || includes "MARITIMA" modalUpper
    then modal_icon modalUpper "mdi-ferry"
    else if includes "AÉREA" modalUpper || includes "AEREA" modalUpper
    then modal_icon modalUpper "mdi-airplane"
    else if includes "RODOVIÁRIA" modalUpper || includes "RODOVIARIA" modalUpper
    then modal_icon modalUpper "mdi-truck"
    else if includes "FERROVIÁRIA" modalUpper || includes "FERROVIARIA" modalUpper
    then modal_icon modalUpper "mdi-train"
    else if includes "POSTAL" modalUpper || includes "CORREIO" modalUpper
    then modal_icon modalUpper "mdi-email"
    else if includes "COURIER" modalUpper || includes "EXPRESS" modalUpper
    then modal_icon modalUpper "mdi-package-variant"
    else modal_icon modalUpper "mdi-help".

Definition getCanalIndicator (canal : JS.value) : string :=
  let rawLabel := if JS.truthy canal then h_trim h (text canal) else "" in
  let upperLabel :=
    if String.eqb rawLabel "" then "" else h_toUpperCase h rawLabel in
  let dotClass :=
    if includes "VERDE" upperLabel then "verde"
    else if includes "AMARELO" upperLabel then "amarelo"
    else if includes "VERMELHO" upperLabel then "vermelho"
    else "neutro" in
  let displayLabel :=
    if negb (String.eqb upperLabel "") && negb (String.eqb upperLabel "N/A")
    then upperLabel else "-" in
  let escapedLabel := escapeHtml (JS.VStr displayLabel) in
  "<span class=" +:+ q "canal-indicator" +:+ "><span class=" +:+
  q ("canal-dot " +:+ dotClass) +:+ "></span><span class=" +:+ q "canal-text" +:+
  ">" +:+ escapedLabel +:+ "</span></span>".

Definition normalizePesoBruto (peso : JS.value) : JS.number :=
  if negb (JS.truthy peso) then JS.of_Z 0
  else match to_number peso with
       | JS.NaN => JS.of_Z 0
       | JS.Fin pesoNum =>
           if JS.gt (JS.Fin pesoNum) (JS.of_Z 100000)
           then JS.Fin (pesoNum / 100) else JS.Fin pesoNum
       | JS.PosInf => JS.PosInf
       | JS.NegInf => JS.NegInf
       end.

(** A value that counts as storage data. *)
Definition armazenagem_value (value : JS.value) : bool :=
  match value with
  | JS.VUndefined | JS.VNull => false
  | JS.VNum n => JS.truthy (JS.VNum n)
  | _ =>
      let str := h_trim h (text value) in
      negb (String.eqb str "") && negb (String.eqb str "0") && negb (String.eqb str "-")
  end.

Definition hasArmazenagemDetails (operation : list (string * JS.value)) : bool :=
  if JS.truthy (JS.prop "has_armazenagem_data" operation) then true
  else match JS.prop "armazenagem_data" operation with
       | JS.VObj data => existsb (λ kv, armazenagem_value kv.2) data
       | JS.VArr data => existsb armazenagem_value data
       | _ => false
       end.

Definition getArmazenagemDisplay (operation : list (string * JS.value))
    (field : string) : string :=
  match JS.prop "armazenagem_data" operation with
  | JS.VObj data =>
      let value := JS.prop field data in
      if JS.nullish value || JS.strict_eq value (JS.VStr "")
         || JS.strict_eq value (JS.VStr "-") then "-"
      else if String.eqb field "valor_despesas_extras" then
        match to_number value with
        | JS.NaN => "-"
        | numeric =>
            if JS.same_number numeric (JS.of_Z 0) then "-"
            else formatCurrency (JS.VNum numeric)
        end
      else if String.eqb field "dias_extras_armazenagem" then
        match to_number value with
        | JS.NaN => "-"
        | numeric =>
            if JS.same_number numeric (JS.of_Z 0) then "-"
            else text (JS.VNum numeric) +:+ " " +:+
                 (if JS.same_number numeric (JS.of_Z 1) then "dia" else "dias")
        end
      else formatDate value
  | _ => "-"
  end.

(** [values.map(v => v == null ? '' : String(v).trim()).filter(Boolean)] *)
Definition trimmed (values : list JS.value) : list string :=
  filter (λ t, t ≠ "")
    ((λ v, if JS.nullish v then "" else h_trim h (text v)) <$> values).

Definition extractContainerValues (operation : list (string * JS.value))
    : list JS.value :=
  let rawValue :=
    JS.or (JS.or (JS.or (JS.prop "container" operation)
                        (JS.prop "numero_container" operation))
                 (JS.prop "conteiner" operation))
          (JS.prop "conteineres" operation) in
  match rawValue with
  | JS.VArr items => JS.VStr <$> trimmed items
  | JS.VStr s =>
      if String.eqb s "" then []
      else JS.VStr <$> filter (λ t, t ≠ "") (h_trim h <$> h_split h s)
  | _ => []
  end.

(** [null] is [None]. *)
Definition createChipListMarkup (values : JS.value) (maxVisible : nat)
    : option string :=
  match values with
  | JS.VArr [] => None
  | JS.VArr items =>
      match trimmed items with
      | [] => None
      | normalized =>
          let visibleValues := take maxVisible normalized in
          let overflow := (length normalized - length visibleValues)%nat in
          let chips :=
            (λ value,
               let display :=
                 if (18 <? h_length h value)%nat
                 then h_slice h 18 value +:+ "…" else value in
               "<span class=" +:+ q "data-chip" +:+ " title=" +:+
               q (escapeHtml (JS.VStr value)) +:+ ">" +:+
               escapeHtml (JS.VStr display) +:+ "</span>") <$> visibleValues in
          let more :=
            if (0 <? overflow)%nat then
              [nl +:+ spaces 12 +:+ "<span class=" +:+ q "data-chip data-chip-more" +:+
               " title=" +:+
               q (pretty overflow +:+ " item" +:+
                  (if (overflow =? 1)%nat then "" else "s") +:+ " adicionais") +:+
               ">+" +:+ pretty overflow +:+ "</span>" +:+ nl +:+ spaces 8]
            else [] in
          Some ("<div class=" +:+ q "data-chip-list" +:+ ">" +:+
                String.concat "" (chips ++ more) +:+ "</div>")
      end
  | _ => None
  end.

(** [{text, tooltip}] of a list of labels. *)
Definition summary_of (entries : list string) (maxItems : nat)
    : list (string * JS.value) :=
  let displayEntries := take maxItems entries in
  let suffix :=
    if (maxItems <? length entries)%nat
    then " +" +:+ pretty (length entries - maxItems)%nat else "" in
  [("text", JS.VStr (h_trim h (String.concat ", " displayEntries +:+ suffix)));
   ("tooltip", JS.VStr (String.concat nl entries))].

Definition summarizeProdutos (operation : list (string * JS.value)) : JS.value :=
  match JS.prop "produtos_processo" operation with
  | JS.VArr (produto :: produtos) =>
      match omap (h_produto h) (produto :: produtos) with
      | [] => JS.VObj [("text", JS.VStr "-"); ("entries", JS.VArr [])]
      | entries =>
          JS.VObj (summary_of entries 3 ++ [("entries", JS.VArr (JS.VStr <$> entries))])
      end
  | _ => JS.VObj [("text", JS.VStr "-"); ("entries", JS.VArr [])]
  end.

(** [Number(valorB) - Number(valorA)] *)
Definition by_value_desc (a b : string * JS.number) : JS.number :=
  JS.sub b.2 a.2.

(** [expenseData] is [None] for [null]; computed, it is the object
    [{categorias, total}] of [processExpensesByCategory]. *)
Definition summarizeDespesas
    (expenseData : option (list (string * JS.number) * JS.number))
    (operation : list (string * JS.value)) : JS.value :=
  let data :=
    match expenseData, JS.prop "despesas_processo" operation with
    | None, JS.VArr (despesa :: despesas) => Some (h_expenses h (despesa :: despesas))
    | _, _ => expenseData
    end in
  match data with
  | Some (categorias, _) =>
      let entries :=
        (λ kv, kv.1 +:+ ": " +:+ formatCurrency (JS.VNum kv.2)) <$>
        ArraySort.sort by_value_desc
          (List.filter (λ kv, JS.truthy (JS.VNum kv.2)) categorias) in
      match entries with
      | [] => JS.VObj [("text", JS.VStr "-")]
      | _ => JS.VObj (summary_of entries 3)
      end
  | None => JS.VObj [("text", JS.VStr "-")]
  end.

(** [window.currentOperations.findIndex(op => op.ref_importador === ref)],
    counted from [i]. *)
Fixpoint findIndex (ref : JS.value) (ops : list (list (string * JS.value)))
    (i : nat) : option nat :=
  match ops with
  | [] => None
  | op :: rest =>
      if JS.strict_eq (JS.prop "ref_importador" op) ref then Some i
      else findIndex ref rest (S i)
  end.

(** What [renderRow] computes before it maps over the columns. *)
Record prepared := mkPrepared {
  modalIndex : option nat;                 (* [None] is -1 *)
  isKingspanProcess : bool;
  hasProdutos : bool;
  hasArmazenagemData : bool;
  exportadorFull : JS.value;
  exportadorDisplay : JS.value;
  statusDisplay : JS.value;
  custoTotal : JS.value;
  urfValue : JS.value;
  canalContent : string;
  produtosResumo : JS.value;
  despesasResumo : JS.value
}.

Definition prepare (w : window) (operation : list (string * JS.value))
    : result prepared :=
  let modalIndex :=
    match currentOperations w with
    | Some ops =>
        match findIndex (JS.prop "ref_importador" operation) ops 0 with
        | Some globalIndex => Some globalIndex
        | None => position w
        end
    | None => None
    end in
  isKingspanProcess ←
    match JS.or (JS.prop "importador" operation) (JS.VStr "") with
    | JS.VStr importador => Ok (includes "KING" (h_toUpperCase h importador))
    | _ => TypeError "toUpperCase is not a function"
    end;
  let hasProdutos :=
    match JS.prop "produtos_processo" operation with
    | JS.VArr (_ :: _) => true
    | _ => false
    end in
  let hasArmazenagemData := hasArmazenagemDetails operation in
  let exportadorFull := JS.or (JS.prop "exportador_fornecedor" operation) (JS.VStr "-") in
  exportadorDisplay ←
    (if exceeds (length_of exportadorFull) 18 then
       match exportadorFull with
       | JS.VStr s => Ok (JS.VStr (h_slice h 18 s +:+ "…"))
       | _ => TypeError "substring is not a function"
       end
     else Ok exportadorFull);
  let fallbackStatus :=
    JS.or (JS.or (JS.prop "status_processo" operation) (JS.prop "status" operation))
          (JS.VStr "Sem Info") in
  statusDisplay ←
    (if JS.truthy (JS.prop "status_sistema" operation) then
       match JS.prop "status_sistema" operation with
       | JS.VStr s =>
           if String.eqb (h_trim h s) "" then Ok fallbackStatus else Ok (JS.VStr s)
       | _ => TypeError "trim is not a function"
       end
     else Ok fallbackStatus);
  let expenseData :=
    match JS.prop "despesas_processo" operation with
    | JS.VArr (despesa :: despesas) => Some (h_expenses h (despesa :: despesas))
    | _ => None
    end in
  let custoTotal :=
    if JS.truthy (JS.prop "custo_total_view" operation)
       && exceeds (JS.prop "custo_total_view" operation) 0
    then JS.prop "custo_total_view" operation
    else if JS.truthy (JS.prop "custo_total" operation)
            && exceeds (JS.prop "custo_total" operation) 0
    then JS.prop "custo_total" operation
    else match expenseData with
         | Some (_, total) => JS.or (JS.VNum total) (JS.VNum (JS.of_Z 0))
         | None => JS.VNum (JS.of_Z 0)
         end in
  let urfValue :=
    if JS.truthy (JS.prop "urf_despacho_normalizado" operation)
       && negb (JS.strict_eq (JS.prop "urf_despacho_normalizado" operation) (JS.VStr "N/A"))
    then JS.prop "urf_despacho_normalizado" operation
    else JS.or (JS.prop "urf_despacho" operation) (JS.VStr "-") in
  let canalValue :=
    JS.or (JS.or (JS.prop "canal" operation) (JS.prop "canal_parametrizado" operation))
          (JS.VStr "-") in
  let produtosResumo :=
    JS.or (JS.prop "__produtos_summary" operation) (summarizeProdutos operation) in
  Ok (mkPrepared modalIndex isKingspanProcess hasProdutos hasArmazenagemData
        exportadorFull exportadorDisplay statusDisplay custoTotal urfValue
        (getCanalIndicator canalValue) produtosResumo
        (summarizeDespesas expenseData operation)).

(** The memo [renderRow] leaves on the record. *)
Definition memoize (c : prepared) (operation : list (string * JS.value))
    : list (string * JS.value) :=
  if JS.truthy (JS.prop "__produtos_summary" operation) then operation
  else ("__produtos_summary", produtosResumo c)
       :: ("__produtos_entries", JS.field (produtosResumo c) "entries")
       :: ("__produtos_tooltip", JS.field (produtosResumo c) "tooltip")
       :: operation.

Definition td (content : string) : string := "<td>" +:+ content +:+ "</td>".

(** [escapeHtml(tooltip).replace(/\n/g, '&#10;')] as a [title] attribute. *)
Definition tooltipAttr (tooltip : JS.value) : string :=
  let escaped :=
    if JS.truthy tooltip
    then Html.replace "010" "&#10;" (escapeHtml tooltip) else "" in
  if String.eqb escaped "" then "" else " title=" +:+ q escaped.

Definition actionButton (handler icon : string) (index : nat) (title : string)
    (indent : nat) : string :=
  nl +:+ spaces (indent + 4) +:+ "<button class=" +:+ q "table-action-btn" +:+
  " onclick=" +:+ q (handler +:+ "(" +:+ pretty index +:+ ")") +:+
  " title=" +:+ q title +:+ ">" +:+ nl +:+
  spaces (indent + 8) +:+ "<i class=" +:+ q ("mdi " +:+ icon) +:+ "></i>" +:+ nl +:+
  spaces (indent + 4) +:+ "</button>" +:+ nl +:+ spaces indent.

Definition disabledButton : string :=
  nl +:+ spaces 28 +:+ "<button class=" +:+ q "table-action-btn" +:+
  " disabled title=" +:+ q "Processo indisponível" +:+ ">" +:+ nl +:+
  spaces 32 +:+ "<i class=" +:+ q "mdi mdi-eye-off-outline" +:+ "></i>" +:+ nl +:+
  spaces 28 +:+ "</button>" +:+ nl +:+ spaces 24.

Definition acoes (w : window) (c : prepared) : string :=
  let view :=
    match modalIndex c with
    | Some index => actionButton "openProcessModal" "mdi-eye-outline" index "Ver detalhes" 24
    | None => disabledButton
    end in
  let allowBagagem :=
    (isKingspanProcess c && JS.truthy (hasKingspanAccess w))
    || hasProdutos c || hasArmazenagemData c in
  let bag :=
    if allowBagagem && JS.defined (ArmazenagemKingspan w) then
      let tooltipText :=
        if hasProdutos c && hasArmazenagemData c
        then "Ver produtos e informações de armazenagem"
        else if hasProdutos c then "Ver produtos detalhados"
        else "Ver informações de armazenagem" in
      let iconSuffix :=
        if hasProdutos c || hasArmazenagemData c then "" else "-outline" in
      match modalIndex c with
      | Some index =>
          actionButton "openArmazenagemModal" ("mdi-bag-suitcase" +:+ iconSuffix)
                       index tooltipText 28
      | None => ""
      end
    else "" in
  td (view +:+ bag).

(** The [case] labels of the [switch] with the cell each returns. *)
Definition cases (w : window) (c : prepared) (operation : list (string * JS.value))
    : list (string * string) :=
  let field name := JS.prop name operation in
  let or_dash v := JS.or v (JS.VStr "-") in
  [ ("acoes", acoes w c);
    ("ref_importador", td ("<strong>" +:+ text (or_dash (field "ref_importador")) +:+ "</strong>"));
    ("importador", td (text (or_dash (field "importador"))));
    ("data_abertura", td (formatDate (field "data_abertura")));
    ("exportador",
       "<td title=" +:+ q (text (exportadorFull c)) +:+ ">" +:+
       text (exportadorDisplay c) +:+ "</td>");
    ("modal", td (getModalBadge (field "modal")));
    ("status", td (getStatusBadge (statusDisplay c)));
    ("custos",
       td ("<span class=" +:+ q "currency-value" +:+ ">" +:+
           formatCurrency (custoTotal c) +:+ "</span>"));
    ("data_chegada", td (formatDataChegada (field "data_chegada")));
    ("presenca_carga", td (text (or_dash (field "presenca_carga"))));
    ("data_embarque", td (formatDate (field "data_embarque")));
    ("transit_time",
       let transitTime := JS.or (field "transit_time") (field "transit_time_real") in
       td (if JS.truthy transitTime then text transitTime +:+ " dias" else "-"));
    ("mercadoria", td (text (or_dash (field "mercadoria"))));
    ("produtos",
       let chipsMarkup := createChipListMarkup (JS.field (produtosResumo c) "entries") 4 in
       let text_ := escapeHtml (or_dash (JS.field (produtosResumo c) "text")) in
       "<td" +:+ tooltipAttr (JS.field (produtosResumo c) "tooltip") +:+ ">" +:+
       match chipsMarkup with
       | Some markup => markup
       | None => if String.eqb text_ "" then "-" else text_
       end +:+ "</td>");
    ("container",
       let containerValues :=
         if JS.isArray (field "__container_values") then field "__container_values"
         else JS.VArr (extractContainerValues operation) in
       td (match createChipListMarkup containerValues 6 with
           | Some markup => markup
           | None => "-"
           end));
    ("peso_bruto",
       let peso := JS.or (JS.or (field "peso_bruto") (field "peso_bruto_kg"))
                         (field "peso_bruto_total") in
       let pesoNormalized := JS.VNum (normalizePesoBruto peso) in
       td (if JS.truthy pesoNormalized
           then formatNumber pesoNormalized 2 +:+ " kg" else "-"));
    ("despesas",
       let text_ := escapeHtml (or_dash (JS.field (despesasResumo c) "text")) in
       "<td" +:+ tooltipAttr (JS.field (despesasResumo c) "tooltip") +:+ ">" +:+
       (if String.eqb text_ "" then "-" else text_) +:+ "</td>");
    ("urf", td (text (urfValue c)));
    ("numero_di",
       td (text (JS.or (JS.or (field "numero_di") (field "numero_declaracao"))
                       (JS.VStr "-"))));
    ("data_registro",
       td (formatDate (JS.or (field "data_registro") (field "data_registro_di"))));
    ("canal", td (canalContent c));
    ("pais",
       let pais := JS.or (JS.or (field "pais") (field "pais_procedencia_normalizado"))
                         (field "pais_procedencia") in
       td (text (or_dash pais)));
    ("data_desova", td (escapeHtml (JS.VStr (getArmazenagemDisplay operation "data_desova"))));
    ("limite_primeiro_periodo",
       td (escapeHtml (JS.VStr (getArmazenagemDisplay operation "limite_primeiro_periodo"))));
    ("limite_segundo_periodo",
       td (escapeHtml (JS.VStr (getArmazenagemDisplay operation "limite_segundo_periodo"))));
    ("dias_extras_armazenagem",
       td (escapeHtml (JS.VStr (getArmazenagemDisplay operation "dias_extras_armazenagem"))));
    ("valor_despesas_extras",
       td (escapeHtml (JS.VStr (getArmazenagemDisplay operation "valor_despesas_extras"))));
    ("po_cliente", td (escapeHtml (or_dash (field "po_cliente"))));
    ("referencia_exportador", td (escapeHtml (or_dash (field "referencia_exportador"))));
    ("codigo_produto", td (escapeHtml (or_dash (field "codigo_produto"))));
    ("filial_codigo", td (escapeHtml (or_dash (field "filial_codigo"))));
    ("licenca_importacao", td (escapeHtml (or_dash (field "licenca_importacao"))));
    ("freetime", td (escapeHtml (or_dash (field "freetime"))));
    ("etb", td (formatDate (field "etb")));
    ("navio", td (escapeHtml (or_dash (field "navio"))));
    ("armador_agente_trade", td (escapeHtml (or_dash (field "armador_agente_trade"))));
    ("moeda", td (escapeHtml (or_dash (field "moeda"))));
    ("total_pedido_moeda_origem",
       let total := field "total_pedido_moeda_origem" in
       td (if JS.truthy total then formatCurrency total else "-"));
    ("ptax",
       let ptax := field "ptax" in
       td (if JS.truthy ptax then h_toFixed h (to_number ptax) 4 else "-"));
    ("incoterm", td (escapeHtml (or_dash (field "incoterm")))) ].

(** The [switch (column.id)]: the first label equal to the id, else
    [default]. *)
Fixpoint switch (id : string) (labelled : list (string * string)) : string :=
  match labelled with
  | [] => "<td>-</td>"
  | (label, cell) :: rest => if String.eqb id label then cell else switch id rest
  end.

Definition cells (w : window) (c : prepared) (operation : list (string * JS.value))
    (visibleColumns : list ColumnDefinition) : list string :=
  (λ column, switch (col_id column) (cases w c operation)) <$> visibleColumns.

(** The markup of the row and the record as [renderRow] leaves it. *)
Definition renderRow (w : window) (visibleColumns : list ColumnDefinition)
    (operation : list (string * JS.value))
    : result (string * list (string * JS.value)) :=
  match visibleColumns with
  | [] =>
      Ok ("<td colspan=" +:+ q "1" +:+ ">Configuração de colunas indisponível</td>",
          operation)
  | _ =>
      c ← prepare w operation;
      Ok (String.concat "" (cells w c operation visibleColumns), memoize c operation)
  end.

End Renderer.

(** The text of a piece of markup: what is left without the tags. *)
Fixpoint text_outside (in_tag : bool) (markup : string) : string :=
  match markup with
  | EmptyString => EmptyString
  | String a rest =>
      if Ascii.eqb a "<" then text_outside true rest
      else if Ascii.eqb a ">" then text_outside false rest
      else if in_tag then text_outside true rest
      else String a (text_outside false rest)
  end.

(** The cell shows the placeholder and nothing else. *)
Definition placeholder (cell : string) : Prop := text_outside false cell = "-".

(** The text of the cell has a dash in it. *)
Definition mentions_placeholder (cell : string) : Prop :=
  Html.occurs "-" (text_outside false cell).

(** What every host does with the three texts a record without data
    leads to: [-] has length 1 and stays as it is when trimmed or
    upper-cased, the empty text stays empty when upper-cased, and
    [Sem Info] does not become [N/A]. *)
Record ordinary (h : host) : Prop := mkOrdinary {
  trim_dash : h_trim h "-" = "-";
  upper_dash : h_toUpperCase h "-" = "-";
  length_dash : h_length h "-" = 1%nat;
  upper_empty : h_toUpperCase h "" = "";
  upper_sem_info : h_toUpperCase h (h_trim h "Sem Info") ≠ "N/A"
}.

(** Every property of the record reads [undefined] or [null]. *)
Definition all_absent (operation : list (string * JS.value)) : Prop :=
  ∀ name, JS.nullish (JS.prop name operation) = true.

(** Every cell of a row over a record without data has the placeholder
    in its text. *)
Definition every_cell_is_placeholder : Prop :=
  ∀ h w visibleColumns operation,
    ordinary h → all_absent operation →
    ∃ c, prepare h w operation = Ok c ∧
         Forall mentions_placeholder (cells h w c operation visibleColumns).

(** What [prepare] computes for a record without data, up to the index
    the buttons carry. *)
Definition without_data (h : host) (modalIndex : option nat) : prepared :=
  mkPrepared modalIndex false false false (JS.VStr "-") (JS.VStr "-")
    (JS.VStr "Sem Info") (JS.VNum (JS.of_Z 0)) (JS.VStr "-")
    (getCanalIndicator h (JS.VStr "-"))
    (JS.VObj [("text", JS.VStr "-"); ("entries", JS.VArr [])])
    (JS.VObj [("text", JS.VStr "-")]).

End Table.

(** ** The stored column configuration

    [getColumnConfig] and the functions around it: the configuration being
    previewed ([window.tempColumnConfig]), the one held in memory
    ([cachedColumnsConfig]) and the text in [localStorage]. *)

Module ColumnStore.
Import Columns.

(** The host's JSON.  [JSON_parse] is [None] where [JSON.parse] throws. *)
Record json := mkJson {
  JSON_parse : string → option JS.value;
  JSON_stringify : list ColumnConfig → string
}.

(** [tempColumnConfig] is [None] while the property is deleted,
    [cachedColumnsConfig] is [None] for [null]. *)
Record store := mkStore {
  dashboardColumnsStorageKey : JS.value;
  tempColumnConfig : option (list ColumnConfig);
  cachedColumnsConfig : option (list ColumnConfig);
  localStorage : gmap string string
}.

Definition DASHBOARD_COLUMNS_STORAGE_KEY_DEFAULT : string :=
  "dashboard_exec_columns_config".

Definition getColumnsStorageKey (s : store) : string :=
  match dashboardColumnsStorageKey s with
  | JS.VStr k => if String.eqb k "" then DASHBOARD_COLUMNS_STORAGE_KEY_DEFAULT else k
  | _ => DASHBOARD_COLUMNS_STORAGE_KEY_DEFAULT
  end.

(** What [normalizeColumnsConfig] reads of one element of a parsed array:
    [item.id] throws on [null]; a number, text or array has no such
    properties. *)
Definition item_of (item : JS.value) : option StoredColumn :=
  match item with
  | JS.VUndefined | JS.VNull => None
  | JS.VObj props =>
      Some (mkStored (JS.prop "id" props) (JS.prop "visible" props)
                     (JS.prop "order" props))
  | _ => Some (mkStored JS.VUndefined JS.VUndefined JS.VUndefined)
  end.

(** [(config || []).map(item => [item.id, item])] for a parsed value:
    [None] where it throws, [Some None] where [config] is falsy. *)
Definition config_of (parsed : JS.value) : option (option (list StoredColumn)) :=
  if negb (JS.truthy parsed) then Some None
  else match parsed with
       | JS.VArr items => Some <$> mapM item_of items
       | _ => None
       end.

(** The configuration read from [localStorage]: [None] when nothing is
    stored, the text is empty, or the [try] block throws. *)
Definition persisted (j : json) (s : store) : option (list ColumnConfig) :=
  text ← localStorage s !! getColumnsStorageKey s;
  if String.eqb text "" then None
  else parsed ← JSON_parse j text;
       config ← config_of parsed;
       Some (normalizeColumnsConfig config).

Definition getColumnConfig (j : json) (s : store) : list ColumnConfig * store :=
  match tempColumnConfig s with
  | Some temp => (temp, s)
  | None =>
      match cachedColumnsConfig s with
      | Some cached => (cached, s)
      | None =>
          let config :=
            match persisted j s with
            | Some config => config
            | None => normalizeColumnsConfig (Some (stored <$> getDefaultColumnsConfig))
            end in
          (config,
           mkStore (dashboardColumnsStorageKey s) None (Some config) (localStorage s))
      end
  end.

Definition setTempColumnConfig (config : option (list StoredColumn)) (s : store)
    : store :=
  mkStore (dashboardColumnsStorageKey s) (Some (normalizeColumnsConfig config))
          (cachedColumnsConfig s) (localStorage s).

Definition clearTempColumnConfig (s : store) : store :=
  mkStore (dashboardColumnsStorageKey s) None (cachedColumnsConfig s) (localStorage s).

(** [localStorage.setItem] is taken to accept the text. *)
Definition saveColumnConfig (j : json) (config : option (list StoredColumn))
    (s : store) : store :=
  let normalized := normalizeColumnsConfig config in
  clearTempColumnConfig
    (mkStore (dashboardColumnsStorageKey s) (tempColumnConfig s) (Some normalized)
             (<[getColumnsStorageKey s := JSON_stringify j normalized]> (localStorage s))).

Definition resetColumnConfigToDefault (s : store) : list ColumnConfig * store :=
  let defaultConfig :=
    normalizeColumnsConfig (Some (stored <$> getDefaultColumnsConfig)) in
  (defaultConfig, setTempColumnConfig (Some (stored <$> defaultConfig)) s).

(** [new Map(config.filter(col => col.visible).map(col => [col.id, col.order]))] *)
Definition visibleIds_of (config : list ColumnConfig) : gmap string JS.number :=
  foldl (λ m col, <[id col := order col]> m) ∅
        (filter (λ col, visible col = true) config).

(** [visibleIds.get(a.id) - visibleIds.get(b.id)]; a missing entry reads
    [undefined], which makes the difference NaN. *)
Definition by_position (visibleIds : gmap string JS.number)
    (a b : ColumnDefinition) : JS.number :=
  JS.sub (default JS.NaN (visibleIds !! col_id a))
         (default JS.NaN (visibleIds !! col_id b)).

Definition getVisibleColumns (j : json) (s : store)
    : list ColumnDefinition * store :=
  let '(config, s') := getColumnConfig j s in
  let visibleIds := visibleIds_of config in
  (ArraySort.sort (by_position visibleIds)
     (filter (λ col, is_Some (visibleIds !! col_id col)) AVAILABLE_COLUMNS),
   s').

(** The position a column id has in the table. *)
Definition position_of (visibleIds : gmap string JS.number) (i : string) : Z :=
  match visibleIds !! i with
  | Some (JS.Fin q) => Qnum q
  | _ => 0
  end.

(** The value [JSON.parse] returns for the text of [{id, visible, order}]. *)
Definition object_of (c : ColumnConfig) : JS.value :=
  JS.VObj [("id", JS.VStr (id c)); ("visible", JS.VBool (visible c));
           ("order", JS.VNum (order c))].

(** The calls the settings dialog and the table make into this module. *)
Inductive operation :=
| GetColumnConfig
| SetTempColumnConfig (config : option (list StoredColumn))
| ClearTempColumnConfig
| SaveColumnConfig (config : option (list StoredColumn))
| ResetColumnConfigToDefault
| GetVisibleColumns.

Definition apply (j : json) (s : store) (o : operation) : store :=
  match o with
  | GetColumnConfig => (getColumnConfig j s).2
  | SetTempColumnConfig config => setTempColumnConfig config s
  | ClearTempColumnConfig => clearTempColumnConfig s
  | SaveColumnConfig config => saveColumnConfig j config s
  | ResetColumnConfigToDefault => (resetColumnConfigToDefault s).2
  | GetVisibleColumns => (getVisibleColumns j s).2
  end.

(** The store as the script leaves it when the page loads, over what
    [localStorage] holds. *)
Definition loaded (storageKey : JS.value) (storage : gmap string string) : store :=
  mkStore storageKey None None storage.

Definition run (j : json) (s : store) (ops : list operation) : store :=
  foldl (apply j) s ops.

(** A configuration that [normalizeColumnsConfig] returned. *)
Definition normalized (config : list ColumnConfig) : Prop :=
  ∃ given, config = normalizeColumnsConfig given.

(** Both configurations held in memory are normalized ones. *)
Definition settled (s : store) : Prop :=
  (∀ config, tempColumnConfig s = Some config → normalized config) ∧
  (∀ config, cachedColumnsConfig s = Some config → normalized config).

End ColumnStore.

(** ** Requests issued one after the other *)

Module RequestLog.

(** The property names a plain object inherits from [Object.prototype]
    (ECMAScript, with its Annex B). *)
Definition Object_prototype : list string :=
  ["constructor"; "hasOwnProperty"; "isPrototypeOf"; "propertyIsEnumerable";
   "toLocaleString"; "toString"; "valueOf"; "__proto__";
   "__defineGetter__"; "__defineSetter__"; "__lookupGetter__"; "__lookupSetter__"].

Definition inherited (key : string) : bool := bool_decide (key ∈ Object_prototype).

(** [fetchWithAbort(key, url)] at any key.  [requestControllers] is a plain
    object: at a name it inherits, [requestControllers[key]] reads the
    inherited value, which is truthy and has no [abort]; the call of
    [abort] throws and the [catch] block issues the [fetch] without a
    signal.  The assignment to [requestControllers[key]] is not reached:
    no controller is created and none is registered.  At any other key
    the [try] block runs to its [return].  The result is the controller of
    the request, if it has one. *)
Definition fetchWithAbort (key : string) (r : Requests.requests)
    : Requests.requests * option nat :=
  if inherited key then (r, None)
  else let '(r', controller) := Requests.fetchWithAbort key r in
       (r', Some controller).

(** The registry of controllers after [fetchWithAbort] has been called
    with each of [keys], oldest first, on a fresh page. *)
Definition issued (keys : list string) : Requests.requests :=
  foldl (λ r key, (fetchWithAbort key r).1) Requests.none keys.

(** The same for keys at which the [try] block returns. *)
Definition registered (keys : list string) : Requests.requests :=
  foldl (λ r key, (Requests.fetchWithAbort key r).1) Requests.none keys.

(** The calls that get a controller, in their order. *)
Definition with_controller (keys : list string) : list string :=
  filter (λ key, inherited key = false) keys.

(** The key requested again after the [c]-th call. *)
Definition requested_again (keys : list string) (c : nat) : Prop :=
  ∃ j key, (c < j)%nat ∧ keys !! c = Some key ∧ keys !! j = Some key.

End RequestLog.

(** ** The base data loader

    [loadDataWithRetry]: plain [fetch] of [/api/load-data], no cache, a
    timer of [Math.pow(2, attempt) * 1000] ms between attempts. *)

Module BaseData.
Import Loader.

(** [Slept delay]: the function awaited [setTimeout(resolve, delay)].
    [delay] is the number handed to the timer; how long a timer with a
    delay above [2^31 - 1] or an infinite one takes is the host's. *)
Inductive event :=
| Fetched
| Slept (delay : JS.number).

(** [ReturnedUndefined]: the function ran off its end.  [Threw message]:
    it threw [new Error(message)]. *)
Inductive outcome :=
| Returned (data : JS.value)
| ReturnedUndefined
| Threw (message : string).

Section Load.
Context (h : Table.host) (host_message : exn → string).

(** [error.message] as the template literal prints it; the text of the
    errors the host creates is the host's. *)
Definition message (error : exn) : string :=
  match error with
  | Error m => Table.text h m
  | _ => host_message error
  end.

(** The [try] block: the data it returns or the exception it throws. *)
Definition attempt_body (r : response) : JS.value + exn :=
  match r with
  | FetchRejected e | JsonRejected e => inr e
  | Json result =>
      if JS.nullish result then inr TypeError
      else if JS.truthy (JS.field result "success")
              && JS.truthy (JS.field result "data")
              && Table.exceeds h (Table.length_of h (JS.field result "data")) 0
      then inl (JS.field result "data")
      else inr (Error (JS.or (JS.field result "error")
                             (JS.VStr "Dados não encontrados ou vazios")))
  end.

(** [Math.pow(2, attempt) * 1000] in double arithmetic.  The power is
    exact up to [attempt = 1023], and the product [125 * 2^(attempt + 3)]
    is a double, hence exact, while it is below [2^1024]: up to
    [attempt = 1014].  From 1015 on the product overflows (from 1024 on
    the power does) and the result is [Infinity]. *)
Definition delay (attempt : nat) : JS.number :=
  if (attempt <=? 1014)%nat then JS.of_Z (2 ^ Z.of_nat attempt * 1000)
  else JS.PosInf.

(** [remaining] counts the iterations the [for] loop has left. *)
Fixpoint loop (res : nat → response) (maxRetries remaining attempt : nat)
    (log : list event) : list event * outcome :=
  match remaining with
  | O => (log, ReturnedUndefined)
  | S remaining' =>
      match attempt_body (res attempt) with
      | inl data => (log ++ [Fetched], Returned data)
      | inr error =>
          if (attempt =? maxRetries)%nat then
            (log ++ [Fetched],
             Threw ("Falha após " +:+ pretty maxRetries +:+ " tentativas: " +:+
                    message error))
          else
            loop res maxRetries remaining' (S attempt)
                 (log ++ [Fetched; Slept (delay attempt)])
      end
  end.

Definition loadDataWithRetry (maxRetries : nat) (res : nat → response)
    : list event * outcome :=
  loop res maxRetries maxRetries 1 [].

(** A response the [try] block throws on. *)
Definition fails (r : response) (error : exn) : Prop := attempt_body r = inr error.

End Load.

(** The delays after the attempts [1], ..., [n], in milliseconds, when
    each is twice the one before: 2000, 4000, ... *)
Definition doubling (n : nat) : list Z := (λ i, 2 ^ Z.of_nat i * 1000) <$> seq 1 n.

(** Readings of a log. *)
Definition fetches (log : list event) : nat :=
  length (List.filter (λ e, match e with Fetched => true | _ => false end) log).

Definition pauses (log : list event) : list JS.number :=
  omap (λ e, match e with Slept delay => Some delay | _ => None end) log.

End BaseData.

(** ** Loaders that store what they load and do not retry *)

Module CacheLoader.
Import Cache Loader.

(** [r] is what the two awaits produce, [now] the reading of [Date.now()]
    inside [dashboardCache.set].  The updater is the last statement of the
    [try] block and the [catch] block only logs: whether the updater
    returns or throws, the function leaves the same cache and has made the
    same call.  [window.toggleMaterialSections], where the page defines
    it, is taken to return. *)
Definition loadDashboardKPIsWithCache (r : response) (now : Z) (p : page)
    (rq : Requests.requests) : page * Requests.requests :=
  let '(rq1, controller) := Requests.fetchWithAbort "kpis" rq in
  let p1 := log (Requested "kpis" controller) p in
  (match r with
   | Json result =>
       if JS.nullish result then p1
       else if JS.truthy (JS.field result "success") then
         invoke (updateDashboardKPIs (JS.field result "kpis"))
                (store kpis (JS.field result "kpis") now p1)
       else p1
   | _ => p1
   end, rq1).

Definition loadDashboardChartsWithCache (r : response) (now : Z) (p : page)
    (rq : Requests.requests) : page * Requests.requests :=
  let '(rq1, controller) := Requests.fetchWithAbort "charts" rq in
  let p1 := log (Requested "charts" controller) p in
  (match r with
   | Json result =>
       if JS.nullish result then p1
       else if JS.truthy (JS.field result "success") then
         let p2 :=
           if JS.defined (JS.field result "can_view_materials")
           then invoke (canViewMaterials (JS.field result "can_view_materials")) p1
           else p1 in
         invoke (createDashboardChartsWithValidation (JS.field result "charts"))
                (store charts (JS.field result "charts") now p2)
       else p1
   | _ => p1
   end, rq1).

End CacheLoader.

(** ** Recovery from the cache *)

Module Recovery.
Import Cache Loader.

Inductive notice :=
| showWarningMessage (message : string)
| showError (message : string).

(** [clock type] is the reading of [Date.now()] inside
    [dashboardCache.get(type)].  The functions of the page are taken to
    return on what the recovery hands them. *)
Definition attemptCacheRecovery (clock : kind → Z) (p : page) : page * notice :=
  let cachedKpis := Cache.get kpis (clock kpis) (cache p) in
  let cachedCharts := Cache.get charts (clock charts) (cache p) in
  let cachedOperations := Cache.get operations (clock operations) (cache p) in
  let cachedFilterOptions := Cache.get filterOptions (clock filterOptions) (cache p) in
  let '(p1, n1) :=
    if JS.truthy cachedKpis
    then (invoke (updateDashboardKPIs cachedKpis) p, 1%nat) else (p, 0%nat) in
  let '(p2, n2) :=
    if JS.truthy cachedCharts
    then (invoke (createDashboardChartsWithValidation cachedCharts) p1, S n1)
    else (invoke createEmptyCharts p1, n1) in
  let '(p3, n3) :=
    if JS.truthy cachedOperations
    then (invoke (updateRecentOperationsTable cachedOperations) p2, S n2)
    else (invoke (updateRecentOperationsTable (JS.VArr [])) p2, n2) in
  let '(p4, recoveredComponents) :=
    if JS.truthy cachedFilterOptions
    then (invoke (populateFilterOptions cachedFilterOptions) p3, S n3)
    else (invoke (populateFilterOptions emptyFilterOptions) p3, n3) in
  (p4,
   if (0 <? recoveredComponents)%nat then
     showWarningMessage ("Dashboard carregado com dados em cache. " +:+
                         pretty recoveredComponents +:+
                         " componente(s) recuperado(s).")
   else showError "Não foi possível carregar os dados. Tente recarregar a página.").

End Recovery.

(** ** The operations handed to the table *)

Module Operations.

Section Update.
Context (h : Table.host).

(** [parseDate(v)]: [None] for [null], otherwise the time value of the
    date in milliseconds.  [parseDate] returns no invalid date: the date
    it builds from a [DD/MM/YYYY] match is valid, and it returns [null]
    for any other text whose date is invalid. *)
Context (parseDate : JS.value → option Z).

(** The comparator of the sort by [data_chegada]. *)
Definition by_arrival (a b : list (string * JS.value)) : JS.number :=
  match parseDate (JS.prop "data_chegada" a), parseDate (JS.prop "data_chegada" b) with
  | None, None => JS.of_Z 0
  | None, Some _ => JS.of_Z 1
  | Some _, None => JS.of_Z (-1)
  | Some dateA, Some dateB => JS.of_Z (dateB - dateA)
  end.

(** The body of [sortedOperations.forEach]: the record with its five memo
    properties assigned. *)
Definition memo (operation : list (string * JS.value)) : list (string * JS.value) :=
  let containerValues := Table.extractContainerValues h operation in
  let op1 :=
    ("__container_sort",
     JS.VStr (String.concat " | " (Table.text h <$> containerValues)))
    :: ("__container_values", JS.VArr containerValues) :: operation in
  let produtosSummary := Table.summarizeProdutos h op1 in
  ("__produtos_tooltip", JS.field produtosSummary "tooltip")
  :: ("__produtos_entries", JS.field produtosSummary "entries")
  :: ("__produtos_summary", produtosSummary) :: op1.

(** What [updateRecentOperationsTable] stores in
    [window.currentOperations] and hands to the table. *)
Definition sortedOperations (operations : list (list (string * JS.value)))
    : list (list (string * JS.value)) :=
  memo <$> ArraySort.sort by_arrival operations.

End Update.

End Operations.

(** ** The CNPJ shown in the process modal *)

Module Cnpj.

(** [\d] *)
Definition is_digit (a : ascii) : bool :=
  (48 <=? nat_of_ascii a)%nat && (nat_of_ascii a <=? 57)%nat.

(** [s.replace(/\D/g, '')] *)
Fixpoint digits (s : string) : string :=
  match s with
  | EmptyString => EmptyString
  | String a rest => if is_digit a then String a (digits rest) else digits rest
  end.

(** [formatCNPJ(cnpj)]; a value that is truthy and not a text has no
    [replace] to call. *)
Definition formatCNPJ (cnpj : JS.value) : Table.result JS.value :=
  if negb (JS.truthy cnpj) then Table.Ok (JS.VStr "-")
  else match cnpj with
       | JS.VStr s =>
           let cleanCNPJ := digits s in
           if (String.length cleanCNPJ =? 14)%nat then
             Table.Ok (JS.VStr (substring 0 2 cleanCNPJ +:+ "." +:+
                                substring 2 3 cleanCNPJ +:+ "." +:+
                                substring 5 3 cleanCNPJ +:+ "/" +:+
                                substring 8 4 cleanCNPJ +:+ "-" +:+
                                substring 12 2 cleanCNPJ))
           else Table.Ok cnpj
       | _ => Table.TypeError "cnpj.replace is not a function"
       end.

End Cnpj.

(** ** The pauses of a retry loader *)

Module Timing.
Import Loader.

(** The pauses a trace records, oldest first. *)
Definition pauses (t : list event) : list Z :=
  omap (λ e, match e with Slept ms => Some ms | _ => None end) t.

(** The pauses after the attempts [1], ..., [n]: one second more after
    each attempt. *)
Definition linear (n : nat) : list Z := (λ i, 1000 * Z.of_nat i) <$> seq 1 n.

(** A response the [try] block of [L] runs to its [return] on. *)
Definition accepted (L : retry_loader) (r : response) : Prop :=
  ∀ now p, (settle L r now p).2 = None.

(** A response on which the [try] block of [L] throws, be it at an
    await, at the test of the body or in a function of the page. *)
Definition failed (L : retry_loader) (r : response) : Prop :=
  ∀ now p, (settle L r now p).2 ≠ None.

Definition total (ms : list Z) : Z := foldr Z.add 0 ms.

End Timing.

(** ** A load that succeeds, then a load that fails *)

Module Fallback.
Import Cache Loader.

(** The retry loader [L] shows again what it loaded last: a run that
    succeeds at attempt [N] with the answer [result], then a run in which
    every attempt fails, the last of them less than the cache timeout after
    the answer was stored.  The functions of the page, which behave as
    [u], return when they are called with the value of the answer. *)
Definition shows_last_loaded (u : updaters) (L : retry_loader) (tested : string)
    (payload : JS.value → JS.value) (render : JS.value → call)
    (extra : JS.value → list call) : Prop :=
  ∀ (n1 N m : nat) (res1 res2 : resource) p rq result,
    (1 ≤ N ≤ n1)%nat →
    all_rejected L res1 (N - 1) →
    (res1 N).1 = Json result →
    JS.nullish result = false →
    JS.truthy (JS.field result "success") = true →
    JS.truthy (JS.field result tested) = true →
    (∀ c, c ∈ extra result → returns u c) →
    returns u (render (payload result)) →
    (1 ≤ m)%nat →
    all_rejected L res2 m →
    (res1 N).2 ≠ 0 →
    (res2 m).2 - (res1 N).2 < cacheTimeout →
    ∃ p1 rq1 p2 rq2,
      withRetry L n1 res1 p rq = (p1, rq1, Returned) ∧
      withRetry L m res2 p1 rq1 = (p2, rq2, Returned) ∧
      calls (trace p2) = calls (trace p1) ++ [render (payload result)].

End Fallback.

(** ** Inputs of the scenarios *)

Module Scenario.
Import Columns.

(** [[{id:'urf', visible:false, order:0}]] *)
Definition persisted_urf : option (list StoredColumn) :=
  Some [mkStored (JS.VStr "urf") (JS.VBool false) (JS.VNum (JS.of_Z 0))].

(** A stored configuration with an unknown id, a registry id stored
    twice, orders that are not numbers, that repeat and that are NaN, and
    most registry ids missing. *)
Definition stale_config : option (list StoredColumn) :=
  Some [mkStored (JS.VStr "urf") (JS.VBool false) (JS.VNum (JS.of_Z 0));
        mkStored (JS.VStr "removed_column") (JS.VBool true) (JS.VNum (JS.of_Z 3));
        mkStored (JS.VStr "acoes") (JS.VBool false) (JS.VStr "first");
        mkStored (JS.VStr "modal") JS.VUndefined (JS.VNum JS.NaN);
        mkStored (JS.VStr "modal") (JS.VNum (JS.of_Z 1)) (JS.VNum (JS.of_Z 3));
        mkStored (JS.VStr "status") (JS.VStr "yes") (JS.VNum (JS.of_Z 3))].

(** A host whose text functions change nothing. *)
Definition plain_host : Table.host :=
  Table.mkHost (λ _, "") (λ _, JS.NaN) (λ s, s) (λ s, s) String.length
               (λ _ s, s) (λ s, [s]) (λ _, "") (λ _, false) (λ _, "") (λ _ _, "")
               (λ _ _, "") (λ _, None) (λ _, ([], JS.of_Z 0)).

(** A page without [window.currentOperations]. *)
Definition bare_window : Table.window :=
  Table.mkWindow None None JS.VUndefined JS.VUndefined.

Definition some_kpis : JS.value :=
  JS.VObj [("processos_abertos", JS.VNum (JS.of_Z 12))].

Definition some_options : JS.value :=
  JS.VObj [("materiais", JS.VArr [JS.VStr "ACO"]); ("clientes", JS.VArr []);
           ("modais", JS.VArr []); ("canais", JS.VArr [])].

Definition kpis_response (v : JS.value) : Loader.response :=
  Loader.Json (JS.VObj [("success", JS.VBool true); ("kpis", v)]).

(** A resource that is offline, each attempt seen failing at [now]. *)
Definition offline (now : Z) : Loader.resource :=
  λ _, (Loader.FetchRejected (Loader.Rejection (JS.VStr "Failed to fetch")), now).

(** The body [{success: true, operations: [null]}]. *)
Definition null_operations : JS.value :=
  JS.VObj [("success", JS.VBool true); ("operations", JS.VArr [JS.VNull])].

(** A page whose table throws on an array of records that holds [null]
    ([a.data_chegada] in the comparator of the sort, [operation.x] in the
    loop that follows); its other functions return. *)
Definition strict_table : Loader.updaters :=
  λ _ c,
    match c with
    | Loader.updateRecentOperationsTable (JS.VArr elems) =>
        if existsb JS.nullish elems then Some Loader.TypeError else None
    | _ => None
    end.

(** A page whose cache got KPIs at clock 1000. *)
Definition page_with_kpis : Loader.page :=
  Loader.mkPage (Cache.set Cache.kpis some_kpis 1000 Cache.initial) [].

(** KPIs are loaded and cached, then a loader with a single attempt is
    called and its request is in flight. *)
Definition one_request_in_flight : EventLoop.world :=
  EventLoop.exec
    [EventLoop.Call (Loader.loadDashboardKPIs Loader.quiet) 1 1000;
     EventLoop.Response 0 (kpis_response some_kpis) 1005;
     EventLoop.Call (Loader.loadDashboardKPIs Loader.quiet) 1 2000]
    EventLoop.start.

(** A host whose JSON text of a configuration is always the same text,
    read back as the normal form of [persisted_urf]. *)
Definition urf_json : ColumnStore.json :=
  ColumnStore.mkJson
    (λ text, if String.eqb text "[urf]"
             then Some (JS.VArr (ColumnStore.object_of <$>
                                   normalizeColumnsConfig persisted_urf))
             else None)
    (λ _, "[urf]").

(** A page whose [localStorage] holds a text that is not JSON. *)
Definition broken_storage : ColumnStore.store :=
  ColumnStore.loaded JS.VUndefined
    {[ColumnStore.DASHBOARD_COLUMNS_STORAGE_KEY_DEFAULT := "{oops"]}.

(** The body [{success: true, data: [{ref_unique: 'UN-1'}]}]. *)
Definition one_record : JS.value :=
  JS.VObj [("success", JS.VBool true);
           ("data", JS.VArr [JS.VObj [("ref_unique", JS.VStr "UN-1")]])].

(** The body [{success: true, data: []}]. *)
Definition no_records : JS.value :=
  JS.VObj [("success", JS.VBool true); ("data", JS.VArr [])].

(** The base data: two empty answers, then one record. *)
Definition third_time_lucky : nat → Loader.response :=
  λ i, Loader.Json (if (i <? 3)%nat then no_records else one_record).

(** The body [{success: true}]: a success without data. *)
Definition bare_success : JS.value := JS.VObj [("success", JS.VBool true)].

(** A clock for [parseDate]: the day of the month of a [DD/MM/2026] text
    of January, as far as the examples need it. *)
Definition january (v : JS.value) : option Z :=
  match v with
  | JS.VStr "05/01/2026" => Some 5
  | JS.VStr "20/01/2026" => Some 20
  | _ => None
  end.

(** Three operations: one without arrival date, two with. *)
Definition three_operations : list (list (string * JS.value)) :=
  [[("ref_importador", JS.VStr "A")];
   [("ref_importador", JS.VStr "B"); ("data_chegada", JS.VStr "05/01/2026")];
   [("ref_importador", JS.VStr "C"); ("data_chegada", JS.VStr "20/01/2026")]].

End Scenario.

(* ================================================================== *)
(** * Properties *)
(* ================================================================== *)

(** ** Facts about the array sort *)

Section SortFacts.
Context {A : Type} (comparefn : A → A → JS.number).

Lemma insert_Permutation x l : ArraySort.insert comparefn x l ≡ₚ x :: l.
Proof.
  induction l as [|y l IH]; simpl; [done|].
  destruct (ArraySort.verdict_of (comparefn x y)); try done.
  rewrite IH. apply Permutation_swap.
Qed.

Lemma sort_Permutation l : ArraySort.sort comparefn l ≡ₚ l.
Proof.
  induction l as [|x l IH]; simpl; [done|].
  by rewrite insert_Permutation, IH.
Qed.

Lemma length_sort l : length (ArraySort.sort comparefn l) = length l.
Proof. apply Permutation_length, sort_Permutation. Qed.

(** When the comparator agrees with an integer key on the elements that
    satisfy [P], the sort orders those elements by key. *)
Section Keyed.
Context (key : A → Z) (P : A → Prop).
Hypothesis comparefn_key : ∀ a b, P a → P b →
  ArraySort.verdict_of (comparefn a b) =
  match key a ?= key b with
  | Lt => ArraySort.Before | Eq => ArraySort.Same | Gt => ArraySort.After
  end.

Let le_key (a b : A) : Prop := key a ≤ key b.
Let lt_key (a b : A) : Prop := key a < key b.

Lemma insert_sorted x l :
  P x → Forall P l → StronglySorted le_key l →
  StronglySorted le_key (ArraySort.insert comparefn x l).
Proof using comparefn_key.
  intros Hx HP Hs. induction Hs as [|y l Hs IH Hy]; simpl.
  { repeat constructor. }
  inversion_clear HP as [|?? Py Pl].
  rewrite comparefn_key by done.
  destruct (Z.compare_spec (key x) (key y)) as [E|E|E].
  - constructor; [by constructor|].
    constructor; [unfold le_key; lia|].
    eapply Forall_impl; [exact Hy|]. unfold le_key. intros; simpl in *; lia.
  - constructor; [by constructor|].
    constructor; [unfold le_key; lia|].
    eapply Forall_impl; [exact Hy|]. unfold le_key. intros; simpl in *; lia.
  - constructor; [by apply IH|].
    rewrite insert_Permutation. constructor; [unfold le_key; lia|done].
Qed.

Lemma sort_sorted l :
  Forall P l → StronglySorted le_key (ArraySort.sort comparefn l).
Proof using comparefn_key.
  induction l as [|x l IH]; simpl; intros HP; [constructor|].
  inversion_clear HP. apply insert_sorted; [done| |by apply IH].
  by rewrite sort_Permutation.
Qed.

Lemma lt_key_inj l x y :
  StronglySorted lt_key l → x ∈ l → y ∈ l → key x = key y → x = y.
Proof.
  induction 1 as [|z l Hs IH Hz]; [by inversion 1|].
  rewrite Forall_forall in Hz. unfold lt_key in Hz.
  intros Hx Hy E. inv Hx; inv Hy; auto.
  - match goal with H : _ ∈ l |- _ => apply Hz in H; lia end.
  - match goal with H : _ ∈ l |- _ => apply Hz in H; lia end.
Qed.

(** Sorting any arrangement of a list whose keys increase strictly
    gives back that list. *)
Lemma sort_unique l l0 :
  Forall P l0 → l ≡ₚ l0 → StronglySorted lt_key l0 →
  ArraySort.sort comparefn l = l0.
Proof using comparefn_key.
  intros HP Hperm Hs.
  apply (StronglySorted_unique_strong le_key).
  - intros x1 x2 H1 H2 Hle Hge.
    apply (lt_key_inj l0); [done| |done|unfold le_key in *; lia].
    by rewrite <- Hperm, <- (sort_Permutation l).
  - apply sort_sorted. by rewrite Hperm.
  - clear -Hs. induction Hs as [|z l0 Hs IH Hz]; constructor; [done|].
    eapply Forall_impl; [exact Hz|]. unfold lt_key, le_key. intros; simpl in *; lia.
  - by rewrite sort_Permutation.
Qed.
End Keyed.
End SortFacts.

(** ** Facts about the column configuration *)

Section ColumnFacts.
Import Columns.

#[local] Arguments AVAILABLE_COLUMNS : simpl never.
#[local] Arguments normalizeColumnsConfig : simpl never.

Lemma registry_ids_NoDup : NoDup (col_id <$> AVAILABLE_COLUMNS).
Proof. apply (bool_decide_unpack _). by vm_compute. Qed.

Lemma registry_length : length AVAILABLE_COLUMNS = 40%nat.
Proof. reflexivity. Qed.

Lemma NoDup_fmap_eq {A B} (f : A → B) (l : list A) x y :
  NoDup (f <$> l) → x ∈ l → y ∈ l → f x = f y → x = y.
Proof.
  induction l as [|z l IH]; simpl; [by inversion 2|].
  rewrite NoDup_cons. intros [Hz Hl] Hx Hy E.
  inv Hx; inv Hy; auto.
  - exfalso. apply Hz. rewrite E. by apply list_elem_of_fmap_2.
  - exfalso. apply Hz. rewrite <- E. by apply list_elem_of_fmap_2.
Qed.

Lemma normalize_unfold config :
  normalizeColumnsConfig config =
  renumber (ArraySort.sort by_order
              (resolve (configMap_of (default [] config)) <$> AVAILABLE_COLUMNS)).
Proof. reflexivity. Qed.

Lemma renumber_ids l : id <$> renumber l = id <$> l.
Proof.
  apply list_eq. intros i. unfold renumber.
  rewrite !list_lookup_fmap, list_lookup_imap. by destruct (l !! i).
Qed.

Lemma renumber_lookup l i c :
  renumber l !! i = Some c →
  ∃ c0, l !! i = Some c0 ∧ id c = id c0 ∧ visible c = visible c0 ∧
        order c = JS.of_nat i.
Proof.
  unfold renumber. rewrite list_lookup_imap.
  destruct (l !! i) as [c0|]; simpl; [|done].
  intros [= <-]. by exists c0.
Qed.

Lemma renumber_orders l :
  order <$> renumber l = JS.of_nat <$> seq 0 (length l).
Proof.
  unfold renumber. rewrite fmap_imap. simpl.
  rewrite <- (imap_seq_0 l JS.of_nat). done.
Qed.

Lemma normalize_ids config :
  id <$> normalizeColumnsConfig config ≡ₚ col_id <$> AVAILABLE_COLUMNS.
Proof.
  rewrite normalize_unfold, renumber_ids, sort_Permutation.
  rewrite <- list_fmap_compose. done.
Qed.

Lemma normalize_length config :
  length (normalizeColumnsConfig config) = length AVAILABLE_COLUMNS.
Proof.
  rewrite <- (length_fmap id), normalize_ids. by rewrite length_fmap.
Qed.

Lemma normalize_lookup_order config i c :
  normalizeColumnsConfig config !! i = Some c → order c = JS.of_nat i.
Proof.
  rewrite normalize_unfold. intros H.
  by apply renumber_lookup in H as (? & _ & _ & _ & ?).
Qed.

(** Every entry of the result is the resolution of one registry row, up to
    its [order]. *)
Lemma normalize_origin config c :
  c ∈ normalizeColumnsConfig config →
  ∃ col, col ∈ AVAILABLE_COLUMNS ∧ id c = col_id col ∧
         visible c = visible (resolve (configMap_of (default [] config)) col).
Proof.
  rewrite normalize_unfold. intros [i Hi]%list_elem_of_lookup_1.
  apply renumber_lookup in Hi as (c0 & Hc0 & Hid & Hvis & _).
  apply list_elem_of_lookup_2 in Hc0.
  rewrite sort_Permutation in Hc0.
  apply list_elem_of_fmap in Hc0 as (col & -> & Hcol).
  exists col. by rewrite Hid, Hvis.
Qed.

Lemma normalize_fixed config c col :
  c ∈ normalizeColumnsConfig config → col ∈ AVAILABLE_COLUMNS →
  id c = col_id col → col_fixed col = true → visible c = true.
Proof.
  intros Hc Hcol Hid Hfixed.
  apply normalize_origin in Hc as (col0 & Hcol0 & Hid0 & ->).
  assert (col0 = col) as ->.
  { apply (NoDup_fmap_eq col_id AVAILABLE_COLUMNS);
      [apply registry_ids_NoDup|done|done|congruence]. }
  simpl. by rewrite Hfixed.
Qed.

Lemma fmap_Permutation_inv {A B} (f : A → B) (l1 : list B) (l2 : list A) :
  l1 ≡ₚ f <$> l2 → ∃ l3, l1 = f <$> l3 ∧ l2 ≡ₚ l3.
Proof.
  assert (∀ l, map f l = f <$> l) as Hmap.
  { induction l; simpl; by f_equal. }
  rewrite <- Hmap. intros (l3 & -> & H)%Permutation_map_inv.
  exists l3. by rewrite Hmap.
Qed.

(** *** Normalizing a normalized configuration *)

Lemma by_order_key a b :
  whole a → whole b →
  ArraySort.verdict_of (by_order a b) =
  match key a ?= key b with
  | Lt => ArraySort.Before | Eq => ArraySort.Same | Gt => ArraySort.After
  end.
Proof.
  intros [x Hx] [y Hy]. unfold by_order, key. rewrite Hx, Hy. simpl.
  unfold Qcompare. simpl.
  replace ((x * 1 + - y * 1) * 1) with (x - y) by lia.
  by rewrite <- Z.compare_sub.
Qed.

Lemma configMap_of_snoc l item :
  configMap_of (l ++ [item]) =
  match st_id item with
  | JS.VStr k => <[k := item]> (configMap_of l)
  | _ => configMap_of l
  end.
Proof. unfold configMap_of. by rewrite foldl_snoc. Qed.

Lemma configMap_of_stored (l : list ColumnConfig) c :
  NoDup (id <$> l) → c ∈ l →
  configMap_of (stored <$> l) !! id c = Some (stored c).
Proof.
  induction l as [|x l IH] using rev_ind; [by inversion 2|].
  rewrite !fmap_app, NoDup_app. simpl. intros (Hl & Hx & _) Hc.
  rewrite configMap_of_snoc. simpl.
  apply elem_of_app in Hc as [Hc|Hc].
  - rewrite lookup_insert_ne; [by apply IH|].
    intros E. apply (Hx (id c)); [|rewrite E; by left].
    by apply list_elem_of_fmap_2.
  - apply list_elem_of_singleton in Hc as ->. by rewrite lookup_insert_eq.
Qed.

Lemma normalize_ids_NoDup config : NoDup (id <$> normalizeColumnsConfig config).
Proof. rewrite normalize_ids. apply registry_ids_NoDup. Qed.

(** Resolving a registry row against a normalized configuration returns
    the entry that configuration has for the row. *)
Lemma resolve_normalized config c col :
  c ∈ normalizeColumnsConfig config → col ∈ AVAILABLE_COLUMNS →
  col_id col = id c →
  resolve (configMap_of (stored <$> normalizeColumnsConfig config)) col = c.
Proof.
  intros Hc Hcol Hid. unfold resolve. rewrite Hid.
  rewrite (configMap_of_stored _ c (normalize_ids_NoDup config) Hc). simpl.
  destruct (col_fixed col) eqn:Hfixed.
  - rewrite <- (normalize_fixed config c col Hc Hcol (eq_sym Hid) Hfixed).
    by destruct c.
  - destruct c as [i v o]. simpl. by destruct v.
Qed.

Lemma resolve_normalized_fmap config (cols : list ColumnDefinition) l :
  Forall (λ c, c ∈ normalizeColumnsConfig config) l →
  Forall (λ col, col ∈ AVAILABLE_COLUMNS) cols →
  col_id <$> cols = id <$> l →
  resolve (configMap_of (stored <$> normalizeColumnsConfig config)) <$> cols = l.
Proof.
  revert l. induction cols as [|col cols IH]; intros [|c l] Hl Hcols E;
    try discriminate E; [reflexivity|].
  injection E as Hid Hrest.
  inversion_clear Hl. inversion_clear Hcols.
  rewrite fmap_cons. f_equal.
  - by apply resolve_normalized.
  - by apply IH.
Qed.

Lemma normalized_sorted config :
  StronglySorted (λ a b, key a < key b) (normalizeColumnsConfig config).
Proof.
  assert (∀ l n, (∀ i c, l !! i = Some c → order c = JS.of_nat (n + i)) →
                 StronglySorted (λ a b, key a < key b) l) as Hgen.
  { induction l as [|c l IH]; intros n H; constructor.
    - apply (IH (S n)). intros i c' Hi.
      rewrite (H (S i) c' Hi). f_equal. lia.
    - apply Forall_forall. intros c' [i Hi]%list_elem_of_lookup_1.
      unfold key. rewrite (H 0%nat c eq_refl), (H (S i) c' Hi). simpl. lia. }
  apply (Hgen _ 0%nat). intros i c Hi. by apply normalize_lookup_order in Hi.
Qed.

Lemma normalized_whole config : Forall whole (normalizeColumnsConfig config).
Proof.
  apply Forall_forall. intros c [i Hi]%list_elem_of_lookup_1.
  exists (Z.of_nat i). by apply normalize_lookup_order in Hi.
Qed.

Lemma renumber_normalized config :
  renumber (normalizeColumnsConfig config) = normalizeColumnsConfig config.
Proof.
  apply list_eq. intros i. unfold renumber at 1. rewrite list_lookup_imap.
  destruct (normalizeColumnsConfig config !! i) as [c|] eqn:Hi; [|done].
  simpl. rewrite <- (normalize_lookup_order config i c Hi). by destruct c.
Qed.

Lemma normalize_normalized config :
  normalizeColumnsConfig (Some (stored <$> normalizeColumnsConfig config)) =
  normalizeColumnsConfig config.
Proof.
  rewrite (normalize_unfold (Some _)).
  change (default [] (Some ?l)) with l.
  destruct (fmap_Permutation_inv _ _ _ (normalize_ids config))
    as (cols & Hcols & Hperm).
  pose proof (resolve_normalized_fmap config cols
                (normalizeColumnsConfig config)) as Hres.
  rewrite (sort_unique by_order key whole by_order_key _
             (normalizeColumnsConfig config)).
  - apply renumber_normalized.
  - apply normalized_whole.
  - etransitivity; [apply fmap_Permutation, Hperm|].
    rewrite Hres; [done|by apply Forall_forall| |by symmetry].
    apply Forall_forall. intros col Hcol. by rewrite Hperm.
  - apply normalized_sorted.
Qed.
End ColumnFacts.

(** ** Facts about the cache store *)

Section CacheFacts.
Import Cache.

Lemma slot_set_same type data now c : slot type (set type data now c) = data.
Proof. by destruct type. Qed.

Lemma slot_set_other type type' data now c :
  type ≠ type' → slot type (set type' data now c) = slot type c.
Proof. by destruct type, type'. Qed.

Lemma lastUpdate_set type data now c : lastUpdate (set type data now c) = Some now.
Proof. by destruct type. Qed.

Lemma isValid_set type data stamp now c :
  stamp ≠ 0 → now - stamp < cacheTimeout →
  isValid now (set type data stamp c) = true.
Proof.
  intros Hstamp Hage. unfold isValid. rewrite lastUpdate_set.
  apply andb_true_intro. split.
  - apply negb_true_iff, Z.eqb_neq, Hstamp.
  - by apply Z.ltb_lt.
Qed.

Lemma isValid_expired stamp now c :
  lastUpdate c = Some stamp → cacheTimeout ≤ now - stamp → isValid now c = false.
Proof.
  intros Hc Hage. unfold isValid. rewrite Hc.
  apply andb_false_intro2. apply Z.ltb_ge, Hage.
Qed.

Lemma get_valid type now c :
  isValid now c = true → JS.truthy (slot type c) = true →
  get type now c = slot type c.
Proof. intros Hv Ht. unfold get. by rewrite Hv, Ht. Qed.

Lemma get_invalid type now c : isValid now c = false → get type now c = JS.VNull.
Proof. intros Hv. unfold get. by rewrite Hv. Qed.

Lemma get_truthy_inv type now c :
  JS.truthy (get type now c) = true →
  isValid now c = true ∧ get type now c = slot type c.
Proof.
  unfold get. destruct (isValid now c); [|done].
  destruct (JS.truthy (slot type c)); done.
Qed.
End CacheFacts.


(** ** Facts about the retry loop *)

Section LoaderFacts.
Import Cache Loader.

Lemma attempts_app t1 t2 : attempts (t1 ++ t2) = (attempts t1 + attempts t2)%nat.
Proof. unfold attempts, requested. by rewrite omap_app, length_app. Qed.

Lemma calls_app t1 t2 : calls (t1 ++ t2) = calls t1 ++ calls t2.
Proof. unfold calls. by rewrite omap_app. Qed.

Lemma issue_page L p rq :
  (issue L p rq).1.1 = log (Requested (key L) (Requests.created rq)) p.
Proof. reflexivity. Qed.

Lemma loop_step L res maxRetries remaining attempt p rq :
  loop L res maxRetries (S remaining) attempt p rq =
  let p1 := log (Requested (key L) (Requests.created rq)) p in
  let rq1 := (Requests.fetchWithAbort (key L) rq).1 in
  match settle L (res attempt).1 (res attempt).2 p1 with
  | (p2, None) => (p2, rq1, Returned)
  | (p2, Some error) =>
      if (attempt =? maxRetries)%nat then
        (λ '(p3, o), (p3, rq1, o)) (exhausted L error (res attempt).2 p2)
      else loop L res maxRetries remaining (S attempt) (sleep attempt p2) rq1
  end.
Proof.
  simpl. unfold issue. simpl. destruct (res attempt) as [r now]. simpl.
  destruct (settle L r now _) as [p2 [error|]]; [|done].
  destruct (attempt =? maxRetries)%nat; [|done].
  by destruct (exhausted L error now p2).
Qed.

(** [k] rejected attempts in a row, none of them the last one allowed. *)
Lemma loop_rejected L res maxRetries k :
  ∀ remaining attempt p rq,
    (∀ i, (attempt ≤ i < attempt + k)%nat → ∃ e, rejects L (res i).1 e) →
    (attempt + k ≤ maxRetries)%nat →
    ∃ p' rq',
      loop L res maxRetries (k + remaining) attempt p rq =
      loop L res maxRetries remaining (attempt + k) p' rq' ∧
      cache p' = cache p ∧
      attempts (trace p') = (attempts (trace p) + k)%nat ∧
      calls (trace p') = calls (trace p).
Proof.
  induction k as [|k IH]; intros remaining attempt p rq Hrej Hle.
  { exists p, rq. rewrite Nat.add_0_r. repeat split; lia. }
  destruct (Hrej attempt) as [e He]; [lia|].
  change (S k + remaining)%nat with (S (k + remaining)).
  rewrite loop_step. cbv zeta. rewrite He.
  destruct (Nat.eqb_spec attempt maxRetries) as [->|_]; [lia|].
  edestruct (IH remaining (S attempt)) as (p' & rq' & Hloop & Hc & Ha & Hcalls);
    [|shelve|rewrite Hloop; exists p', rq'; split; [f_equal; lia|]].
  { intros i Hi. apply Hrej. lia. }
  rewrite Hc, Ha, Hcalls. unfold sleep, log. simpl.
  rewrite !attempts_app, !calls_app. simpl.
  repeat split; [|by rewrite !app_nil_r].
  unfold attempts at 2 3. simpl. lia.
  Unshelve. lia.
Qed.

(** [N - 1] rejected attempts, then an attempt whose [try] block runs to
    its [return]. *)
Lemma withRetry_accepted L res maxRetries N p rq :
  (1 ≤ N ≤ maxRetries)%nat →
  (∀ i, (1 ≤ i < N)%nat → ∃ e, rejects L (res i).1 e) →
  ∃ p1 rq1,
    cache p1 = cache p ∧
    attempts (trace p1) = (attempts (trace p) + N)%nat ∧
    calls (trace p1) = calls (trace p) ∧
    ∀ p2, settle L (res N).1 (res N).2 p1 = (p2, None) →
          withRetry L maxRetries res p rq = (p2, rq1, Returned).
Proof.
  intros HN Hrej. unfold withRetry.
  destruct (loop_rejected L res maxRetries (N - 1) (S (maxRetries - N)) 1%nat p rq)
    as (p' & rq' & Hloop & Hc & Ha & Hcalls).
  { intros i Hi. apply Hrej. lia. }
  { lia. }
  replace (N - 1 + S (maxRetries - N))%nat with maxRetries in Hloop by lia.
  replace (1 + (N - 1))%nat with N in Hloop by lia.
  exists (log (Requested (key L) (Requests.created rq')) p'),
         (Requests.fetchWithAbort (key L) rq').1.
  split; [exact Hc|]. unfold log at 1 2. simpl trace.
  rewrite attempts_app, calls_app, Ha, Hcalls.
  split; [change (attempts [Requested ?k ?c]) with 1%nat; lia|].
  split; [apply app_nil_r|].
  intros p2 Hp2. rewrite Hloop, loop_step. cbv zeta. by rewrite Hp2.
Qed.

(** Every attempt rejected: the [catch] block of the last one decides. *)
Lemma withRetry_exhausted L res maxRetries p rq :
  (1 ≤ maxRetries)%nat →
  (∀ i, (1 ≤ i ≤ maxRetries)%nat → ∃ e, rejects L (res i).1 e) →
  ∃ p1 rq1 e,
    cache p1 = cache p ∧
    attempts (trace p1) = (attempts (trace p) + maxRetries)%nat ∧
    calls (trace p1) = calls (trace p) ∧
    rejects L (res maxRetries).1 e ∧
    withRetry L maxRetries res p rq =
    ((exhausted L e (res maxRetries).2 p1).1, rq1,
     (exhausted L e (res maxRetries).2 p1).2).
Proof.
  intros HN Hrej. unfold withRetry.
  destruct (loop_rejected L res maxRetries (maxRetries - 1) 1%nat 1%nat p rq)
    as (p' & rq' & Hloop & Hc & Ha & Hcalls).
  { intros i Hi. apply Hrej. lia. }
  { lia. }
  replace (maxRetries - 1 + 1)%nat with maxRetries in Hloop by lia.
  replace (1 + (maxRetries - 1))%nat with maxRetries in Hloop by lia.
  destruct (Hrej maxRetries) as [e He]; [lia|].
  exists (log (Requested (key L) (Requests.created rq')) p'),
         (Requests.fetchWithAbort (key L) rq').1, e.
  split; [exact Hc|]. unfold log at 1 2. simpl trace.
  rewrite attempts_app, calls_app, Ha, Hcalls.
  split; [change (attempts [Requested ?k ?c]) with 1%nat; lia|].
  split; [apply app_nil_r|]. split; [exact He|].
  rewrite Hloop, loop_step. cbv zeta. rewrite He, Nat.eqb_refl.
  by destruct (exhausted L e _ _).
Qed.

Lemma attempts_log_call c p : attempts (trace (invoke c p)) = attempts (trace p).
Proof.
  unfold invoke, log. simpl. rewrite attempts_app.
  change (attempts [Called c]) with 0%nat. lia.
Qed.

Lemma calls_log_call c p : calls (trace (invoke c p)) = calls (trace p) ++ [c].
Proof. unfold invoke, log. simpl. by rewrite calls_app. Qed.

(** The contract of a loader follows from what its two blocks do. *)
Section ContractFacts.
Context (u : updaters) (L : retry_loader) (type : kind) (tested : string)
        (payload : JS.value → JS.value) (render : JS.value → call)
        (extra : JS.value → list call) (empty : list call).

Hypothesis body_accepts : ∀ result now p,
  JS.nullish result = false →
  JS.truthy (JS.field result "success") = true →
  JS.truthy (JS.field result tested) = true →
  (∀ c, c ∈ extra result → returns u c) →
  returns u (render (payload result)) →
  ∃ p', attempt_body L result now p = (p', None) ∧
        attempts (trace p') = attempts (trace p) ∧
        calls (trace p') = calls (trace p) ++ extra result ++ [render (payload result)] ∧
        Cache.slot type (cache p') = payload result ∧
        Cache.lastUpdate (cache p') = Some now.

Hypothesis exhausted_cached : ∀ e now p,
  JS.truthy (Cache.get type now (cache p)) = true →
  returns u (render (Cache.get type now (cache p))) →
  exhausted L e now p =
  (invoke (render (Cache.get type now (cache p))) p, Returned).

Hypothesis exhausted_empty : ∀ e now p,
  Cache.get type now (cache p) = JS.VNull →
  (∀ c, c ∈ empty → returns u c) →
  ∃ p', exhausted L e now p = (p', Threw e) ∧
        attempts (trace p') = attempts (trace p) ∧
        calls (trace p') = calls (trace p) ++ empty ∧
        cache p' = cache p.

Lemma contract_success : succeeds_at_attempt u L type tested payload render extra.
Proof using body_accepts.
  intros maxRetries N res p rq result HN Hrej Hres Hnull Hsucc Htested Hextra Hrender.
  destruct (withRetry_accepted L res maxRetries N p rq HN)
    as (p1 & rq1 & Hc & Ha & Hcalls & Hrun).
  { intros i Hi. apply Hrej. lia. }
  destruct (body_accepts result (res N).2 p1 Hnull Hsucc Htested Hextra Hrender)
    as (p' & Hbody & Ha' & Hcalls' & Hslot & Hstamp).
  exists p', rq1. split; [|by rewrite Ha', Ha, Hcalls', Hcalls].
  apply Hrun. unfold settle. by rewrite Hres.
Qed.

Lemma contract_cached : falls_back_to_cache u L type render.
Proof using exhausted_cached.
  intros maxRetries res p rq Hmax Hrej Hslot Hvalid Hrender.
  destruct (withRetry_exhausted L res maxRetries p rq Hmax Hrej)
    as (p1 & rq1 & e & Hc & Ha & Hcalls & _ & Hrun).
  assert (Cache.get type (res maxRetries).2 (cache p1) = Cache.slot type (cache p))
    as Hget by (rewrite Hc; by apply get_valid).
  rewrite exhausted_cached in Hrun by (by rewrite Hget).
  exists (invoke (render (Cache.get type (res maxRetries).2 (cache p1))) p1), rq1.
  split; [exact Hrun|].
  by rewrite attempts_log_call, calls_log_call, Ha, Hcalls, Hget.
Qed.

Lemma contract_empty : falls_back_to_empty u L type empty.
Proof using exhausted_empty.
  intros maxRetries res p rq Hmax Hrej Hget Hempty.
  destruct (withRetry_exhausted L res maxRetries p rq Hmax Hrej)
    as (p1 & rq1 & e & Hc & Ha & Hcalls & He & Hrun).
  destruct (exhausted_empty e (res maxRetries).2 p1) as (p' & Hx & Ha' & Hcalls' & Hc').
  { by rewrite Hc. }
  { exact Hempty. }
  rewrite Hx in Hrun. exists p', rq1, e.
  split; [exact Hrun|]. split; [exact He|].
  by rewrite Ha', Ha, Hcalls', Hcalls, Hc', Hc.
Qed.
End ContractFacts.

Lemma call_into_returns u c p : returns u c → call_into u c p = (invoke c p, None).
Proof. intros Hc. unfold call_into. by rewrite Hc. Qed.

Ltac accept_body :=
  intros result now p Hnull Hsucc Htested _ Hrender;
  cbn [attempt_body loadDashboardKPIs loadRecentOperations loadFilterOptions];
  rewrite Hnull, Hsucc, Htested; cbn [andb];
  rewrite call_into_returns by exact Hrender;
  eexists; split; [reflexivity|];
  rewrite ?attempts_log_call, ?calls_log_call; simpl;
  rewrite ?slot_set_same, ?lastUpdate_set; done.

Ltac exhaust_cached :=
  intros e now p Hget Hrender;
  cbn [exhausted loadDashboardKPIs loadDashboardCharts loadRecentOperations
       loadFilterOptions];
  rewrite Hget; by rewrite call_into_returns by exact Hrender.

Ltac exhaust_empty :=
  intros e now p Hget Hempty;
  cbn [exhausted loadDashboardKPIs loadDashboardCharts loadRecentOperations
       loadFilterOptions];
  rewrite Hget; cbn [JS.truthy];
  try rewrite call_into_returns by (apply Hempty; by left); cbn [and_then];
  eexists; split; [reflexivity|];
  rewrite ?attempts_log_call, ?calls_log_call, ?app_nil_r; done.

Lemma loadDashboardKPIs_contract u :
  succeeds_at_attempt u (loadDashboardKPIs u) kpis "kpis"
    (λ result, JS.field result "kpis") updateDashboardKPIs (λ _, []) ∧
  falls_back_to_cache u (loadDashboardKPIs u) kpis updateDashboardKPIs ∧
  falls_back_to_empty u (loadDashboardKPIs u) kpis [].
Proof.
  split; [|split].
  - apply contract_success. accept_body.
  - apply contract_cached. exhaust_cached.
  - apply contract_empty. exhaust_empty.
Qed.

Lemma loadDashboardCharts_contract u :
  succeeds_at_attempt u (loadDashboardCharts u) charts "charts"
    (λ result, JS.field result "charts")
    createDashboardChartsWithValidation material_permission ∧
  falls_back_to_cache u (loadDashboardCharts u) charts
    createDashboardChartsWithValidation ∧
  falls_back_to_empty u (loadDashboardCharts u) charts [createEmptyCharts].
Proof.
  split; [|split].
  - apply contract_success.
    intros result now p Hnull Hsucc Htested Hextra Hrender.
    cbn [attempt_body loadDashboardCharts].
    rewrite Hnull, Hsucc, Htested. cbn [andb]. unfold material_permission in *.
    destruct (JS.defined (JS.field result "can_view_materials")).
    + rewrite call_into_returns by (apply Hextra; by left).
      rewrite call_into_returns by exact Hrender.
      eexists. split; [reflexivity|].
      rewrite !attempts_log_call, !calls_log_call. simpl.
      rewrite attempts_app, calls_app, <- app_assoc.
      change (attempts [Called ?c]) with 0%nat. rewrite Nat.add_0_r. done.
    + rewrite call_into_returns by exact Hrender.
      eexists. split; [reflexivity|].
      rewrite !attempts_log_call, !calls_log_call. done.
  - apply contract_cached. exhaust_cached.
  - apply contract_empty. exhaust_empty.
Qed.

Lemma loadRecentOperations_contract u :
  succeeds_at_attempt u (loadRecentOperations u) operations "operations"
    operationsToUse updateRecentOperationsTable (λ _, []) ∧
  falls_back_to_cache u (loadRecentOperations u) operations
    updateRecentOperationsTable ∧
  falls_back_to_empty u (loadRecentOperations u) operations
    [updateRecentOperationsTable (JS.VArr [])].
Proof.
  split; [|split].
  - apply contract_success. accept_body.
  - apply contract_cached. exhaust_cached.
  - apply contract_empty. exhaust_empty.
Qed.

Lemma loadFilterOptions_contract u :
  succeeds_at_attempt u (loadFilterOptions u) filterOptions "options"
    (λ result, JS.field result "options") populateFilterOptions (λ _, []) ∧
  falls_back_to_cache u (loadFilterOptions u) filterOptions populateFilterOptions ∧
  falls_back_to_empty u (loadFilterOptions u) filterOptions
    [populateFilterOptions emptyFilterOptions].
Proof.
  split; [|split].
  - apply contract_success. accept_body.
  - apply contract_cached. exhaust_cached.
  - apply contract_empty. exhaust_empty.
Qed.

(** Which responses a loader rejects: a rejected [fetch] or [json()], a
    body that is [null], and a body without a truthy [success] and
    payload. *)
Lemma rejects_rejected L e : rejects L (FetchRejected e) e ∧ rejects L (JsonRejected e) e.
Proof. by split. Qed.

Lemma loadDashboardKPIs_rejects u result :
  JS.nullish result = true ∨
  JS.truthy (JS.field result "success") && JS.truthy (JS.field result "kpis") = false →
  ∃ e, rejects (loadDashboardKPIs u) (Json result) e.
Proof.
  intros [H|H].
  - exists TypeError. intros now p. simpl. by rewrite H.
  - destruct (JS.nullish result) eqn:Hnull.
    + exists TypeError. intros now p. simpl. by rewrite Hnull.
    + eexists. intros now p. simpl. by rewrite Hnull, H.
Qed.
End LoaderFacts.


(** ** Facts about loaders running side by side *)

Section EventLoopFacts.
Import Loader EventLoop.

Lemma elem_of_awaiting_from i c ts tid :
  tid ∈ awaiting_from i c ts ↔
  ∃ j t, tid = (i + j)%nat ∧ ts !! j = Some t ∧ is_awaiting c t = true.
Proof.
  revert i. induction ts as [|t ts IH]; intros i; simpl.
  { split; [by inversion 1|]. by intros (j & t & _ & ? & _). }
  destruct (is_awaiting c t) eqn:E.
  - rewrite elem_of_cons, IH. split.
    + intros [->|(j & t' & -> & Hj & Ht')].
      * exists 0%nat, t. split; [lia|done].
      * exists (S j), t'. split; [lia|done].
    + intros (j & t' & -> & Hj & Ht'). destruct j as [|j]; simpl in Hj.
      * left. lia.
      * right. exists j, t'. split; [lia|done].
  - rewrite IH. split.
    + intros (j & t' & -> & Hj & Ht'). exists (S j), t'. split; [lia|done].
    + intros (j & t' & -> & Hj & Ht'). destruct j as [|j]; simpl in Hj.
      * congruence.
      * exists j, t'. split; [lia|done].
Qed.

Lemma is_awaiting_true c t : is_awaiting c t = true ↔ state t = Awaiting c.
Proof.
  unfold is_awaiting. destruct (state t) as [c'| |o]; try (split; congruence).
  rewrite Nat.eqb_eq. split; congruence.
Qed.

Lemma elem_of_awaiting c ts tid :
  tid ∈ awaiting c ts ↔ ∃ t, ts !! tid = Some t ∧ state t = Awaiting c.
Proof.
  unfold awaiting. rewrite elem_of_awaiting_from. split.
  - intros (j & t & -> & Hj & Ht). exists t. by rewrite <- is_awaiting_true.
  - intros (t & Hj & Ht). exists tid, t. by rewrite is_awaiting_true.
Qed.

Lemma awaiting_nil c ts :
  (∀ tid t, ts !! tid = Some t → state t ≠ Awaiting c) → awaiting c ts = [].
Proof.
  intros H. destruct (awaiting c ts) as [|tid l] eqn:E; [done|].
  assert (tid ∈ awaiting c ts) as Hin by (rewrite E; left).
  apply elem_of_awaiting in Hin as (t & Ht & Hs). by destruct (H tid t).
Qed.

Lemma awaiting_from_singleton i c ts tid t :
  ts !! tid = Some t → state t = Awaiting c →
  (∀ tid' t', ts !! tid' = Some t' → state t' = Awaiting c → tid' = tid) →
  awaiting_from i c ts = [(i + tid)%nat].
Proof.
  revert i tid. induction ts as [|t0 ts IH]; intros i tid Ht Hs Huniq; [done|].
  simpl. destruct tid as [|tid]; simpl in Ht.
  - injection Ht as ->. rewrite (proj2 (is_awaiting_true c t) Hs).
    rewrite Nat.add_0_r. f_equal.
    destruct (awaiting_from (S i) c ts) as [|x l] eqn:E; [done|].
    assert (x ∈ awaiting_from (S i) c ts) as Hin by (rewrite E; left).
    apply elem_of_awaiting_from in Hin as (j & t' & _ & Hj & Ht').
    apply is_awaiting_true in Ht'. by specialize (Huniq (S j) t' Hj Ht').
  - destruct (is_awaiting c t0) eqn:E.
    + apply is_awaiting_true in E. by specialize (Huniq 0%nat t0 eq_refl E).
    + rewrite (IH (S i) tid Ht Hs); [f_equal; lia|].
      intros tid' t' H1 H2. specialize (Huniq (S tid') t' H1 H2). lia.
Qed.

Lemma awaiting_singleton c ts tid t :
  ts !! tid = Some t → state t = Awaiting c →
  (∀ tid' t', ts !! tid' = Some t' → state t' = Awaiting c → tid' = tid) →
  awaiting c ts = [tid].
Proof. intros. unfold awaiting. by erewrite awaiting_from_singleton. Qed.

Lemma quieter_refl w : quieter w w.
Proof. by split. Qed.

Lemma quieter_trans w1 w2 w3 : quieter w1 w2 → quieter w2 w3 → quieter w1 w3.
Proof.
  intros [Hr1 H1] [Hr2 H2]. split; [congruence|].
  intros j t c H3 Hc. eapply H1; [|exact Hc]. by eapply H2.
Qed.

Lemma quieter_consistent w w' : consistent w → quieter w w' → consistent w'.
Proof.
  intros [I1 I2 I3 I4] [Hr Hq]. split; rewrite ?Hr; [|done|done|].
  - intros tid t c Ht Hs. apply (I1 tid); [|done]. by eapply Hq.
  - intros tid1 tid2 t1 t2 c H1 H2 Hs1 Hs2.
    apply (I4 tid1 tid2 t1 t2 c); try done; by eapply Hq.
Qed.

(** Putting a task that does not await into slot [tid]. *)
Lemma quieter_insert w p tid t :
  (∀ c, state t ≠ Awaiting c) →
  quieter w (mkWorld p (requests w) (<[tid := t]> (tasks w))).
Proof.
  intros Hs. split; [done|]. simpl. intros j t' c Hj Hc.
  destruct (decide (j = tid)) as [->|Hne].
  - apply list_lookup_insert_Some in Hj as [(_ & <- & Hlt)|[? _]]; [|done].
    by destruct (Hs c).
  - by rewrite list_lookup_insert_ne in Hj.
Qed.

(** Adding a task that does not await. *)
Lemma quieter_app w p t :
  (∀ c, state t ≠ Awaiting c) →
  quieter w (mkWorld p (requests w) (tasks w ++ [t])).
Proof.
  intros Hs. split; [done|]. simpl. intros j t' c Hj Hc.
  apply lookup_app_Some in Hj as [Hj|[_ Hj]]; [done|].
  apply list_lookup_singleton_Some in Hj as [_ <-]. by destruct (Hs c).
Qed.

Lemma fail_quieter tid e now w : quieter w (fail tid e now w).
Proof.
  unfold fail. destruct (tasks w !! tid) as [t|] eqn:Ht; [|apply quieter_refl].
  destruct (attempt t =? maxRetries t)%nat.
  - destruct (exhausted (loader t) e now (page w)) as [p o].
    by apply quieter_insert.
  - by apply quieter_insert.
Qed.

Lemma fail_settled tid e now w t' c :
  tasks (fail tid e now w) !! tid = Some t' → state t' ≠ Awaiting c.
Proof.
  unfold fail. destruct (tasks w !! tid) as [t|] eqn:Ht; [|congruence].
  assert (tid < length (tasks w))%nat as Hlt by (by eapply lookup_lt_Some).
  destruct (attempt t =? maxRetries t)%nat.
  - destruct (exhausted (loader t) e now (page w)) as [p o]. simpl.
    rewrite list_lookup_insert_eq by done. by intros [= <-].
  - simpl. rewrite list_lookup_insert_eq by done. by intros [= <-].
Qed.

Lemma abort_all_quieter victims now w : quieter w (abort_all victims now w).
Proof.
  revert w. induction victims as [|v vs IH]; intros w; [apply quieter_refl|].
  simpl. eapply quieter_trans; [apply fail_quieter|apply IH].
Qed.

Lemma abort_all_settled victims now w j t' c :
  j ∈ victims → tasks (abort_all victims now w) !! j = Some t' →
  state t' ≠ Awaiting c.
Proof.
  revert w. induction victims as [|v vs IH]; intros w Hj Ht'; [by inversion Hj|].
  simpl in Ht'. destruct (decide (j ∈ vs)) as [Hin|Hnin]; [by eapply IH|].
  assert (j = v) as -> by (by inv Hj).
  destruct (abort_all_quieter vs now (fail v AbortError now w)) as [_ Hq].
  intros Hc. eapply fail_settled; [|exact Hc]. by eapply Hq.
Qed.

(** The tasks that still await once [tid] has issued its request. *)
Lemma begin_awaiting tid now w t :
  consistent w → tasks w !! tid = Some t → (∀ c, state t ≠ Awaiting c) →
  (attempt t ≤ maxRetries t)%nat →
  requests (begin tid now w) =
    (Requests.fetchWithAbort (key (loader t)) (requests w)).1 ∧
  ∀ j t' c, tasks (begin tid now w) !! j = Some t' → state t' = Awaiting c →
    (j = tid ∧ c = Requests.created (requests w) ∧ loader t' = loader t) ∨
    (j ≠ tid ∧ tasks w !! j = Some t' ∧ key (loader t') ≠ key (loader t)).
Proof.
  intros Hw Ht Hs Hle. unfold begin. rewrite Ht.
  rewrite (proj2 (Nat.leb_le _ _) Hle). unfold issue. simpl.
  set (w1 := mkWorld _ _ _).
  set (final := match _ with Some c => abort_all _ now w1 | None => w1 end).
  assert (quieter w1 final) as [Hr Hq].
  { subst final. destruct (_ !! key (loader t));
      [apply abort_all_quieter|apply quieter_refl]. }
  split; [by rewrite Hr|].
  intros j t' c Hj Hc. pose proof (Hq j t' c Hj Hc) as Ht1.
  subst w1. simpl in Ht1.
  destruct (decide (j = tid)) as [->|Hne].
  - left. apply list_lookup_insert_Some in Ht1 as [(_ & <- & _)|[? _]]; [|done].
    simpl in Hc. injection Hc as <-. done.
  - right. rewrite list_lookup_insert_ne in Ht1 by done.
    split; [done|]. split; [done|]. intros Hkey.
    pose proof (awaited_current w Hw j t' c Ht1 Hc) as Hcur.
    rewrite Hkey in Hcur. subst final. rewrite Hcur in Hj.
    eapply (abort_all_settled _ _ _ j t' c); [|exact Hj|exact Hc].
    apply elem_of_awaiting. by exists t'.
Qed.

Lemma begin_consistent tid now w t :
  consistent w → tasks w !! tid = Some t → (∀ c, state t ≠ Awaiting c) →
  consistent (begin tid now w).
Proof.
  intros Hw Ht Hs.
  destruct (Nat.leb_spec (attempt t) (maxRetries t)) as [Hle|Hgt]; cycle 1.
  { unfold begin. rewrite Ht. rewrite (proj2 (Nat.leb_gt _ _) Hgt).
    eapply quieter_consistent; [exact Hw|]. by apply quieter_insert. }
  destruct (begin_awaiting tid now w t Hw Ht Hs Hle) as [Hr Haw].
  pose proof Hw as [I1 I2 I3 I4].
  split; rewrite ?Hr; simpl.
  - intros j t' c Hj Hc.
    destruct (Haw j t' c Hj Hc) as [(-> & -> & ->)|(Hne & Hold & Hkey)].
    + apply lookup_insert_eq.
    + rewrite lookup_insert_ne by done. by eapply I1.
  - intros k c Hk. apply lookup_insert_Some in Hk as [[_ <-]|[_ Hk]]; [lia|].
    apply I2 in Hk. lia.
  - intros k1 k2 c H1 H2.
    apply lookup_insert_Some in H1 as [[<- <-]|[Hne1 H1]];
      apply lookup_insert_Some in H2 as [[<- E]|[Hne2 H2]]; try done.
    + apply I2 in H2. lia.
    + apply I2 in H1. lia.
    + by eapply I3.
  - intros j1 j2 t1 t2 c H1 H2 Hc1 Hc2.
    destruct (Haw j1 t1 c H1 Hc1) as [(E1 & Ec1 & _)|(_ & Hold1 & _)];
      destruct (Haw j2 t2 c H2 Hc2) as [(E2 & Ec2 & _)|(_ & Hold2 & _)].
    + congruence.
    + apply (I1 j2 t2 _ Hold2), I2 in Hc2. lia.
    + apply (I1 j1 t1 _ Hold1), I2 in Hc1. lia.
    + by eapply I4.
Qed.

Lemma start_consistent : consistent start.
Proof. split; simpl; intros; by simplify_map_eq. Qed.

Lemma step_consistent i w : consistent w → consistent (step i w).
Proof.
  intros Hw. destruct i as [L n now|c r now|tid now]; simpl.
  - eapply (begin_consistent _ _ _ (mkTask L n 1 Sleeping)).
    + eapply quieter_consistent; [exact Hw|]. by apply quieter_app.
    + simpl. by rewrite lookup_app_r, Nat.sub_diag.
    + done.
  - destruct (awaiting c (tasks w)) as [|tid ?]; [done|].
    destruct (tasks w !! tid) as [t|] eqn:Ht; [|done].
    destruct (settle (loader t) r now (page w)) as [p [error|]].
    + eapply quieter_consistent; [|apply fail_quieter].
      eapply quieter_consistent; [exact Hw|]. by split.
    + eapply quieter_consistent; [exact Hw|]. by apply quieter_insert.
  - destruct (tasks w !! tid) as [t|] eqn:Ht; [|done].
    destruct (state t) eqn:Hs; try done.
    assert (tid < length (tasks w))%nat as Hlt by (by eapply lookup_lt_Some).
    eapply (begin_consistent _ _ _ (mkTask _ _ _ Sleeping)).
    + eapply quieter_consistent; [exact Hw|]. by apply quieter_insert.
    + simpl. by apply list_lookup_insert_eq.
    + done.
Qed.

Lemma exec_app inputs1 inputs2 w :
  exec (inputs1 ++ inputs2) w = exec inputs2 (exec inputs1 w).
Proof. apply foldl_app. Qed.

Lemma exec_consistent inputs w : consistent w → consistent (exec inputs w).
Proof.
  revert w. induction inputs as [|i inputs IH]; intros w Hw; [done|].
  simpl. apply IH. by apply step_consistent.
Qed.

Lemma reachable_consistent w : reachable w → consistent w.
Proof. intros [inputs ->]. apply exec_consistent, start_consistent. Qed.

Lemma reachable_exec inputs w : reachable w → reachable (exec inputs w).
Proof. intros [inputs0 ->]. exists (inputs0 ++ inputs). by rewrite exec_app. Qed.

(** *** Replaced requests *)

Lemma abort_all_requests victims now w :
  requests (abort_all victims now w) = requests w.
Proof. by destruct (abort_all_quieter victims now w). Qed.

Lemma begin_requests tid now w :
  requests (begin tid now w) = requests w ∨
  ∃ k, requests (begin tid now w) = (Requests.fetchWithAbort k (requests w)).1.
Proof.
  unfold begin. destruct (tasks w !! tid) as [t|]; [|by left].
  destruct (attempt t <=? maxRetries t)%nat; [|by left].
  right. exists (key (loader t)). unfold issue. simpl.
  destruct (_ !! key (loader t)); [|done]. by rewrite abort_all_requests.
Qed.

Lemma step_requests i w :
  requests (step i w) = requests w ∨
  ∃ k, requests (step i w) = (Requests.fetchWithAbort k (requests w)).1.
Proof.
  destruct i as [L n now|c r now|tid now]; simpl.
  - apply (begin_requests _ _ (mkWorld _ _ _)).
  - left. destruct (awaiting c (tasks w)) as [|tid ?]; [done|].
    destruct (tasks w !! tid) as [t|]; [|done].
    destruct (settle (loader t) r now (page w)) as [p [error|]]; [|done].
    by destruct (fail_quieter tid error now (mkWorld p (requests w) (tasks w))).
  - destruct (tasks w !! tid) as [t|]; [|by left].
    destruct (state t); try by left.
    apply (begin_requests _ _ (mkWorld _ _ _)).
Qed.

Lemma superseded_step c i w : superseded c w → superseded c (step i w).
Proof.
  intros [Hlt Hnot]. unfold superseded.
  destruct (step_requests i w) as [->|[k ->]]; [done|].
  split; simpl; [lia|]. intros k' Hk'.
  apply lookup_insert_Some in Hk' as [[_ E]|[_ Hk']]; [lia|by eapply Hnot].
Qed.

Lemma superseded_exec c inputs w : superseded c w → superseded c (exec inputs w).
Proof.
  revert w. induction inputs as [|i inputs IH]; intros w Hw; [done|].
  simpl. by apply IH, superseded_step.
Qed.

Lemma superseded_not_awaited c w :
  consistent w → superseded c w → awaiting c (tasks w) = [].
Proof.
  intros Hw [_ Hnot]. apply awaiting_nil. intros tid t Ht Hs.
  by apply (Hnot (key (loader t))), (awaited_current w Hw tid).
Qed.

Lemma response_not_awaited c r now w :
  awaiting c (tasks w) = [] → step (Response c r now) w = w.
Proof. intros H. simpl. by rewrite H. Qed.

(** The world right after a call of [L] has issued its first request,
    before the replaced request is rejected. *)
Lemma call_issued L n now w :
  (1 ≤ n)%nat →
  step (Call L n now) w =
  let issued :=
    mkWorld (log (Requested (key L) (Requests.created (requests w))) (page w))
            (Requests.fetchWithAbort (key L) (requests w)).1
            (tasks w ++ [mkTask L n 1 (Awaiting (Requests.created (requests w)))]) in
  match Requests.requestControllers (requests w) !! key L with
  | Some c => abort_all (awaiting c (tasks w ++ [mkTask L n 1 Sleeping])) now issued
  | None => issued
  end.
Proof.
  intros Hn. simpl. unfold begin. simpl.
  rewrite lookup_app_r, Nat.sub_diag by done. simpl.
  destruct n as [|n]; [lia|]. simpl. unfold issue. simpl.
  assert (<[length (tasks w) := set_state (Awaiting (Requests.created (requests w)))
                                  (mkTask L (S n) 1 Sleeping)]>
            (tasks w ++ [mkTask L (S n) 1 Sleeping]) =
          tasks w ++ [mkTask L (S n) 1 (Awaiting (Requests.created (requests w)))])
    as ->; [|done].
  rewrite insert_app_r_alt, Nat.sub_diag by done. done.
Qed.

Lemma call_requests L n now w :
  (1 ≤ n)%nat →
  requests (step (Call L n now) w) =
  (Requests.fetchWithAbort (key L) (requests w)).1.
Proof.
  intros Hn. rewrite call_issued by done. cbv zeta.
  destruct (_ !! key L); [|done]. by rewrite abort_all_requests.
Qed.

(** A call for a key aborts the key's current request and replaces it. *)
Lemma call_supersedes L n now w c :
  consistent w → (1 ≤ n)%nat →
  Requests.requestControllers (requests w) !! key L = Some c →
  c ∈ Requests.aborted (requests (step (Call L n now) w)) ∧
  superseded c (step (Call L n now) w).
Proof.
  intros Hw Hn Hc. unfold superseded. rewrite call_requests by done.
  unfold Requests.fetchWithAbort.
  cbn [fst Requests.aborted Requests.created Requests.requestControllers].
  rewrite Hc.
  split; [set_solver|]. pose proof (current_created w Hw _ _ Hc) as Hlt.
  split; [lia|]. intros k Hk.
  apply lookup_insert_Some in Hk as [[_ E]|[Hne Hk]]; [lia|].
  apply Hne. symmetry. by eapply (current_one_key w Hw).
Qed.

(** The task whose request a call replaces goes through its [catch]
    block with [AbortError]. *)
Lemma call_aborts L n now w tid t c :
  consistent w → (1 ≤ n)%nat →
  tasks w !! tid = Some t → state t = Awaiting c → key (loader t) = key L →
  step (Call L n now) w =
  fail tid AbortError now
    (mkWorld (log (Requested (key L) (Requests.created (requests w))) (page w))
             (Requests.fetchWithAbort (key L) (requests w)).1
             (tasks w ++ [mkTask L n 1 (Awaiting (Requests.created (requests w)))])).
Proof.
  intros Hw Hn Ht Hs Hkey. rewrite call_issued by done. cbv zeta.
  rewrite <- Hkey, (awaited_current w Hw tid t c Ht Hs).
  rewrite (awaiting_singleton c _ tid t); [done| |done|].
  - by apply lookup_app_l_Some.
  - intros tid' t' Ht' Hs'. apply lookup_app_Some in Ht' as [Ht'|[_ Ht']].
    + by eapply (awaited_once w Hw).
    + apply list_lookup_singleton_Some in Ht' as [_ <-]. done.
Qed.
(** *** A single task is the loader running alone *)

Lemma alone_finished res remaining attempt controller p rq t :
  (∀ c, state t ≠ Awaiting c) → state t ≠ Sleeping →
  exec (alone res remaining attempt controller) (mkWorld p rq [t]) = mkWorld p rq [t].
Proof.
  intros Haw Hsl. revert attempt controller.
  induction remaining as [|remaining IH]; intros attempt controller; [done|].
  cbn [alone exec foldl]. fold (exec (alone res remaining (S attempt) (S controller))).
  assert (step (Response controller (res attempt).1 (res attempt).2) (mkWorld p rq [t])
          = mkWorld p rq [t]) as ->.
  { apply response_not_awaited, awaiting_nil. intros [|tid] t' Ht' Hs; [|done].
    injection Ht' as <-. by destruct (Haw controller). }
  assert (step (Timer 0 (res attempt).2) (mkWorld p rq [t]) = mkWorld p rq [t]) as ->.
  { simpl. by destruct (state t). }
  apply IH.
Qed.

Lemma begin_alone L n attempt now p rq :
  (attempt ≤ n)%nat →
  begin 0 now (mkWorld p rq [mkTask L n attempt Sleeping]) =
  mkWorld (log (Requested (key L) (Requests.created rq)) p)
          (Requests.fetchWithAbort (key L) rq).1
          [mkTask L n attempt (Awaiting (Requests.created rq))].
Proof.
  intros Hle. unfold begin. simpl. rewrite (proj2 (Nat.leb_le _ _) Hle).
  by destruct (Requests.requestControllers rq !! key L).
Qed.

(** The page, the requests and the outcome of the single task are those
    of [loop]. *)
Lemma loop_alone L res n :
  ∀ remaining k now p rq,
    (k + remaining = S n)%nat →
    ∃ t, exec (alone res remaining k (Requests.created rq))
              (begin 0 now (mkWorld p rq [mkTask L n k Sleeping])) =
         mkWorld (loop L res n remaining k p rq).1.1
                 (loop L res n remaining k p rq).1.2 [t] ∧
         state t = Finished (loop L res n remaining k p rq).2.
Proof.
  induction remaining as [|remaining IH]; intros k now p rq Hsum.
  { unfold begin. simpl. rewrite (proj2 (Nat.leb_gt _ _)) by lia.
    by eexists. }
  rewrite begin_alone by lia. rewrite loop_step. cbv zeta.
  cbn [alone exec foldl].
  fold (exec (alone res remaining (S k) (S (Requests.created rq)))).
  set (p1 := log _ p). set (rq1 := (Requests.fetchWithAbort (key L) rq).1).
  assert (awaiting (Requests.created rq)
            [mkTask L n k (Awaiting (Requests.created rq))] = [0%nat]) as Haw.
  { unfold awaiting. simpl. unfold is_awaiting. simpl. by rewrite Nat.eqb_refl. }
  cbn [step tasks page requests]. rewrite Haw. cbn [lookup list_lookup loader].
  destruct (settle L (res k).1 (res k).2 p1) as [p2 [error|]] eqn:Hsettle.
  - unfold fail. cbn [tasks lookup list_lookup attempt maxRetries loader page requests].
    destruct (Nat.eqb_spec k n) as [->|Hne].
    + destruct (exhausted L error (res n).2 p2) as [p3 o] eqn:Hx. simpl.
      change (foldl (λ w' i, step i w') ?w ?l) with (exec l w).
      rewrite alone_finished by done. by eexists.
    + cbn [insert list_insert set_state loader maxRetries attempt].
      cbn [step tasks lookup list_lookup state loader maxRetries attempt page requests
           insert list_insert].
      destruct (IH (S k) (res k).2 (sleep k p2) rq1) as (t & Hexec & Ht); [lia|].
      exists t. split; [|exact Ht]. rewrite <- Hexec. reflexivity.
  - simpl. change (foldl (λ w' i, step i w') ?w ?l) with (exec l w).
    rewrite alone_finished by done. by eexists.
Qed.

(** [withRetry] is what a call of the loader makes of the page when no
    other loader runs. *)
Lemma withRetry_alone L n res now p rq :
  ∃ t, exec (Call L n now :: alone res n 1 (Requests.created rq)) (mkWorld p rq []) =
       mkWorld (withRetry L n res p rq).1.1 (withRetry L n res p rq).1.2 [t] ∧
       state t = Finished (withRetry L n res p rq).2.
Proof. apply (loop_alone L res n n 1%nat now p rq). lia. Qed.
End EventLoopFacts.

(** ** Facts about HTML escaping *)

Section HtmlFacts.
Import Html.

Lemma append_cons a (s t : string) : String a s +:+ t = String a (s +:+ t).
Proof. reflexivity. Qed.

Lemma append_assoc (s1 s2 s3 : string) : (s1 +:+ s2) +:+ s3 = s1 +:+ (s2 +:+ s3).
Proof. induction s1 as [|a s1 IH]; [done|]. by rewrite !append_cons, IH. Qed.

Lemma replace_app c r s1 s2 :
  replace c r (s1 +:+ s2) = replace c r s1 +:+ replace c r s2.
Proof.
  induction s1 as [|a s1 IH]; [done|].
  rewrite append_cons. cbn [replace].
  destruct (Ascii.eqb a c); rewrite IH; [|done].
  by rewrite append_assoc.
Qed.

Lemma five_passes s :
  replace apos "&#39;"
    (replace quot "&quot;"
       (replace gt "&gt;" (replace lt "&lt;" (replace amp "&amp;" s)))) =
  escape s.
Proof.
  induction s as [|a s IH]; [done|].
  cbn [replace escape]. unfold escaped.
  destruct (Ascii.eqb_spec a amp) as [->|Hamp].
  { rewrite !replace_app, IH. done. }
  cbn [replace].
  destruct (Ascii.eqb_spec a lt) as [->|Hlt].
  { rewrite !replace_app, IH. done. }
  cbn [replace].
  destruct (Ascii.eqb_spec a gt) as [->|Hgt].
  { rewrite !replace_app, IH. done. }
  cbn [replace].
  destruct (Ascii.eqb_spec a quot) as [->|Hquot].
  { rewrite !replace_app, IH. done. }
  cbn [replace].
  destruct (Ascii.eqb_spec a apos) as [->|Hapos].
  { by rewrite IH. }
  by rewrite IH.
Qed.

Lemma occurs_app a s t : occurs a (s +:+ t) ↔ occurs a s ∨ occurs a t.
Proof.
  induction s as [|b s IH]; [cbn; tauto|].
  rewrite append_cons. cbn [occurs]. rewrite IH. tauto.
Qed.

Lemma escaped_plain a b : occurs a (escaped b) → ¬ special a.
Proof.
  unfold escaped, special.
  destruct (Ascii.eqb_spec b amp) as [->|Hamp].
  { cbn. intros H [?|[?|[?|?]]]; subst a; decompose [or] H; by try discriminate. }
  destruct (Ascii.eqb_spec b lt) as [->|Hlt].
  { cbn. intros H [?|[?|[?|?]]]; subst a; decompose [or] H; by try discriminate. }
  destruct (Ascii.eqb_spec b gt) as [->|Hgt].
  { cbn. intros H [?|[?|[?|?]]]; subst a; decompose [or] H; by try discriminate. }
  destruct (Ascii.eqb_spec b quot) as [->|Hquot].
  { cbn. intros H [?|[?|[?|?]]]; subst a; decompose [or] H; by try discriminate. }
  destruct (Ascii.eqb_spec b apos) as [->|Hapos].
  { cbn. intros H [?|[?|[?|?]]]; subst a; decompose [or] H; by try discriminate. }
  cbn. intros [->|[]]. tauto.
Qed.

Lemma escape_plain a s : occurs a (escape s) → ¬ special a.
Proof.
  induction s as [|b s IH]; [done|].
  cbn [escape]. rewrite occurs_app. intros [H|H]; [by eapply escaped_plain|auto].
Qed.

Lemma prefix_empty s : String.prefix "" s = true.
Proof. by destruct s. Qed.

Lemma entities_only_app_plain (e s : string) :
  entities_only e = true → entities_only s = true →
  entities_only (e +:+ s) = true.
Proof.
  induction e as [|a e IH]; [done|].
  rewrite append_cons. cbn [entities_only].
  intros [Ha He]%andb_prop Hs. rewrite (IH He Hs), andb_true_r.
  destruct (Ascii.eqb a amp); [|done].
  apply existsb_exists in Ha as (tail & Hin & Hpre).
  apply existsb_exists. exists tail. split; [done|].
  clear -Hpre. revert e Hpre.
  induction tail as [|c tail IHt]; intros e Hpre; [apply prefix_empty|].
  destruct e as [|b e]; [done|]. rewrite append_cons. cbn in *.
  destruct (ascii_dec c b); [auto|done].
Qed.

Lemma entities_only_escaped a : entities_only (escaped a) = true.
Proof.
  unfold escaped.
  repeat match goal with
         | |- context [Ascii.eqb a ?c] => destruct (Ascii.eqb_spec a c); [done|]
         end.
  cbn. destruct (Ascii.eqb_spec a amp); done.
Qed.

Lemma entities_only_escape s : entities_only (escape s) = true.
Proof.
  induction s as [|a s IH]; [done|]. cbn [escape].
  by apply entities_only_app_plain; [apply entities_only_escaped|].
Qed.

Lemma entities_only_sound s :
  entities_only s = true → ampersands_start_entities s.
Proof.
  induction s as [|a s IH]; intros Hs before after E.
  { destruct before; discriminate E. }
  cbn [entities_only] in Hs. apply andb_prop in Hs as [Ha Hs].
  destruct before as [|b before].
  - cbn in E. injection E as -> ->. rewrite Ascii.eqb_refl in Ha.
    apply existsb_exists in Ha as (tail & Hin & Hpre).
    exists tail. split; [by apply list_elem_of_In|done].
  - rewrite append_cons in E. injection E as -> ->. by eapply IH.
Qed.
End HtmlFacts.

(** ** Facts about the table renderer *)

Section TableFacts.
Import Table.
Context (h : host) (w : window) (operation : list (string * JS.value)).
Hypothesis host_ordinary : ordinary h.
Hypothesis no_data : all_absent operation.

Lemma absent_cases name :
  JS.prop name operation = JS.VUndefined ∨ JS.prop name operation = JS.VNull.
Proof using no_data.
  specialize (no_data name). destruct (JS.prop name operation); try discriminate; auto.
Qed.

Lemma absent_truthy name : JS.truthy (JS.prop name operation) = false.
Proof using no_data. by destruct (absent_cases name) as [->| ->]. Qed.

Lemma absent_or name d : JS.or (JS.prop name operation) d = d.
Proof using no_data. unfold JS.or. by rewrite absent_truthy. Qed.

Lemma absent_isArray name : JS.isArray (JS.prop name operation) = false.
Proof using no_data. by destruct (absent_cases name) as [->| ->]. Qed.

Lemma prepare_without_data :
  ∃ modalIndex, prepare h w operation = Ok (without_data h modalIndex).
Proof using host_ordinary no_data.
  eexists. unfold prepare, without_data, summarizeProdutos, summarizeDespesas,
    hasArmazenagemDetails.
  rewrite !absent_or, !absent_truthy.
  destruct (absent_cases "produtos_processo") as [-> | ->];
    destruct (absent_cases "armazenagem_data") as [-> | ->];
    destruct (absent_cases "despesas_processo") as [-> | ->];
    cbn; rewrite (upper_empty h host_ordinary); cbn;
    unfold exceeds; cbn; rewrite (length_dash h host_ordinary); reflexivity.
Qed.

Lemma canal_without_data :
  getCanalIndicator h (JS.VStr "-") =
  "<span class=" +:+ q "canal-indicator" +:+ "><span class=" +:+
  q "canal-dot neutro" +:+ "></span><span class=" +:+ q "canal-text" +:+
  ">-</span></span>".
Proof using host_ordinary.
  unfold getCanalIndicator. cbn [JS.truthy negb String.eqb Ascii.eqb Bool.eqb text Html.String_].
  rewrite (trim_dash h host_ordinary). cbn [String.eqb Ascii.eqb Bool.eqb].
  rewrite (upper_dash h host_ordinary). reflexivity.
Qed.

(** The cells of a record without data, label by label. *)
Lemma cases_without_data mi :
  Forall (λ labelled, labelled.1 = "acoes" ∨ labelled.1 = "status" ∨
                      labelled.1 = "custos" ∨ placeholder labelled.2)
         (cases h w (without_data h mi) operation).
Proof using host_ordinary no_data.
  unfold cases, without_data. cbv beta zeta.
  cbn [modalIndex isKingspanProcess hasProdutos hasArmazenagemData exportadorFull
       exportadorDisplay statusDisplay custoTotal urfValue canalContent
       produtosResumo despesasResumo].
  rewrite canal_without_data.
  unfold formatDate, formatDataChegada, getModalBadge, getArmazenagemDisplay,
    extractContainerValues, normalizePesoBruto.
  rewrite !absent_or, !absent_truthy, !absent_isArray.
  destruct (absent_cases "armazenagem_data") as [-> | ->];
    destruct (absent_cases "conteineres") as [-> | ->];
    repeat (apply Forall_cons; split; [first [by left | by (right; left)
                                              | by (right; right; left)
                                              | by (right; right; right)]|]);
    by apply Forall_nil.
Qed.

Lemma switch_labelled id labelled :
  (id, switch id labelled) ∈ labelled ∨
  ((id ∉ labelled.*1) ∧ switch id labelled = "<td>-</td>").
Proof.
  induction labelled as [|[label cell] labelled IH]; simpl.
  { right. split; [by inversion 1|done]. }
  destruct (String.eqb_spec id label) as [->|Hne].
  - left. by left.
  - destruct IH as [IH|[IH1 IH2]]; [left; by right|].
    right. split; [|done]. intros Hin. inv Hin; auto.
Qed.

Lemma status_without_data mi :
  switch "status" (cases h w (without_data h mi) operation) =
  td ("<span class=" +:+ q "badge badge-light-monochrome" +:+ ">Sem Info</span>").
Proof using host_ordinary.
  cbn [switch cases String.eqb Ascii.eqb Bool.eqb without_data statusDisplay fst snd].
  unfold getStatusBadge.
  cbn [JS.truthy negb String.eqb Ascii.eqb Bool.eqb].
  destruct (String.eqb_spec (h_toUpperCase h (h_trim h "Sem Info")) "N/A") as [E|_].
  - by destruct (upper_sem_info h host_ordinary).
  - reflexivity.
Qed.

Lemma custos_without_data mi :
  switch "custos" (cases h w (without_data h mi) operation) =
  td ("<span class=" +:+ q "currency-value" +:+ ">R$ 0,00</span>").
Proof. reflexivity. Qed.

(** The labels of the [switch] are the ids of the registry. *)
Lemma case_labels c :
  (cases h w c operation).*1 =
  (cases Scenario.plain_host Scenario.bare_window (without_data Scenario.plain_host None) []).*1.
Proof. reflexivity. Qed.

Lemma unknown_to_switch c id :
  id ∉ Columns.col_id <$> Columns.AVAILABLE_COLUMNS →
  switch id (cases h w c operation) = "<td>-</td>".
Proof.
  intros Hid. destruct (switch_labelled id (cases h w c operation)) as [Hin|[_ ?]];
    [|done].
  destruct Hid.
  assert (id ∈ (cases h w c operation).*1) as Hlabel
    by apply (list_elem_of_fmap_2 fst _ _ Hin).
  rewrite case_labels in Hlabel. revert Hlabel. generalize id.
  apply Forall_forall, (bool_decide_unpack _). by vm_compute.
Qed.

Lemma acoes_without_data mi :
  switch "acoes" (cases h w (without_data h mi) operation) =
  td (match mi with
      | Some index =>
          actionButton "openProcessModal" "mdi-eye-outline" index "Ver detalhes" 24
      | None => disabledButton
      end +:+ "").
Proof. reflexivity. Qed.
End TableFacts.

(* ================================================================== *)
(** * The claims of the specification *)
(* ================================================================== *)

Section Claims.
Import Columns Cache Loader EventLoop Html Table Scenario.

(** ** Column configuration *)

(** Claim C1: for every stored configuration, whatever it misses, adds or
    repeats, [normalizeColumnsConfig] returns exactly one entry per id of
    [AVAILABLE_COLUMNS], the [order] values are 0, 1, ..., n-1 in that
    sequence, and an entry of a registry row with [fixed = true] has
    [visible = true]. *)
Theorem C1_normalize_one_entry_per_id (config : option (list StoredColumn)) :
  id <$> normalizeColumnsConfig config ≡ₚ col_id <$> AVAILABLE_COLUMNS ∧
  NoDup (id <$> normalizeColumnsConfig config) ∧
  order <$> normalizeColumnsConfig config =
    JS.of_nat <$> seq 0 (length AVAILABLE_COLUMNS) ∧
  ∀ c col, c ∈ normalizeColumnsConfig config → col ∈ AVAILABLE_COLUMNS →
           id c = col_id col → col_fixed col = true → visible c = true.
Proof.
  split; [apply normalize_ids|]. split; [apply normalize_ids_NoDup|]. split.
  - unfold normalizeColumnsConfig. rewrite renumber_orders, length_sort.
    by rewrite length_fmap.
  - intros c col. apply normalize_fixed.
Qed.

Lemma C1_witness :
  ∃ c col, c ∈ normalizeColumnsConfig stale_config ∧ col ∈ AVAILABLE_COLUMNS ∧
           id c = col_id col ∧ col_fixed col = true ∧ visible c = true.
Proof.
  exists (mkConfig "acoes" true (JS.of_nat 0)),
         (mkCol "acoes" "Ações" true true (Some false) (Some false) "acoes"
                "Identificação" 0).
  assert (mkConfig "acoes" true (JS.of_nat 0) ∈ normalizeColumnsConfig stale_config)
    as Hc by (apply (list_elem_of_lookup_2 _ 0%nat); vm_compute; reflexivity).
  assert (mkCol "acoes" "Ações" true true (Some false) (Some false) "acoes"
                "Identificação" 0 ∈ AVAILABLE_COLUMNS)
    as Hcol by (apply (list_elem_of_lookup_2 _ 0%nat); reflexivity).
  split; [exact Hc|]. split; [exact Hcol|]. split; [reflexivity|].
  split; [reflexivity|].
  exact (proj2 (proj2 (proj2 (C1_normalize_one_entry_per_id stale_config)))
           _ _ Hc Hcol eq_refl eq_refl).
Defined.

(** Claim C6: [normalizeColumnsConfig] is idempotent, so the normalized
    default configuration is a fixed point of it. *)
Theorem C6_normalize_idempotent (config : option (list StoredColumn)) :
  normalizeColumnsConfig (Some (stored <$> normalizeColumnsConfig config)) =
  normalizeColumnsConfig config ∧
  normalizeColumnsConfig
    (Some (stored <$> normalizeColumnsConfig (Some (stored <$> getDefaultColumnsConfig)))) =
  normalizeColumnsConfig (Some (stored <$> getDefaultColumnsConfig)).
Proof. split; apply normalize_normalized. Qed.

(** Claim C7, as the specification states it, fails: normalizing
    [[{id:'urf', visible:false, order:0}]] gives no entry for ['urf'] that
    has order 0 or sits at position 0. *)
Lemma C7_counterexample :
  ¬ ∃ c, c ∈ normalizeColumnsConfig persisted_urf ∧ id c = "urf" ∧
         (order c = JS.of_nat 0 ∨ normalizeColumnsConfig persisted_urf !! 0%nat = Some c).
Proof.
  intros (c & Hin & Hid & H).
  assert (normalizeColumnsConfig persisted_urf !! 0%nat =
          Some (mkConfig "acoes" true (JS.of_nat 0))) as H0 by (by vm_compute).
  destruct H as [Horder|Hpos].
  - apply list_elem_of_lookup_1 in Hin as [i Hi].
    pose proof (normalize_lookup_order _ _ _ Hi) as Hi'.
    rewrite Horder in Hi'. injection Hi' as Hi'.
    assert (i = 0%nat) as -> by lia.
    rewrite H0 in Hi. injection Hi as <-. discriminate Hid.
  - rewrite H0 in Hpos. injection Hpos as <-. discriminate Hid.
Qed.

(** Claim C7, amended: normalizing [[{id:'urf', visible:false, order:0}]]
    keeps the fixed column ['acoes'], whose registry order is 0 as well,
    at position 0 and places ['urf'] right after it, at position 1 with
    order 1 and [visible = false]; the other columns follow with the
    visibility of the default configuration and in the sequence the
    default configuration normalizes to. *)
Theorem C7_urf_follows_acoes :
  normalizeColumnsConfig persisted_urf !! 0%nat =
    Some (mkConfig "acoes" true (JS.of_nat 0)) ∧
  normalizeColumnsConfig persisted_urf !! 1%nat =
    Some (mkConfig "urf" false (JS.of_nat 1)) ∧
  (λ c, (id c, visible c)) <$>
    filter (λ c, id c ≠ "urf") (normalizeColumnsConfig persisted_urf) =
  (λ c, (id c, visible c)) <$>
    filter (λ c, id c ≠ "urf")
           (normalizeColumnsConfig (Some (stored <$> getDefaultColumnsConfig))) ∧
  Forall (λ c, id c = "urf" ∨
               (id c, visible c) ∈ (λ d, (id d, visible d)) <$> getDefaultColumnsConfig)
         (normalizeColumnsConfig persisted_urf).
Proof.
  split; [by vm_compute|]. split; [by vm_compute|]. split; [by vm_compute|].
  apply (bool_decide_unpack _). by vm_compute.
Qed.

(** ** Cache store *)

(** Claim C4, as the specification states it, fails for a value that is
    falsy: [get] right after [set('kpis', 0)] returns [null]. *)
Lemma C4_counterexample :
  Cache.get kpis 1000 (Cache.set kpis (JS.VNum (JS.of_Z 0)) 1000 Cache.initial)
  ≠ JS.VNum (JS.of_Z 0).
Proof. by vm_compute. Qed.

(** Claim C4, amended: [set(type, X)] followed, before the timeout of 5
    minutes has passed, by [get(type)] returns [X] when [X] is truthy (and
    the clock did not read 0 at the [set]); after [invalidate()], [get]
    of any kind returns [null]; once the timeout has passed since the last
    [set], [get] of any kind returns [null]. *)
Theorem C4_cache_get_after_set (X : JS.value) (type type' : kind)
    (c : dashboardCache) (stamp now : Z) :
  cacheTimeout = 300000 ∧
  (JS.truthy X = true → stamp ≠ 0 → now - stamp < cacheTimeout →
   Cache.get type now (Cache.set type X stamp c) = X) ∧
  Cache.get type now (invalidate c) = JS.VNull ∧
  (cacheTimeout ≤ now - stamp →
   Cache.get type now (Cache.set type' X stamp c) = JS.VNull).
Proof.
  split; [reflexivity|]. split; [|split]; try reflexivity.
  - intros HX Hstamp Hage.
    rewrite get_valid; [apply slot_set_same|by apply isValid_set|].
    by rewrite slot_set_same.
  - intros Hage. apply get_invalid.
    eapply isValid_expired; [apply lastUpdate_set|done].
Qed.

Lemma C4_witness :
  Cache.get kpis 1000 (Cache.set kpis some_kpis 1000 Cache.initial) = some_kpis ∧
  Cache.get charts 301000 (Cache.set kpis some_kpis 1000 Cache.initial) = JS.VNull.
Proof.
  destruct (C4_cache_get_after_set some_kpis kpis kpis Cache.initial 1000 1000)
    as (_ & Hget & _).
  destruct (C4_cache_get_after_set some_kpis charts kpis Cache.initial 1000 301000)
    as (_ & _ & _ & Hexpired).
  split.
  - apply Hget; [reflexivity|lia|reflexivity].
  - apply Hexpired. unfold cacheTimeout. lia.
Defined.

(** Claim C5 fails on the code: [invalidate()] resets [kpis], [charts],
    [operations] and [lastUpdate] but leaves [filterOptions] as it was,
    and the next [set] of any kind makes the old filter options readable
    again. *)
Theorem C5_invalidate_keeps_filterOptions :
  (∀ c, c_kpis (invalidate c) = JS.VNull ∧ c_charts (invalidate c) = JS.VNull ∧
        c_operations (invalidate c) = JS.VNull ∧ lastUpdate (invalidate c) = None ∧
        c_filterOptions (invalidate c) = c_filterOptions c) ∧
  c_filterOptions (invalidate (Cache.set filterOptions some_options 1000 Cache.initial))
    = some_options ∧
  Cache.get filterOptions 2000
    (Cache.set kpis some_kpis 2000
       (invalidate (Cache.set filterOptions some_options 1000 Cache.initial)))
    = some_options.
Proof. split; [done|]. split; by vm_compute. Qed.

(** Claim C8, as the specification states it, fails for a stored value
    that is falsy: with [0] stored for charts, [get('charts')] right after
    a [set] of the KPIs returns [null], not the stored value. *)
Lemma C8_counterexample :
  Cache.get charts 2500
    (Cache.set kpis some_kpis 2000
       (Cache.set charts (JS.VNum (JS.of_Z 0)) 1000 Cache.initial))
  ≠ JS.VNum (JS.of_Z 0).
Proof. by vm_compute. Qed.

(** Claim C8, amended: the cache has one timestamp for all kinds.  With a
    truthy value [v1] stored for [k1], a [set] of another kind [k2] at
    [stamp] (the clock not reading 0) makes [get(k1)] return [v1] at every
    instant less than the timeout after [stamp], however long ago [v1] was
    stored; without that [set] the same [get] returns [null] once the
    timeout has passed since [v1] was stored. *)
Theorem C8_set_refreshes_every_kind (k1 k2 : kind) (v1 v2 : JS.value)
    (c : dashboardCache) (stored_at stamp now : Z) :
  k1 ≠ k2 → JS.truthy v1 = true → stamp ≠ 0 → now - stamp < cacheTimeout →
  Cache.get k1 now (Cache.set k2 v2 stamp (Cache.set k1 v1 stored_at c)) = v1 ∧
  (cacheTimeout ≤ now - stored_at →
   Cache.get k1 now (Cache.set k1 v1 stored_at c) = JS.VNull).
Proof.
  intros Hk Hv Hstamp Hage. split.
  - rewrite get_valid; [|by apply isValid_set|].
    + by rewrite slot_set_other, slot_set_same.
    + by rewrite slot_set_other, slot_set_same.
  - intros Hold. apply get_invalid.
    eapply isValid_expired; [apply lastUpdate_set|done].
Qed.

Lemma C8_witness :
  Cache.get charts 900000
    (Cache.set kpis some_kpis 800000 (Cache.set charts some_options 1000 Cache.initial))
    = some_options ∧
  Cache.get charts 900000 (Cache.set charts some_options 1000 Cache.initial) = JS.VNull.
Proof.
  destruct (C8_set_refreshes_every_kind charts kpis some_options some_kpis
              Cache.initial 1000 800000 900000) as [Hfresh Hstale];
    [discriminate|reflexivity|lia|unfold cacheTimeout; lia|].
  split; [exact Hfresh|]. apply Hstale. unfold cacheTimeout. lia.
Defined.

(** ** Retry loaders *)

(** Claim C2, as the specification states it, fails: with every attempt
    failing and KPIs in the cache that were stored more than 5 minutes
    before the last attempt fails, [loadDashboardKPIsWithRetry] does not
    apply the cached KPIs and return; it throws.  The functions of the
    page return here. *)
Lemma C2_counterexample :
  ¬ falls_back_to_any_cached (loadDashboardKPIs quiet) kpis updateDashboardKPIs.
Proof.
  intros H.
  destruct (H 2%nat (offline 400000) page_with_kpis Requests.none)
    as (p' & rq' & Hrun & _).
  - lia.
  - intros i _. eexists. apply rejects_rejected.
  - reflexivity.
  - apply (f_equal snd) in Hrun. vm_compute in Hrun. discriminate Hrun.
Qed.

(** Claim C2, amended.  For each of the four retry loaders, with
    [maxRetries] at least 1, on a page whose functions behave in any way
    [u]: if the resource fails [N - 1] times and then succeeds
    ([N <= maxRetries]) and the functions the loader calls with the value
    of the response return, the loader makes exactly [N] attempts, caches
    the value and applies it; if every attempt fails, the cache holds a
    value for the kind and is still valid when the last attempt fails, and
    the updater returns on that value, the loader applies the cached value
    and returns; if every attempt fails and [get] finds no value (none
    stored, or the cache expired), the loader throws the error of the
    last attempt, after applying the empty state of charts, operations
    and filter options, whose call returns; the KPI loader has no empty
    state and applies nothing.  (The updater runs inside the [try] block,
    after [dashboardCache.set]: one that throws makes the attempt a failed
    one.) *)
Theorem C2_retry_loaders (u : updaters) :
  (succeeds_at_attempt u (loadDashboardKPIs u) kpis "kpis"
     (λ result, JS.field result "kpis") updateDashboardKPIs (λ _, []) ∧
   falls_back_to_cache u (loadDashboardKPIs u) kpis updateDashboardKPIs ∧
   falls_back_to_empty u (loadDashboardKPIs u) kpis []) ∧
  (succeeds_at_attempt u (loadDashboardCharts u) charts "charts"
     (λ result, JS.field result "charts")
     createDashboardChartsWithValidation material_permission ∧
   falls_back_to_cache u (loadDashboardCharts u) charts
     createDashboardChartsWithValidation ∧
   falls_back_to_empty u (loadDashboardCharts u) charts [createEmptyCharts]) ∧
  (succeeds_at_attempt u (loadRecentOperations u) operations "operations"
     operationsToUse updateRecentOperationsTable (λ _, []) ∧
   falls_back_to_cache u (loadRecentOperations u) operations
     updateRecentOperationsTable ∧
   falls_back_to_empty u (loadRecentOperations u) operations
     [updateRecentOperationsTable (JS.VArr [])]) ∧
  (succeeds_at_attempt u (loadFilterOptions u) filterOptions "options"
     (λ result, JS.field result "options") populateFilterOptions (λ _, []) ∧
   falls_back_to_cache u (loadFilterOptions u) filterOptions populateFilterOptions ∧
   falls_back_to_empty u (loadFilterOptions u) filterOptions
     [populateFilterOptions emptyFilterOptions]).
Proof.
  split; [apply loadDashboardKPIs_contract|].
  split; [apply loadDashboardCharts_contract|].
  split; [apply loadRecentOperations_contract|apply loadFilterOptions_contract].
Qed.

(** Two failures and a success at the third attempt; a resource that is
    offline with valid KPIs in the cache; the same with an empty cache. *)
Lemma C2_witness :
  (∃ p' rq',
     loadDashboardKPIsWithRetry quiet 3
       (λ i, if (i =? 3)%nat then (kpis_response some_kpis, 5000)
             else (Json (JS.VObj [("success", JS.VBool false)]), 2000))
       (mkPage Cache.initial []) Requests.none = (p', rq', Returned) ∧
     attempts (trace p') = 3%nat ∧
     calls (trace p') = [updateDashboardKPIs some_kpis]) ∧
  (∃ p' rq',
     loadDashboardKPIsWithRetry quiet 2 (offline 4000) page_with_kpis Requests.none
       = (p', rq', Returned) ∧
     calls (trace p') = [updateDashboardKPIs some_kpis]) ∧
  (∃ p' rq' e,
     loadDashboardChartsWithRetry quiet 2 (offline 4000) (mkPage Cache.initial [])
       Requests.none = (p', rq', Threw e) ∧
     calls (trace p') = [createEmptyCharts]).
Proof.
  destruct (C2_retry_loaders quiet) as ((Hsucc & Hcache & _) & (_ & _ & Hempty) & _).
  split; [|split].
  - edestruct (Hsucc 3%nat 3%nat
                 (λ i, if (i =? 3)%nat then (kpis_response some_kpis, 5000)
                       else (Json (JS.VObj [("success", JS.VBool false)]), 2000))
                 (mkPage Cache.initial []) Requests.none)
      as (p' & rq' & Hrun & Ha & Hc & _);
      [lia| |reflexivity|reflexivity|reflexivity|reflexivity|done|done|].
    + intros i Hi. destruct i as [|[|[|i]]]; try lia;
        (eexists; intros now p; reflexivity).
    + exists p', rq'. split; [exact Hrun|]. split; [exact Ha|exact Hc].
  - edestruct (Hcache 2%nat (offline 4000) page_with_kpis Requests.none)
      as (p' & rq' & Hrun & _ & Hc & _); [lia| |reflexivity|reflexivity|done|].
    + intros i _. eexists. apply rejects_rejected.
    + exists p', rq'. split; [exact Hrun|exact Hc].
  - edestruct (Hempty 2%nat (offline 4000) (mkPage Cache.initial []) Requests.none)
      as (p' & rq' & e & Hrun & _ & _ & Hc & _); [lia| |reflexivity|done|].
    + intros i _. eexists. apply rejects_rejected.
    + exists p', rq', e. split; [exact Hrun|exact Hc].
Defined.

(** ** Request de-duplication *)

(** Claim C3, as the specification states it, fails in its second half:
    when a call replaces the request a retry loader awaits, the loader
    treats the cancellation as a failed attempt.  With KPIs in the cache
    and a loader on its last attempt, the cancellation makes the loader
    apply the cached KPIs. *)
Lemma C3_counterexample : ¬ cancellation_is_no_failure.
Proof.
  intros H.
  destruct (H one_request_in_flight (loadDashboardKPIs quiet) 1%nat 3000 1%nat
              (mkTask (loadDashboardKPIs quiet) 1 1 (Awaiting 1)) 1%nat)
    as [Hcalls _].
  - by eexists.
  - lia.
  - reflexivity.
  - reflexivity.
  - reflexivity.
  - vm_compute in Hcalls. discriminate Hcalls.
Qed.

(** Claim C3, amended.  In every state the page can reach: a call of a
    loader for a key aborts the request that is current for the key and
    replaces it; the response of a replaced request changes nothing,
    whatever happened since it was replaced and whenever it arrives; and
    the loader that awaited the replaced request goes through the [catch]
    block of its attempt with [AbortError], as for any failed attempt: it
    sleeps and retries when attempts are left, and runs the cache or
    empty-state fallback when the attempt was the last one. *)
Theorem C3_newer_request_replaces_older (w : world) (L : retry_loader)
    (n : nat) (now : Z) (c : nat) :
  reachable w → (1 ≤ n)%nat →
  Requests.requestControllers (requests w) !! key L = Some c →
  c ∈ Requests.aborted (requests (step (Call L n now) w)) ∧
  (∀ later r now',
     step (Response c r now') (exec later (step (Call L n now) w)) =
     exec later (step (Call L n now) w)) ∧
  (∀ tid t, tasks w !! tid = Some t → state t = Awaiting c →
     step (Call L n now) w =
     fail tid AbortError now
       (mkWorld (log (Requested (key L) (Requests.created (requests w))) (page w))
                (Requests.fetchWithAbort (key L) (requests w)).1
                (tasks w ++ [mkTask L n 1 (Awaiting (Requests.created (requests w)))]))).
Proof.
  intros Hw Hn Hc. pose proof (reachable_consistent w Hw) as Hcons.
  destruct (call_supersedes L n now w c Hcons Hn Hc) as [Hab Hsup].
  split; [exact Hab|]. split.
  - intros later r now'. apply response_not_awaited, superseded_not_awaited.
    + apply exec_consistent, step_consistent, Hcons.
    + by apply superseded_exec.
  - intros tid t Ht Hs. apply (call_aborts L n now w tid t c); try done.
    pose proof (awaited_current w Hcons tid t c Ht Hs) as Hcur.
    by eapply (current_one_key w Hcons).
Qed.

Lemma C3_witness :
  1%nat ∈ Requests.aborted
            (requests (step (Call (loadDashboardKPIs quiet) 2 3000) one_request_in_flight)) ∧
  step (Response 1 (kpis_response some_kpis) 3500)
       (step (Call (loadDashboardKPIs quiet) 2 3000) one_request_in_flight) =
  step (Call (loadDashboardKPIs quiet) 2 3000) one_request_in_flight.
Proof.
  destruct (C3_newer_request_replaces_older one_request_in_flight
              (loadDashboardKPIs quiet) 2%nat 3000 1%nat) as (Hab & Hdrop & _).
  - by eexists.
  - lia.
  - by vm_compute.
  - split; [exact Hab|]. exact (Hdrop [] (kpis_response some_kpis) 3500).
Defined.

(** ** Table renderer *)

Lemma plain_host_ordinary : ordinary plain_host.
Proof. by split. Qed.




(** ** HTML escaping *)

(** Claim C10: whatever the input, the text [escapeHtml] returns contains
    none of [<], [>], the double quote and the apostrophe, every [&] in it
    starts one of [&amp;], [&lt;], [&gt;], [&quot;], [&#39;], and for
    [null] and [undefined] it is the empty string. *)
Theorem C10_escapeHtml_output (host : JS.value → string) (value : JS.value) :
  (∀ a, occurs a (Html.escapeHtml host value) → ¬ special a) ∧
  ampersands_start_entities (Html.escapeHtml host value) ∧
  (JS.nullish value = true → Html.escapeHtml host value = "").
Proof.
  unfold Html.escapeHtml. destruct (JS.nullish value).
  - split; [by intros a []|]. split; [|done].
    intros before after E. destruct before; discriminate E.
  - rewrite five_passes. split; [intros a; apply escape_plain|].
    split; [|done]. apply entities_only_sound, entities_only_escape.
Qed.

Lemma C10_witness :
  Html.escapeHtml (λ _, "") JS.VUndefined = "" ∧
  ¬ special "&" ∧
  ∃ tail, tail ∈ entity_tails ∧ String.prefix tail "lt;b&gt; &amp; &#39;" = true.
Proof.
  destruct (C10_escapeHtml_output (λ _, "") JS.VUndefined) as (_ & _ & Hnull).
  destruct (C10_escapeHtml_output (λ _, "") (JS.VStr "<b> & '")) as (Hplain & Hamp & _).
  split; [apply Hnull; reflexivity|]. split.
  - apply Hplain. vm_compute. by left.
  - apply (Hamp "" "lt;b&gt; &amp; &#39;"). reflexivity.
Defined.
End Claims.

(* ================================================================== *)
(** * Further properties of the code *)
(* ================================================================== *)

(** ** Facts about the stored column configuration *)

Section ColumnStoreFacts.
Import Columns ColumnStore.

#[local] Arguments AVAILABLE_COLUMNS : simpl never.
#[local] Arguments normalizeColumnsConfig : simpl never.

Lemma persisted_normalized j s config :
  persisted j s = Some config → normalized config.
Proof.
  unfold persisted. destruct (localStorage s !! _) as [text|]; [|done]. simpl.
  destruct (String.eqb text ""); [done|].
  destruct (JSON_parse j text) as [parsed|]; [|done]. simpl.
  destruct (config_of parsed) as [given|]; [|done]. simpl.
  intros [= <-]. by eexists.
Qed.

Lemma getColumnConfig_settled j s :
  settled s → normalized (getColumnConfig j s).1 ∧ settled (getColumnConfig j s).2.
Proof.
  intros [Htemp Hcached]. unfold getColumnConfig.
  destruct (tempColumnConfig s) as [temp|] eqn:Et.
  { simpl. split; [by apply Htemp|]. split; [by rewrite Et|done]. }
  destruct (cachedColumnsConfig s) as [cached|] eqn:Ec.
  { simpl. split; [by apply Hcached|]. split; [by rewrite Et|by rewrite Ec]. }
  assert (normalized
            match persisted j s with
            | Some config => config
            | None => normalizeColumnsConfig (Some (stored <$> getDefaultColumnsConfig))
            end) as Hn.
  { destruct (persisted j s) eqn:Ep; [by eapply persisted_normalized|by eexists]. }
  split; [exact Hn|]. split; simpl; [done|]. by intros config [= <-].
Qed.

Lemma Some_normalized given config :
  Some (normalizeColumnsConfig given) = Some config → normalized config.
Proof. intros [= <-]. by exists given. Qed.

Lemma apply_settled j s o : settled s → settled (apply j s o).
Proof.
  intros Hs. destruct o; unfold apply.
  - by apply getColumnConfig_settled.
  - destruct Hs as [_ Hc]. split; cbn [tempColumnConfig cachedColumnsConfig setTempColumnConfig];
      [|exact Hc]. intros ? [= <-]. by eexists.
  - destruct Hs as [_ Hc]. split; [intros ? [=]|exact Hc].
  - split; [intros ? [=]|].
    cbn [tempColumnConfig cachedColumnsConfig saveColumnConfig clearTempColumnConfig].
    intros ? [= <-]. by eexists.
  - destruct Hs as [_ Hc].
    split; cbn [snd resetColumnConfigToDefault tempColumnConfig cachedColumnsConfig
                setTempColumnConfig]; [|exact Hc].
    intros config. apply Some_normalized.
  - unfold getVisibleColumns.
    pose proof (getColumnConfig_settled j s Hs) as [_ H].
    by destruct (getColumnConfig j s).
Qed.

Lemma run_settled j s ops : settled s → settled (run j s ops).
Proof.
  revert s. induction ops as [|o ops IH]; intros s Hs; [done|].
  apply IH, apply_settled, Hs.
Qed.

Lemma loaded_settled storageKey storage : settled (loaded storageKey storage).
Proof. by split. Qed.

Lemma normalized_shape config :
  normalized config →
  normalizeColumnsConfig (Some (stored <$> config)) = config ∧
  id <$> config ≡ₚ col_id <$> AVAILABLE_COLUMNS ∧
  order <$> config = JS.of_nat <$> seq 0 (length AVAILABLE_COLUMNS) ∧
  ∀ c col, c ∈ config → col ∈ AVAILABLE_COLUMNS →
           id c = col_id col → col_fixed col = true → visible c = true.
Proof.
  intros [given ->]. split; [apply normalize_normalized|].
  split; [apply normalize_ids|]. split.
  - rewrite normalize_unfold, renumber_orders, length_sort. by rewrite length_fmap.
  - intros c col. apply normalize_fixed.
Qed.

Lemma mapM_item_of_object (config : list ColumnConfig) :
  mapM item_of (object_of <$> config) = Some (stored <$> config).
Proof.
  apply mapM_Some. induction config as [|c config IH]; constructor; [|done].
  by destruct c.
Qed.

(** *** The columns the table shows *)

Lemma visibleIds_of_snoc l c :
  foldl (λ m col, <[id col := order col]> m) (∅ : gmap string JS.number) (l ++ [c]) =
  <[id c := order c]> (foldl (λ m col, <[id col := order col]> m) ∅ l).
Proof. by rewrite foldl_snoc. Qed.

Lemma visibleIds_of_Some config i o :
  visibleIds_of config !! i = Some o →
  ∃ c, c ∈ config ∧ visible c = true ∧ id c = i ∧ order c = o.
Proof.
  unfold visibleIds_of.
  assert (∀ l, foldl (λ m col, <[id col := order col]> m)
                 (∅ : gmap string JS.number) l !! i = Some o →
               ∃ c, c ∈ l ∧ id c = i ∧ order c = o) as Hgen.
  { induction l as [|c l IH] using rev_ind; [simpl; by rewrite lookup_empty|].
    rewrite visibleIds_of_snoc. destruct (decide (id c = i)) as [E|E].
    - rewrite E, lookup_insert_eq. intros [= <-]. exists c.
      split; [apply elem_of_app; right; by left|done].
    - rewrite lookup_insert_ne by done. intros (c' & ? & ? & ?)%IH.
      exists c'. split; [apply elem_of_app; by left|done]. }
  intros (c & Hc & ? & ?)%Hgen. apply list_elem_of_filter in Hc as [? ?].
  by exists c.
Qed.

Lemma visibleIds_of_lookup config c :
  NoDup (id <$> config) → c ∈ config → visible c = true →
  visibleIds_of config !! id c = Some (order c).
Proof.
  intros Hnd Hc Hv. unfold visibleIds_of.
  assert (c ∈ filter (λ col, visible col = true) config) as Hin
    by (by apply list_elem_of_filter).
  assert (NoDup (id <$> filter (λ col, visible col = true) config)) as Hnd'.
  { eapply sublist_NoDup; [exact Hnd|apply fmap_sublist, sublist_filter]. }
  revert Hin Hnd'. generalize (filter (λ col, visible col = true) config).
  induction l as [|x l IH] using rev_ind; [by inversion 1|].
  rewrite fmap_app, NoDup_app, visibleIds_of_snoc. simpl.
  intros Hin (Hl & Hx & _). apply elem_of_app in Hin as [Hin|Hin].
  - rewrite lookup_insert_ne; [by apply IH|].
    intros E. apply (Hx (id c)); [|rewrite E; by left].
    by apply list_elem_of_fmap_2.
  - apply list_elem_of_singleton in Hin as ->. by rewrite lookup_insert_eq.
Qed.

Lemma by_position_key visibleIds a b :
  (∃ z, visibleIds !! col_id a = Some (JS.of_Z z)) →
  (∃ z, visibleIds !! col_id b = Some (JS.of_Z z)) →
  ArraySort.verdict_of (by_position visibleIds a b) =
  match position_of visibleIds (col_id a) ?= position_of visibleIds (col_id b) with
  | Lt => ArraySort.Before | Eq => ArraySort.Same | Gt => ArraySort.After
  end.
Proof.
  intros [x Hx] [y Hy]. unfold by_position, position_of. rewrite Hx, Hy. simpl.
  unfold Qcompare. simpl.
  replace ((x * 1 + - y * 1) * 1) with (x - y) by lia.
  by rewrite <- Z.compare_sub.
Qed.

Lemma StronglySorted_fmap_2 {A B} (f : A → B) (R : B → B → Prop) l :
  StronglySorted (λ a b, R (f a) (f b)) l → StronglySorted R (f <$> l).
Proof.
  induction 1 as [|x l Hs IH Hx]; simpl; constructor; [done|].
  apply Forall_fmap. exact Hx.
Qed.

Lemma StronglySorted_filter_2 {A} (R : A → A → Prop) (P : A → Prop)
    `{∀ x, Decision (P x)} l :
  StronglySorted R l → StronglySorted R (filter P l).
Proof.
  induction 1 as [|x l Hs IH Hx]; [constructor|].
  rewrite filter_cons. destruct (decide (P x)); [|done].
  constructor; [done|]. rewrite Forall_forall in Hx.
  apply Forall_forall. intros y [_ Hy]%list_elem_of_filter. by apply Hx.
Qed.

Lemma StronglySorted_weaken {A} (R R' : A → A → Prop) l :
  (∀ x y, x ∈ l → y ∈ l → R x y → R' x y) →
  StronglySorted R l → StronglySorted R' l.
Proof.
  intros HR Hs. induction Hs as [|x l Hs IH Hx]; constructor.
  - apply IH. intros a b Ha Hb. apply HR; by right.
  - rewrite Forall_forall in Hx. apply Forall_forall. intros y Hy.
    apply HR; [by left|by right|by apply Hx].
Qed.

(** The ids of the columns [getVisibleColumns] computes from a normalized
    configuration. *)
Lemma visible_columns_ids given :
  let config := normalizeColumnsConfig given in
  let visibleIds := visibleIds_of config in
  col_id <$> ArraySort.sort (by_position visibleIds)
               (filter (λ col, is_Some (visibleIds !! col_id col)) AVAILABLE_COLUMNS) =
  id <$> filter (λ c, visible c = true) config.
Proof.
  intros config visibleIds.
  set (rows := filter (λ col, is_Some (visibleIds !! col_id col)) AVAILABLE_COLUMNS).
  set (shown := filter (λ c, visible c = true) config).
  pose proof (normalize_ids_NoDup given) as Hnd. fold config in Hnd.
  assert (∀ c, c ∈ shown → visibleIds !! id c = Some (order c)) as Hshown.
  { intros c [Hv Hc]%list_elem_of_filter. by apply visibleIds_of_lookup. }
  assert (∀ c, c ∈ config → ∃ z, order c = JS.of_Z z) as Hwhole.
  { intros c Hc. pose proof (normalized_whole given) as Hw.
    rewrite Forall_forall in Hw. by apply Hw. }
  assert (∀ col, col ∈ rows → ∃ z, visibleIds !! col_id col = Some (JS.of_Z z)) as Hrows.
  { intros col [[o Ho] _]%list_elem_of_filter.
    destruct (visibleIds_of_Some _ _ _ Ho) as (c & Hc & _ & _ & <-).
    destruct (Hwhole c Hc) as [z Hz]. exists z. by rewrite Ho, Hz. }
  apply (StronglySorted_unique_strong
           (λ i1 i2, position_of visibleIds i1 ≤ position_of visibleIds i2)).
  - intros i1 i2 Hi1 (c2 & -> & Hc2)%list_elem_of_fmap Hle Hge.
    apply list_elem_of_fmap in Hi1 as (col & -> & Hcol).
    rewrite sort_Permutation in Hcol.
    apply list_elem_of_filter in Hcol as [[o Ho] _].
    destruct (visibleIds_of_Some _ _ _ Ho) as (c1 & Hc1 & Hv1 & Hid1 & Ho1).
    rewrite <- Hid1. f_equal.
    apply (lt_key_inj key config); [apply normalized_sorted|done| |].
    { by apply list_elem_of_filter in Hc2 as [_ ?]. }
    assert (position_of visibleIds (col_id col) = key c1) as E1.
    { unfold position_of, key. by rewrite Ho, Ho1. }
    assert (position_of visibleIds (id c2) = key c2) as E2.
    { unfold position_of, key. by rewrite (Hshown c2 Hc2). }
    lia.
  - apply StronglySorted_fmap_2.
    apply (sort_sorted (by_position visibleIds)
             (λ col, position_of visibleIds (col_id col))
             (λ col, ∃ z, visibleIds !! col_id col = Some (JS.of_Z z))).
    + intros a b. apply by_position_key.
    + by apply Forall_forall.
  - apply StronglySorted_fmap_2.
    apply (StronglySorted_weaken (λ a b, key a < key b)).
    + intros a b Ha Hb Hlt. unfold position_of.
      rewrite (Hshown a Ha), (Hshown b Hb). unfold key in Hlt.
      destruct (order a), (order b); cbn beta iota in Hlt |- *; lia.
    + apply StronglySorted_filter_2, normalized_sorted.
  - rewrite sort_Permutation. apply NoDup_Permutation.
    + eapply sublist_NoDup;
        [apply registry_ids_NoDup|apply fmap_sublist, sublist_filter].
    + eapply sublist_NoDup; [exact Hnd|apply fmap_sublist, sublist_filter].
    + intros i. split.
      * intros (col & -> & [[o Ho] _]%list_elem_of_filter)%list_elem_of_fmap.
        destruct (visibleIds_of_Some _ _ _ Ho) as (c & Hc & Hv & <- & _).
        apply list_elem_of_fmap_2. by apply list_elem_of_filter.
      * intros (c & -> & Hc)%list_elem_of_fmap.
        pose proof (Hshown c Hc) as Ho.
        apply list_elem_of_filter in Hc as [_ Hc].
        assert (id c ∈ col_id <$> AVAILABLE_COLUMNS) as Hreg.
        { rewrite <- (normalize_ids given). by apply list_elem_of_fmap_2. }
        apply list_elem_of_fmap in Hreg as (col & E & Hcol).
        rewrite E. apply list_elem_of_fmap_2, list_elem_of_filter.
        split; [|done]. by rewrite <- E, Ho.
Qed.

End ColumnStoreFacts.

(** ** The stored column configuration *)

Section ColumnStoreProperties.
Import Columns ColumnStore Scenario.

#[local] Arguments AVAILABLE_COLUMNS : simpl never.
#[local] Arguments normalizeColumnsConfig : simpl never.

(** X1: whatever [localStorage] held when the page loaded and whatever
    calls were made into the module since, the configuration
    [getColumnConfig] returns is a normalized one: normalizing it again
    changes nothing, it has exactly the ids of the registry, its orders
    are 0, 1, ..., n-1, and its fixed columns are visible. *)
Theorem X1_getColumnConfig_is_normalized (j : json) (storageKey : JS.value)
    (storage : gmap string string) (ops : list operation) :
  let config := (getColumnConfig j (run j (loaded storageKey storage) ops)).1 in
  normalizeColumnsConfig (Some (stored <$> config)) = config ∧
  id <$> config ≡ₚ col_id <$> AVAILABLE_COLUMNS ∧
  order <$> config = JS.of_nat <$> seq 0 (length AVAILABLE_COLUMNS) ∧
  ∀ c col, c ∈ config → col ∈ AVAILABLE_COLUMNS →
           id c = col_id col → col_fixed col = true → visible c = true.
Proof.
  intros config. apply normalized_shape.
  apply getColumnConfig_settled, run_settled, loaded_settled.
Qed.

Lemma X1_witness :
  ∃ c, c ∈ (getColumnConfig urf_json
              (run urf_json broken_storage
                 [SetTempColumnConfig stale_config; ClearTempColumnConfig;
                  SaveColumnConfig persisted_urf; GetVisibleColumns])).1 ∧
       id c = "acoes" ∧ visible c = true.
Proof.
  pose proof (X1_getColumnConfig_is_normalized urf_json JS.VUndefined
                {[DASHBOARD_COLUMNS_STORAGE_KEY_DEFAULT := "{oops"]}
                [SetTempColumnConfig stale_config; ClearTempColumnConfig;
                 SaveColumnConfig persisted_urf; GetVisibleColumns])
    as (_ & _ & _ & Hfixed).
  exists (mkConfig "acoes" true (JS.of_nat 0)).
  assert (mkConfig "acoes" true (JS.of_nat 0) ∈
          (getColumnConfig urf_json
             (run urf_json broken_storage
                [SetTempColumnConfig stale_config; ClearTempColumnConfig;
                 SaveColumnConfig persisted_urf; GetVisibleColumns])).1) as Hc
    by (apply (list_elem_of_lookup_2 _ 0%nat); vm_compute; reflexivity).
  split; [exact Hc|]. split; [reflexivity|].
  apply (Hfixed _ (mkCol "acoes" "Ações" true true (Some false) (Some false) "acoes"
                         "Identificação" 0) Hc);
    [apply (list_elem_of_lookup_2 _ 0%nat)|..]; reflexivity.
Defined.

(** X2: on a freshly loaded page, when [localStorage] has no text under
    the storage key, or the text is empty, is not JSON, parses to a value
    that is truthy and no array, or parses to an array with a [null] in
    it, [getColumnConfig] returns the normalized default configuration,
    keeps it in memory and leaves [localStorage] as it is. *)
Theorem X2_unusable_storage_gives_default (j : json) (storageKey : JS.value)
    (storage : gmap string string) :
  let s := loaded storageKey storage in
  let fallback := normalizeColumnsConfig (Some (stored <$> getDefaultColumnsConfig)) in
  storage !! getColumnsStorageKey s = None ∨
  (∃ text, storage !! getColumnsStorageKey s = Some text ∧
     (text = "" ∨ JSON_parse j text = None ∨
      ∃ parsed, JSON_parse j text = Some parsed ∧
        (JS.truthy parsed = true ∧ JS.isArray parsed = false ∨
         ∃ items, parsed = JS.VArr items ∧ JS.VNull ∈ items))) →
  getColumnConfig j s = (fallback, mkStore storageKey None (Some fallback) storage).
Proof.
  intros s fallback H.
  assert (persisted j s = None) as Hp.
  { unfold persisted. change (localStorage s) with storage.
    destruct H as [-> | (text & -> & H)]; [done|]. simpl.
    destruct H as [-> | [H | (parsed & H & Hshape)]]; [done| |].
    - rewrite H. by destruct (String.eqb text "").
    - rewrite H. destruct (String.eqb text ""); [done|]. simpl.
      assert (config_of parsed = None) as ->; [|done].
      unfold config_of. destruct Hshape as [[Ht Ha] | (items & -> & Hin)].
      + rewrite Ht. simpl. by destruct parsed.
      + simpl. destruct (mapM item_of items) as [l|] eqn:E; [|done].
        exfalso. apply mapM_Some in E.
        apply list_elem_of_lookup_1 in Hin as [i Hi].
        destruct (Forall2_lookup_l _ _ _ _ _ E Hi) as (? & _ & ?). done. }
  unfold getColumnConfig. change (tempColumnConfig s) with (@None (list ColumnConfig)).
  change (cachedColumnsConfig s) with (@None (list ColumnConfig)).
  cbv iota. by rewrite Hp.
Qed.

Lemma X2_witness :
  (getColumnConfig urf_json broken_storage).1 =
  normalizeColumnsConfig (Some (stored <$> getDefaultColumnsConfig)).
Proof.
  unfold broken_storage.
  rewrite (X2_unusable_storage_gives_default urf_json JS.VUndefined
             {[DASHBOARD_COLUMNS_STORAGE_KEY_DEFAULT := "{oops"]}); [reflexivity|].
  right. exists "{oops". split; [reflexivity|]. right. left. reflexivity.
Defined.

(** X3: after [saveColumnConfig(config)], [getColumnConfig] returns the
    normal form of [config], whatever was previewed or held in memory
    before; and when the host's JSON reads the saved text back as the
    array of objects that was written, a freshly loaded page with that
    [localStorage] returns the same configuration. *)
Theorem X3_saved_config_survives_reload (j : json)
    (config : option (list StoredColumn)) (s : store) :
  let saved := saveColumnConfig j config s in
  (getColumnConfig j saved).1 = normalizeColumnsConfig config ∧
  (JSON_stringify j (normalizeColumnsConfig config) ≠ "" →
   JSON_parse j (JSON_stringify j (normalizeColumnsConfig config)) =
     Some (JS.VArr (object_of <$> normalizeColumnsConfig config)) →
   (getColumnConfig j (loaded (dashboardColumnsStorageKey s) (localStorage saved))).1 =
   normalizeColumnsConfig config).
Proof.
  intros saved. split; [reflexivity|]. intros Htext Hparse.
  unfold getColumnConfig, loaded.
  cbn [tempColumnConfig cachedColumnsConfig fst].
  assert (persisted j (mkStore (dashboardColumnsStorageKey s) None None
                               (localStorage saved)) =
          Some (normalizeColumnsConfig config)) as ->; [|done].
  unfold persisted, saved, saveColumnConfig, clearTempColumnConfig.
  cbn [localStorage dashboardColumnsStorageKey].
  change (getColumnsStorageKey (mkStore (dashboardColumnsStorageKey s) None None ?m))
    with (getColumnsStorageKey s).
  rewrite lookup_insert_eq. cbn [mbind option_bind].
  destruct (String.eqb_spec (JSON_stringify j (normalizeColumnsConfig config)) "");
    [done|].
  rewrite Hparse. cbn [mbind option_bind]. unfold config_of. cbn [JS.truthy negb].
  rewrite mapM_item_of_object. cbn [fmap option_fmap option_map mbind option_bind].
  by rewrite normalize_normalized.
Qed.

Lemma X3_witness :
  (getColumnConfig urf_json
     (loaded JS.VUndefined
        (localStorage (saveColumnConfig urf_json persisted_urf broken_storage)))).1 =
  normalizeColumnsConfig persisted_urf.
Proof.
  apply (X3_saved_config_survives_reload urf_json persisted_urf broken_storage);
    [discriminate|reflexivity].
Defined.

(** X4: the columns [getVisibleColumns] returns are the registry rows of
    the entries of the current configuration that are visible, in the
    order the configuration has them; every fixed column is among them,
    and so is no column that is not in the registry. *)
Theorem X4_getVisibleColumns_follow_config (j : json) (storageKey : JS.value)
    (storage : gmap string string) (ops : list operation) :
  let s := run j (loaded storageKey storage) ops in
  col_id <$> (getVisibleColumns j s).1 =
    id <$> filter (λ c, visible c = true) (getColumnConfig j s).1 ∧
  (∀ col, col ∈ AVAILABLE_COLUMNS → col_fixed col = true →
          col ∈ (getVisibleColumns j s).1) ∧
  (∀ col, col ∈ (getVisibleColumns j s).1 → col ∈ AVAILABLE_COLUMNS).
Proof.
  intros s.
  assert (settled s) as Hs by apply run_settled, loaded_settled.
  destruct (getColumnConfig_settled j s Hs) as [[given Hgiven] _].
  unfold getVisibleColumns. destruct (getColumnConfig j s) as [config s'].
  cbn [fst] in *. subst config. split; [apply visible_columns_ids|]. split.
  - intros col Hcol Hfixed. rewrite sort_Permutation.
    apply list_elem_of_filter. split; [|done].
    assert (col_id col ∈ id <$> normalizeColumnsConfig given) as Hid.
    { rewrite normalize_ids. by apply list_elem_of_fmap_2. }
    apply list_elem_of_fmap in Hid as (c & E & Hc). rewrite E.
    rewrite (visibleIds_of_lookup _ c); [done|apply normalize_ids_NoDup|done|].
    by apply (normalize_fixed given c col).
  - intros col. rewrite sort_Permutation. by intros [_ ?]%list_elem_of_filter.
Qed.

Lemma X4_witness :
  ∃ col, col_id col = "acoes" ∧ col ∈ (getVisibleColumns urf_json broken_storage).1.
Proof.
  exists (mkCol "acoes" "Ações" true true (Some false) (Some false) "acoes"
                "Identificação" 0).
  split; [reflexivity|].
  apply (X4_getVisibleColumns_follow_config urf_json JS.VUndefined
           {[DASHBOARD_COLUMNS_STORAGE_KEY_DEFAULT := "{oops"]} []);
    [apply (list_elem_of_lookup_2 _ 0%nat)|]; reflexivity.
Defined.

(** X5: [resetColumnConfigToDefault] is a preview.  The configuration it
    returns is the normalized default; [getColumnConfig] returns that
    configuration afterwards; [localStorage] and the configuration held in
    memory are untouched, so that after [clearTempColumnConfig]
    [getColumnConfig] answers as if there had been no reset; and saving the
    returned configuration makes it the current one. *)
Theorem X5_reset_is_a_preview (j : json) (s : store) :
  let config := (resetColumnConfigToDefault s).1 in
  let s' := (resetColumnConfigToDefault s).2 in
  config = normalizeColumnsConfig (Some (stored <$> getDefaultColumnsConfig)) ∧
  (getColumnConfig j s').1 = config ∧
  localStorage s' = localStorage s ∧
  cachedColumnsConfig s' = cachedColumnsConfig s ∧
  getColumnConfig j (clearTempColumnConfig s') =
    getColumnConfig j (clearTempColumnConfig s) ∧
  (getColumnConfig j (saveColumnConfig j (Some (stored <$> config)) s')).1 = config.
Proof.
  intros config s'. split; [reflexivity|]. split.
  - unfold s', config, resetColumnConfigToDefault, setTempColumnConfig, getColumnConfig.
    cbn [fst snd tempColumnConfig]. apply normalize_normalized.
  - split; [reflexivity|]. split; [reflexivity|]. split; [reflexivity|].
    unfold saveColumnConfig, clearTempColumnConfig, getColumnConfig.
    cbn [fst snd tempColumnConfig cachedColumnsConfig].
    apply normalize_normalized.
Qed.

End ColumnStoreProperties.

(** ** Requests and retries *)

Section RequestProperties.
Import Cache Loader RequestLog Timing.

Lemma registered_snoc keys key :
  registered (keys ++ [key]) = (Requests.fetchWithAbort key (registered keys)).1.
Proof. unfold registered. by rewrite foldl_snoc. Qed.

(** The registry of controllers after a sequence of calls. *)
Lemma registered_registry (keys : list string) :
  Requests.created (registered keys) = length keys ∧
  (∀ key c, Requests.requestControllers (registered keys) !! key = Some c ↔
            keys !! c = Some key ∧ ∀ j, (c < j)%nat → keys !! j ≠ Some key) ∧
  (∀ c, c ∈ Requests.aborted (registered keys) ↔ requested_again keys c).
Proof.
  induction keys as [|k keys (Hcreated & Hcurrent & Haborted)] using rev_ind.
  { unfold registered. simpl. split; [done|]. split.
    - intros key c. split; [by rewrite lookup_empty|by intros [? _]].
    - intros c. split; [by rewrite elem_of_empty|by intros (? & ? & _ & ? & _)]. }
  rewrite registered_snoc. unfold Requests.fetchWithAbort. cbn [fst].
  cbn [Requests.created Requests.requestControllers Requests.aborted].
  rewrite Hcreated.
  assert (∀ key c,
            <[k := length keys]> (Requests.requestControllers (registered keys)) !! key
              = Some c ↔
            (keys ++ [k]) !! c = Some key ∧
            ∀ j, (c < j)%nat → (keys ++ [k]) !! j ≠ Some key) as Hcurrent'.
  { intros key c. destruct (decide (k = key)) as [<-|Hne].
    - rewrite lookup_insert_eq. split.
      + intros [= <-]. split; [by rewrite list_lookup_middle|].
        intros j Hj. rewrite lookup_ge_None_2; [done|]. rewrite length_app. simpl. lia.
      + intros [Hc Hlast]. f_equal.
        destruct (decide (c < length keys)%nat) as [Hlt|Hge].
        * destruct (Hlast (length keys) Hlt). by rewrite list_lookup_middle.
        * apply lookup_lt_Some in Hc. rewrite length_app in Hc. simpl in Hc. lia.
    - rewrite lookup_insert_ne by done. rewrite Hcurrent. split.
      + intros [Hc Hlast]. split; [by apply lookup_app_l_Some|].
        intros j Hj. destruct (decide (j < length keys)%nat) as [Hlt|Hge].
        * rewrite lookup_app_l by done. by apply Hlast.
        * destruct (decide (j = length keys)) as [->|?].
          -- rewrite list_lookup_middle by done. congruence.
          -- rewrite lookup_ge_None_2; [done|]. rewrite length_app. simpl. lia.
      + intros [Hc Hlast].
        assert (c < length keys)%nat as Hlt.
        { apply lookup_lt_Some in Hc as Hlen. rewrite length_app in Hlen. simpl in Hlen.
          destruct (decide (c = length keys)) as [->|?]; [|lia].
          rewrite list_lookup_middle in Hc by done. congruence. }
        rewrite lookup_app_l in Hc by done. split; [done|].
        intros j Hj Hkj. apply (Hlast j Hj). by apply lookup_app_l_Some. }
  split; [rewrite length_app; simpl; lia|]. split; [exact Hcurrent'|].
  intros c. split.
  - intros Hc.
    assert (c ∈ Requests.aborted (registered keys) ∨
            Requests.requestControllers (registered keys) !! k = Some c) as [Hin|Hprev].
    { destruct (Requests.requestControllers (registered keys) !! k) as [previous|];
        [|by left].
      apply elem_of_union in Hc as [->%elem_of_singleton|?]; auto. }
    + apply Haborted in Hin as (j & key & Hj & Hc1 & Hj1).
      exists j, key. split; [done|]. split; by apply lookup_app_l_Some.
    + apply Hcurrent in Hprev as [Hc1 _].
      exists (length keys), k. split; [by apply lookup_lt_Some in Hc1|].
      split; [by apply lookup_app_l_Some|by rewrite list_lookup_middle].
  - intros (j & key & Hj & Hc1 & Hj1).
    assert (c ∈ Requests.aborted (registered keys) ∨
            Requests.requestControllers (registered keys) !! k = Some c) as [Hin|Hprev].
    { destruct (decide (c ∈ Requests.aborted (registered keys))) as [?|Hnot]; [by left|].
      right. apply lookup_lt_Some in Hj1 as Hlen. rewrite length_app in Hlen.
      simpl in Hlen. assert (c < length keys)%nat as Hlt by lia.
      rewrite lookup_app_l in Hc1 by done.
      destruct (decide (j = length keys)) as [->|?].
      - rewrite list_lookup_middle in Hj1 by done. injection Hj1 as ->.
        apply Hcurrent. split; [done|]. intros j' Hj' Hkj'.
        apply Hnot, Haborted. by exists j', key.
      - rewrite lookup_app_l in Hj1 by lia.
        destruct Hnot. apply Haborted. by exists j, key. }
    + destruct (Requests.requestControllers (registered keys) !! k); [|done].
      apply elem_of_union. by right.
    + rewrite Hprev. apply elem_of_union. left. by apply elem_of_singleton.
Qed.

(** A call at an inherited name leaves the registry as it is. *)
Lemma issued_with_controller (keys : list string) :
  issued keys = registered (with_controller keys).
Proof.
  unfold issued, registered, with_controller. generalize Requests.none.
  induction keys as [|key keys IH]; intros r; [done|].
  rewrite filter_cons. cbn [foldl]. unfold fetchWithAbort at 2.
  destruct (inherited key) eqn:E.
  - rewrite decide_False by done. apply IH.
  - rewrite decide_True by done. cbn [foldl]. rewrite <- IH. by cbn.
Qed.

(** X6: after any sequence of [fetchWithAbort] calls on a fresh page, the
    calls whose key is a property name that [requestControllers] inherits
    from [Object.prototype] have left nothing behind: they take the
    [catch] branch, which creates, registers and aborts no controller.
    The other calls have created one controller each, numbered in their
    order; the controller registered for a key is the one of the last such
    call for that key, and the controllers that were aborted are exactly
    those whose key was requested again later. *)
Theorem X6_aborted_iff_requested_again (keys : list string) :
  issued keys = issued (with_controller keys) ∧
  Requests.created (issued keys) = length (with_controller keys) ∧
  (∀ key c, Requests.requestControllers (issued keys) !! key = Some c ↔
            with_controller keys !! c = Some key ∧
            ∀ j, (c < j)%nat → with_controller keys !! j ≠ Some key) ∧
  (∀ c, c ∈ Requests.aborted (issued keys) ↔
        requested_again (with_controller keys) c) ∧
  (∀ key, inherited key = true →
          Requests.requestControllers (issued keys) !! key = None ∧
          ∀ r, fetchWithAbort key r = (r, None)).
Proof.
  destruct (registered_registry (with_controller keys))
    as (Hcreated & Hcurrent & Haborted).
  assert (with_controller (with_controller keys) = with_controller keys) as Hidem.
  { unfold with_controller. apply list_filter_filter_l. by intros key. }
  rewrite !issued_with_controller, Hidem.
  split; [done|]. split; [exact Hcreated|]. split; [exact Hcurrent|].
  split; [exact Haborted|]. intros key Hkey. split.
  - destruct (Requests.requestControllers _ !! key) as [c|] eqn:E; [|done].
    apply Hcurrent in E as [Hc _]. apply list_elem_of_lookup_2 in Hc.
    apply list_elem_of_filter in Hc as [Hc _]. congruence.
  - intros r. unfold fetchWithAbort. by rewrite Hkey.
Qed.

Lemma X6_witness :
  0%nat ∈ Requests.aborted (issued ["kpis"; "constructor"; "charts"; "kpis"]) ∧
  Requests.requestControllers (issued ["kpis"; "constructor"; "charts"; "kpis"])
    !! "charts" = Some 1%nat ∧
  Requests.requestControllers (issued ["kpis"; "constructor"; "charts"; "kpis"])
    !! "constructor" = None ∧
  Requests.created (issued ["kpis"; "constructor"; "charts"; "kpis"]) = 3%nat.
Proof.
  destruct (X6_aborted_iff_requested_again ["kpis"; "constructor"; "charts"; "kpis"])
    as (_ & Hcreated & Hcurrent & Haborted & Hinherited).
  split; [|split; [|split]].
  - apply Haborted. exists 2%nat, "kpis". split; [lia|]. by split.
  - apply Hcurrent. split; [reflexivity|].
    intros [|[|[|j]]] Hj; try lia; discriminate.
  - by apply Hinherited.
  - exact Hcreated.
Defined.

End RequestProperties.

(** ** The pauses between the attempts of a retry loader *)

Section BackoffProperties.
Import Cache Loader Timing Scenario.

Lemma pauses_app t1 t2 : pauses (t1 ++ t2) = pauses t1 ++ pauses t2.
Proof. unfold pauses. by rewrite omap_app. Qed.

Lemma pauses_called cs : pauses (Called <$> cs) = [].
Proof. induction cs as [|c cs IH]; [done|exact IH]. Qed.

Lemma attempts_called cs : attempts (Called <$> cs) = 0%nat.
Proof. induction cs as [|c cs IH]; [done|exact IH]. Qed.

(** The two blocks of the four loaders add nothing but calls to the trace. *)
Lemma loaders_only_call u L :
  L ∈ loaders u →
  (∀ r now p, ∃ cs, trace (settle L r now p).1 = trace p ++ (Called <$> cs)) ∧
  (∀ e now p, ∃ cs, trace (exhausted L e now p).1 = trace p ++ (Called <$> cs)).
Proof.
  intros HL. unfold loaders in HL.
  repeat (apply elem_of_cons in HL as [->|HL]); [..|by inversion HL].
  - split.
    + intros [e|e|result] now p; try (exists []; by rewrite app_nil_r).
      simpl. destruct (JS.nullish result); [exists []; by rewrite app_nil_r|].
      destruct (_ && _); [by eexists [_]|exists []; by rewrite app_nil_r].
    + intros e now p. simpl. destruct (JS.truthy _);
        [|exists []; by rewrite app_nil_r].
      unfold call_into, and_then. destruct (u p _); by eexists [_].
  - split.
    + intros [e|e|result] now p; try (exists []; by rewrite app_nil_r).
      simpl. destruct (JS.nullish result); [exists []; by rewrite app_nil_r|].
      destruct (_ && _); [|exists []; by rewrite app_nil_r].
      destruct (JS.defined _); unfold call_into.
      * destruct (u p _); simpl; [by eexists [_]|eexists [_; _]].
        by rewrite <- app_assoc.
      * by eexists [_].
    + intros e now p. simpl. unfold call_into, and_then.
      destruct (JS.truthy _); destruct (u p _); by eexists [_].
  - split.
    + intros [e|e|result] now p; try (exists []; by rewrite app_nil_r).
      simpl. destruct (JS.nullish result); [exists []; by rewrite app_nil_r|].
      destruct (_ && _); [by eexists [_]|exists []; by rewrite app_nil_r].
    + intros e now p. simpl. unfold call_into, and_then.
      destruct (JS.truthy _); destruct (u p _); by eexists [_].
  - split.
    + intros [e|e|result] now p; try (exists []; by rewrite app_nil_r).
      simpl. destruct (JS.nullish result); [exists []; by rewrite app_nil_r|].
      destruct (_ && _); [by eexists [_]|exists []; by rewrite app_nil_r].
    + intros e now p. simpl. unfold call_into, and_then.
      destruct (JS.truthy _); destruct (u p _); by eexists [_].
Qed.

(** The loop from [attempt] on, when it stops at attempt [attempt + k]. *)
Lemma loop_stops L res maxRetries k :
  (∀ r now p, ∃ cs, trace (settle L r now p).1 = trace p ++ (Called <$> cs)) →
  (∀ e now p, ∃ cs, trace (exhausted L e now p).1 = trace p ++ (Called <$> cs)) →
  ∀ remaining attempt p rq,
    (∀ i, (attempt ≤ i < attempt + k)%nat → failed L (res i).1) →
    (attempt + k ≤ maxRetries)%nat →
    (attempt + k < maxRetries → accepted L (res (attempt + k)%nat).1)%nat →
    (k < remaining)%nat →
    let p' := (loop L res maxRetries remaining attempt p rq).1.1 in
    attempts (trace p') = (attempts (trace p) + S k)%nat ∧
    pauses (trace p') =
      pauses (trace p) ++ ((λ i, 1000 * Z.of_nat i) <$> seq attempt k).
Proof.
  intros Hsettle Hexhausted.
  induction k as [|k IH]; intros remaining attempt p rq Hrej Hle Hacc Hrem p';
    subst p'; (destruct remaining as [|remaining]; [lia|]); rewrite loop_step; cbv zeta;
    set (p1 := log (Requested (key L) (Requests.created rq)) p);
    destruct (Hsettle (res attempt).1 (res attempt).2 p1) as [cs Hcs];
    assert (attempts (trace p1) = (attempts (trace p) + 1)%nat ∧
            pauses (trace p1) = pauses (trace p)) as [Ha Hp]
      by (unfold p1, log; simpl; rewrite attempts_app, pauses_app; simpl;
          split; [done|apply app_nil_r]).
  - rewrite Nat.add_0_r in Hacc.
    destruct (settle L (res attempt).1 (res attempt).2 p1) as [p2 [error|]] eqn:E;
      cbn [fst] in Hcs.
    + destruct (Nat.eqb_spec attempt maxRetries) as [->|Hne].
      * destruct (Hexhausted error (res maxRetries).2 p2) as [cs' Hcs'].
        destruct (exhausted L error (res maxRetries).2 p2) as [p3 o]. cbn [fst] in *.
        rewrite Hcs', Hcs, !attempts_app, !pauses_app, !attempts_called, !pauses_called.
        rewrite Ha, Hp, !app_nil_r. split; [lia|done].
      * assert (attempt < maxRetries)%nat as Hlt by lia.
        pose proof (Hacc Hlt (res attempt).2 p1) as Hnone. rewrite E in Hnone. done.
    + cbn [fst]. rewrite Hcs, !attempts_app, !pauses_app, attempts_called, pauses_called.
      rewrite Ha, Hp, !app_nil_r. split; [lia|done].
  - assert (failed L (res attempt).1) as Hfailed by (apply Hrej; lia).
    specialize (Hfailed (res attempt).2 p1).
    destruct (settle L (res attempt).1 (res attempt).2 p1) as [p2 [error|]] eqn:E;
      [|done]. cbn [fst] in Hcs.
    destruct (Nat.eqb_spec attempt maxRetries) as [->|_]; [lia|].
    destruct (IH remaining (S attempt) (sleep attempt p2)
                (Requests.fetchWithAbort (key L) rq).1) as [Ha' Hp'].
    { intros i Hi. apply Hrej. lia. }
    { lia. }
    { replace (S attempt + k)%nat with (attempt + S k)%nat by lia. exact Hacc. }
    { lia. }
    rewrite Ha', Hp'. unfold sleep, log. cbn [trace].
    rewrite Hcs, !attempts_app, !pauses_app, attempts_called, pauses_called, Ha, Hp.
    change (attempts [Slept ?a]) with 0%nat.
    change (pauses [Slept ?a]) with [a].
    rewrite app_nil_r, <- app_assoc. split; [lia|done].
Qed.

Lemma total_linear n : total (linear n) = 500 * Z.of_nat n * (Z.of_nat n + 1).
Proof.
  unfold linear.
  assert (∀ m, total ((λ i, 1000 * Z.of_nat i) <$> seq m n) =
               500 * Z.of_nat n * (2 * Z.of_nat m + Z.of_nat n - 1)) as Hgen.
  { induction n as [|n IH]; intros m; [simpl; lia|].
    cbn [seq fmap list_fmap total foldr]. fold (total ((λ i, 1000 * Z.of_nat i) <$> seq (S m) n)).
    rewrite IH. lia. }
  rewrite Hgen. lia.
Qed.

(** X7: on a page whose functions behave in any way [u], each of the four
    retry loaders pauses [1000 * attempt] ms after a failed attempt that is
    not the last one allowed and at no other time, whatever made the
    attempt fail (the request, the body of the answer, or an updater that
    throws).  When the attempts before [N] fail and the loader stops at
    attempt [N] (an attempt whose [try] block returns, or the last one
    allowed) it has made [N] requests and paused after the attempts
    1, ..., [N - 1]: 1000, 2000, ..., 1000 (N - 1) ms, which is
    500 N (N - 1) ms in all. *)
Theorem X7_linear_backoff (u : updaters) (L : retry_loader) (maxRetries N : nat)
    (res : resource) (p : page) (rq : Requests.requests) :
  L ∈ loaders u →
  (1 ≤ N ≤ maxRetries)%nat →
  (∀ i, (1 ≤ i < N)%nat → failed L (res i).1) →
  (N < maxRetries → accepted L (res N).1)%nat →
  attempts (trace (withRetry L maxRetries res p rq).1.1) =
    (attempts (trace p) + N)%nat ∧
  pauses (trace (withRetry L maxRetries res p rq).1.1) =
    pauses (trace p) ++ linear (N - 1) ∧
  total (linear (N - 1)) = 500 * Z.of_nat N * (Z.of_nat N - 1).
Proof.
  intros HL HN Hrej Hacc. destruct (loaders_only_call u L HL) as [Hsettle Hexhausted].
  destruct (loop_stops L res maxRetries (N - 1) Hsettle Hexhausted
              maxRetries 1%nat p rq) as [Ha Hp].
  - intros i Hi. apply Hrej. lia.
  - lia.
  - replace (1 + (N - 1))%nat with N by lia. exact Hacc.
  - lia.
  - unfold withRetry. split; [rewrite Ha; lia|]. split; [exact Hp|].
    rewrite total_linear. replace (Z.of_nat (N - 1)) with (Z.of_nat N - 1) by lia. lia.
Qed.

(** The answer [{success: true, operations: [null]}] on a page whose table
    throws on it: the first attempt fails in the updater, the loader
    pauses a second and asks again. *)
Lemma X7_witness :
  pauses (trace (loadRecentOperationsWithRetry strict_table 2
                   (λ _, (Json null_operations, 4000))
                   (mkPage Cache.initial []) Requests.none).1.1) = [1000] ∧
  attempts (trace (loadRecentOperationsWithRetry strict_table 2
                     (λ _, (Json null_operations, 4000))
                     (mkPage Cache.initial []) Requests.none).1.1) = 2%nat.
Proof.
  destruct (X7_linear_backoff strict_table (loadRecentOperations strict_table) 2 2
              (λ _, (Json null_operations, 4000)) (mkPage Cache.initial [])
              Requests.none) as (Ha & Hp & _).
  - unfold loaders. right. right. by left.
  - lia.
  - intros i _ now p. by vm_compute.
  - lia.
  - split; [exact Hp|exact Ha].
Defined.

End BackoffProperties.

(** ** The base data loader *)

Section BaseDataFacts.
Import Loader BaseData.
Context (h : Table.host) (host_message : exn → string).

Lemma base_pauses_app l1 l2 : BaseData.pauses (l1 ++ l2) = BaseData.pauses l1 ++ BaseData.pauses l2.
Proof. unfold BaseData.pauses. by rewrite omap_app. Qed.

Lemma fetches_app l1 l2 : fetches (l1 ++ l2) = (fetches l1 + fetches l2)%nat.
Proof. unfold fetches. by rewrite List.filter_app, length_app. Qed.

(** [k] failed attempts in a row, none of them the last one allowed. *)
Lemma base_loop_failed res maxRetries k :
  ∀ remaining attempt log,
    (∀ i, (attempt ≤ i < attempt + k)%nat → ∃ e, fails h (res i) e) →
    (attempt + k ≤ maxRetries)%nat →
    ∃ log',
      BaseData.loop h host_message res maxRetries (k + remaining) attempt log =
      BaseData.loop h host_message res maxRetries remaining (attempt + k) log' ∧
      fetches log' = (fetches log + k)%nat ∧
      BaseData.pauses log' = BaseData.pauses log ++ (delay <$> seq attempt k).
Proof.
  induction k as [|k IH]; intros remaining attempt log Hfail Hle.
  { exists log. rewrite !Nat.add_0_r, app_nil_r. done. }
  destruct (Hfail attempt) as [e He]; [lia|]. unfold fails in He.
  change (S k + remaining)%nat with (S (k + remaining)). cbn [BaseData.loop].
  rewrite He. destruct (Nat.eqb_spec attempt maxRetries) as [->|_]; [lia|].
  destruct (IH remaining (S attempt)
              (log ++ [Fetched; BaseData.Slept (delay attempt)]))
    as (log' & Hloop & Hf & Hp).
  { intros i Hi. apply Hfail. lia. }
  { lia. }
  exists log'. rewrite Hloop, Hf, Hp, fetches_app, base_pauses_app, <- app_assoc.
  split; [f_equal; lia|]. split; [|done].
  change (fetches [Fetched; BaseData.Slept ?ms]) with 1%nat. lia.
Qed.

Lemma total_doubling n :
  Timing.total (doubling n) = (2 ^ Z.of_nat (S n) - 2) * 1000.
Proof.
  unfold doubling.
  assert (∀ m, Timing.total ((λ i, 2 ^ Z.of_nat i * 1000) <$> seq m n) =
               (2 ^ Z.of_nat (m + n) - 2 ^ Z.of_nat m) * 1000) as Hgen.
  { induction n as [|n IH]; intros m.
    - rewrite Nat.add_0_r. simpl. lia.
    - cbn [seq fmap list_fmap Timing.total foldr].
      fold (Timing.total ((λ i, 2 ^ Z.of_nat i * 1000) <$> seq (S m) n)).
      rewrite IH. replace (S m + n)%nat with (m + S n)%nat by lia.
      rewrite (Nat2Z.inj_succ m), Z.pow_succ_r by lia. lia. }
  rewrite Hgen. replace (1 + n)%nat with (S n) by lia. done.
Qed.

(** Up to attempt 1014 the delays are the exact doubles. *)
Lemma delay_doubling n :
  (n ≤ 1014)%nat → delay <$> seq 1 n = JS.of_Z <$> doubling n.
Proof.
  intros Hn. unfold doubling. rewrite <- list_fmap_compose.
  apply Forall_fmap_ext_1, Forall_forall. intros i Hi. apply elem_of_seq in Hi.
  unfold delay, compose.
  destruct (Nat.leb_spec i 1014) as [_|Hgt]; [done|lia].
Qed.

(** From attempt 1015 on the delay is [Infinity]. *)
Lemma delay_overflow i : (1015 ≤ i)%nat → delay i = JS.PosInf.
Proof.
  intros Hi. unfold delay. destruct (Nat.leb_spec i 1014) as [Hle|_]; [lia|done].
Qed.

Lemma nonempty_array_exceeds (d : JS.value) (ds : list JS.value) :
  Table.exceeds h (Table.length_of h (JS.VArr (d :: ds))) 0 = true.
Proof.
  unfold Table.exceeds, Table.length_of, Table.to_number, JS.gt, JS.sub, JS.of_nat,
    JS.of_Z.
  destruct (Qcompare_spec (inject_Z (Z.of_nat (length (d :: ds))) - inject_Z 0) 0)
    as [E|E|E]; [| |done].
  - exfalso. revert E. unfold Qeq. simpl. lia.
  - exfalso. revert E. unfold Qlt. simpl. lia.
Qed.

End BaseDataFacts.

Section BaseDataProperties.
Import Loader BaseData Scenario.

(** X8: when the first [N - 1] attempts of [loadDataWithRetry] fail and
    the answer to attempt [N] (at most [maxRetries]) has a truthy [success]
    and a non-empty array as [data], the loader returns that array after
    [N] requests and one timer after each failed attempt, set to
    [Math.pow(2, attempt) * 1000].  Up to [N = 1015] these delays are
    2000, 4000, ..., 2^(N-1) * 1000 ms, (2^N - 2) seconds in all; from
    attempt 1015 on the double overflows and the delay handed to the timer
    is [Infinity]. *)
Theorem X8_base_data_after_failures (h : Table.host) (host_message : exn → string)
    (maxRetries N : nat) (res : nat → response)
    (result d : JS.value) (ds : list JS.value) :
  (1 ≤ N ≤ maxRetries)%nat →
  (∀ i, (1 ≤ i < N)%nat → ∃ e, fails h (res i) e) →
  res N = Json result →
  JS.truthy (JS.field result "success") = true →
  JS.field result "data" = JS.VArr (d :: ds) →
  ∃ log,
    loadDataWithRetry h host_message maxRetries res = (log, Returned (JS.VArr (d :: ds))) ∧
    fetches log = N ∧
    BaseData.pauses log = delay <$> seq 1 (N - 1) ∧
    ((N ≤ 1015)%nat →
     BaseData.pauses log = JS.of_Z <$> doubling (N - 1) ∧
     Timing.total (doubling (N - 1)) = (2 ^ Z.of_nat N - 2) * 1000) ∧
    (∀ i, (1015 ≤ i < N)%nat →
          BaseData.pauses log !! (i - 1)%nat = Some JS.PosInf).
Proof.
  intros HN Hfail Hres Hsuccess Hdata. unfold loadDataWithRetry.
  destruct (base_loop_failed h host_message res maxRetries (N - 1)
              (S (maxRetries - N)) 1%nat [])
    as (log & Hloop & Hf & Hp).
  { intros i Hi. apply Hfail. lia. }
  { lia. }
  replace (N - 1 + S (maxRetries - N))%nat with maxRetries in Hloop by lia.
  replace (1 + (N - 1))%nat with N in Hloop by lia.
  exists (log ++ [Fetched]). rewrite Hloop. cbn [BaseData.loop].
  assert (attempt_body h (res N) = inl (JS.VArr (d :: ds))) as ->.
  { rewrite Hres. unfold attempt_body.
    assert (JS.nullish result = false) as ->.
    { destruct result; try done; discriminate Hdata. }
    rewrite Hsuccess, Hdata, nonempty_array_exceeds. done. }
  split; [done|]. rewrite fetches_app, base_pauses_app, Hf, Hp.
  change (fetches []) with 0%nat. change (fetches [Fetched]) with 1%nat.
  change (BaseData.pauses []) with (@nil JS.number).
  change (BaseData.pauses [Fetched]) with (@nil JS.number).
  rewrite app_nil_r. cbn [app].
  split; [lia|]. split; [done|]. split.
  - intros Hsmall. split; [apply delay_doubling; lia|].
    rewrite total_doubling. by replace (S (N - 1)) with N by lia.
  - intros i Hi. rewrite list_lookup_fmap, lookup_seq_lt by lia.
    cbn [fmap option_fmap option_map]. f_equal.
    replace (1 + (i - 1))%nat with i by lia. apply delay_overflow. lia.
Qed.

Lemma X8_witness :
  ∃ log,
    loadDataWithRetry plain_host (λ _, "") 3 third_time_lucky =
      (log, Returned (JS.VArr [JS.VObj [("ref_unique", JS.VStr "UN-1")]])) ∧
    BaseData.pauses log = [JS.of_Z 2000; JS.of_Z 4000].
Proof.
  destruct (X8_base_data_after_failures plain_host (λ _, "") 3 3 third_time_lucky
              one_record
              (JS.VObj [("ref_unique", JS.VStr "UN-1")]) [])
    as (log & Hrun & _ & _ & Hp & _).
  - lia.
  - intros i Hi. eexists.
    destruct i as [|[|[|i]]]; try lia; (unfold fails; reflexivity).
  - reflexivity.
  - reflexivity.
  - reflexivity.
  - exists log. split; [exact Hrun|]. apply Hp. lia.
Defined.

(** X9: when every attempt of [loadDataWithRetry] fails, the loader throws
    [Falha após n tentativas: ] followed by the message of the last error,
    after [n = maxRetries] requests and one timer after each attempt but
    the last, set to [Math.pow(2, attempt) * 1000]: 2000, 4000, ...,
    2^(n-1) * 1000 ms for [n] up to 1015, and [Infinity] from attempt 1015
    on.  An answer whose [data] is an empty array is a failed attempt,
    whatever its [success]; its error carries the [error] of the answer
    or, without one, the text [Dados não encontrados ou vazios]. *)
Theorem X9_base_data_exhausted (h : Table.host) (host_message : exn → string)
    (maxRetries : nat) (res : nat → response) (e : exn) :
  ((1 ≤ maxRetries)%nat →
   (∀ i, (1 ≤ i < maxRetries)%nat → ∃ e', fails h (res i) e') →
   fails h (res maxRetries) e →
   ∃ log,
     loadDataWithRetry h host_message maxRetries res =
       (log, Threw ("Falha após " +:+ pretty maxRetries +:+ " tentativas: " +:+
                    message h host_message e)) ∧
     fetches log = maxRetries ∧
     BaseData.pauses log = delay <$> seq 1 (maxRetries - 1) ∧
     ((maxRetries ≤ 1015)%nat →
      BaseData.pauses log = JS.of_Z <$> doubling (maxRetries - 1)) ∧
     (∀ i, (1015 ≤ i < maxRetries)%nat →
           BaseData.pauses log !! (i - 1)%nat = Some JS.PosInf)) ∧
  (∀ result, JS.nullish result = false → JS.field result "data" = JS.VArr [] →
     fails h (Json result)
       (Error (JS.or (JS.field result "error")
                     (JS.VStr "Dados não encontrados ou vazios")))).
Proof.
  split.
  - intros Hmax Hfail Hlast. unfold loadDataWithRetry.
    destruct (base_loop_failed h host_message res maxRetries (maxRetries - 1)
                1%nat 1%nat [])
      as (log & Hloop & Hf & Hp).
    { intros i Hi. apply Hfail. lia. }
    { lia. }
    replace (maxRetries - 1 + 1)%nat with maxRetries in Hloop by lia.
    replace (1 + (maxRetries - 1))%nat with maxRetries in Hloop by lia.
    exists (log ++ [Fetched]). rewrite Hloop. cbn [BaseData.loop].
    unfold fails in Hlast. rewrite Hlast, Nat.eqb_refl.
    split; [done|]. rewrite fetches_app, base_pauses_app, Hf, Hp.
    change (fetches []) with 0%nat. change (fetches [Fetched]) with 1%nat.
    change (BaseData.pauses []) with (@nil JS.number).
    change (BaseData.pauses [Fetched]) with (@nil JS.number).
    rewrite app_nil_r. cbn [app].
    split; [lia|]. split; [done|]. split.
    + intros Hsmall. apply delay_doubling. lia.
    + intros i Hi. rewrite list_lookup_fmap, lookup_seq_lt by lia.
      cbn [fmap option_fmap option_map]. f_equal.
      replace (1 + (i - 1))%nat with i by lia. apply delay_overflow. lia.
  - intros result Hnull Hdata. unfold fails, attempt_body.
    rewrite Hnull, Hdata. by rewrite andb_false_r.
Qed.

Lemma X9_witness :
  ∃ log,
    loadDataWithRetry plain_host (λ _, "") 2 (λ _, Json no_records) =
      (log, Threw "Falha após 2 tentativas: Dados não encontrados ou vazios") ∧
    BaseData.pauses log = [JS.of_Z 2000].
Proof.
  destruct (X9_base_data_exhausted plain_host (λ _, "") 2 (λ _, Json no_records)
              (Error (JS.VStr "Dados não encontrados ou vazios")))
    as [Hrun Hempty].
  destruct Hrun as (log & Hrun & _ & _ & Hp & _).
  - lia.
  - intros i _. eexists. by apply Hempty.
  - by apply Hempty.
  - exists log. split; [exact Hrun|]. by apply Hp; lia.
Defined.

End BaseDataProperties.

(** ** Loaders running side by side, key by key *)

Section KeyProperties.
Import Loader EventLoop RequestLog Scenario.

(** The registry of a reachable world is that of a sequence of calls. *)
Lemma reachable_issued w : reachable w → ∃ keys, requests w = registered keys.
Proof.
  intros [inputs ->]. induction inputs as [|i inputs [keys IH]] using rev_ind.
  { by exists []. }
  rewrite exec_app. cbn [exec foldl].
  destruct (step_requests i (exec inputs start)) as [E|[k E]].
  - exists keys. by rewrite E.
  - exists (keys ++ [k]). by rewrite E, IH, registered_snoc.
Qed.

(** A controller that is registered for a key has not been aborted. *)
Lemma current_not_aborted w k c :
  reachable w → Requests.requestControllers (requests w) !! k = Some c →
  c ∉ Requests.aborted (requests w).
Proof.
  intros [keys E]%reachable_issued. rewrite E.
  destruct (registered_registry keys) as (_ & Hcurrent & Haborted).
  intros [Hkc Hlast]%Hcurrent (j & key & Hj & Hc & Hkey)%Haborted.
  rewrite Hkc in Hc. injection Hc as <-. by apply (Hlast j).
Qed.

Lemma fail_other tid' e now w tid :
  tid ≠ tid' → tasks (fail tid' e now w) !! tid = tasks w !! tid.
Proof.
  intros Hne. unfold fail. destruct (tasks w !! tid') as [t|]; [|done].
  destruct (attempt t =? maxRetries t)%nat.
  - destruct (exhausted (loader t) e now (page w)) as [p o]. simpl.
    by rewrite list_lookup_insert_ne.
  - simpl. by rewrite list_lookup_insert_ne.
Qed.

Lemma abort_all_other victims now w tid :
  tid ∉ victims → tasks (abort_all victims now w) !! tid = tasks w !! tid.
Proof.
  revert w. induction victims as [|v vs IH]; intros w Hnin; [done|].
  simpl. rewrite IH by (intros ?; apply Hnin; by right).
  apply fail_other. intros ->. apply Hnin. by left.
Qed.

(** X10: in every state the page can reach, at most one loader is waiting
    for the response of a request under a given key: two waiting tasks
    whose loaders use the same key are the same task; and the request a
    task waits for has not been aborted. *)
Theorem X10_one_request_in_flight_per_key (w : world) (tid1 tid2 : nat)
    (t1 t2 : task) (c1 c2 : nat) :
  reachable w →
  tasks w !! tid1 = Some t1 → tasks w !! tid2 = Some t2 →
  state t1 = Awaiting c1 → state t2 = Awaiting c2 →
  key (loader t1) = key (loader t2) →
  tid1 = tid2 ∧ c1 = c2 ∧ c1 ∉ Requests.aborted (requests w).
Proof.
  intros Hw H1 H2 Hs1 Hs2 Hkey.
  pose proof (reachable_consistent w Hw) as Hcons.
  pose proof (awaited_current w Hcons tid1 t1 c1 H1 Hs1) as Hc1.
  pose proof (awaited_current w Hcons tid2 t2 c2 H2 Hs2) as Hc2.
  rewrite Hkey, Hc2 in Hc1. injection Hc1 as ->.
  split; [by apply (awaited_once w Hcons tid1 tid2 t1 t2 c1)|].
  split; [done|]. by eapply current_not_aborted.
Qed.

(** In [one_request_in_flight] the run that waits for the KPIs is the
    only one, and its request has not been aborted. *)
Lemma X10_witness :
  tasks one_request_in_flight !! 1%nat =
    Some (mkTask (loadDashboardKPIs quiet) 1 1 (Awaiting 1)) ∧
  1%nat ∉ Requests.aborted (requests one_request_in_flight).
Proof.
  split; [reflexivity|].
  apply (X10_one_request_in_flight_per_key one_request_in_flight 1 1
           (mkTask (loadDashboardKPIs quiet) 1 1 (Awaiting 1))
           (mkTask (loadDashboardKPIs quiet) 1 1 (Awaiting 1)) 1 1);
    [by eexists|reflexivity..].
Defined.

(** X11: a call of a loader for one key disturbs no loader that waits for
    a request under another key: the waiting task is left as it is, and
    its request is not aborted. *)
Theorem X11_other_keys_undisturbed (w : world) (L : retry_loader) (n : nat)
    (now : Z) (tid : nat) (t : task) (c : nat) :
  reachable w →
  tasks w !! tid = Some t → state t = Awaiting c → key (loader t) ≠ key L →
  tasks (step (Call L n now) w) !! tid = Some t ∧
  c ∉ Requests.aborted (requests (step (Call L n now) w)).
Proof.
  intros Hw Ht Hs Hkey.
  pose proof (reachable_consistent w Hw) as Hcons.
  pose proof (awaited_current w Hcons tid t c Ht Hs) as Hc.
  pose proof (current_not_aborted w _ c Hw Hc) as Hfresh.
  assert (tid < length (tasks w))%nat as Hlt by (by eapply lookup_lt_Some).
  cbn [step]. unfold begin. cbn [tasks page requests].
  rewrite list_lookup_middle by done. cbn [attempt maxRetries loader].
  destruct (1 <=? n)%nat.
  - unfold issue. cbn [Requests.fetchWithAbort fst snd].
    destruct (Requests.requestControllers (requests w) !! key L) as [previous|] eqn:Hp.
    + assert (previous ≠ c) as Hne.
      { intros ->. apply Hkey. symmetry.
        by apply (current_one_key w Hcons (key L) (key (loader t)) c). }
      rewrite abort_all_requests. cbn [requests Requests.aborted]. split.
      * rewrite abort_all_other.
        -- cbn [tasks]. rewrite list_lookup_insert_ne by lia.
           by apply lookup_app_l_Some.
        -- intros Hin. apply elem_of_awaiting in Hin as (t' & Ht' & Hs').
           rewrite lookup_app_l in Ht' by done. rewrite Ht in Ht'.
           injection Ht' as <-. rewrite Hs in Hs'. by injection Hs'.
      * intros [->%elem_of_singleton|?]%elem_of_union; done.
    + cbn [tasks requests Requests.aborted]. split; [|done].
      rewrite list_lookup_insert_ne by lia. by apply lookup_app_l_Some.
  - cbn [tasks requests]. split; [|done].
    rewrite list_lookup_insert_ne by lia. by apply lookup_app_l_Some.
Qed.

Lemma X11_witness :
  tasks (step (Call (loadDashboardCharts quiet) 2 3000) one_request_in_flight) !! 1%nat =
    Some (mkTask (loadDashboardKPIs quiet) 1 1 (Awaiting 1)) ∧
  1%nat ∉ Requests.aborted
            (requests (step (Call (loadDashboardCharts quiet) 2 3000) one_request_in_flight)).
Proof.
  apply (X11_other_keys_undisturbed one_request_in_flight (loadDashboardCharts quiet) 2 3000
           1 (mkTask (loadDashboardKPIs quiet) 1 1 (Awaiting 1)) 1);
    [by eexists|reflexivity|reflexivity|discriminate].
Defined.

End KeyProperties.

(** ** Loaders that store without retrying, and the recovery from the cache *)

Section CacheLoaderProperties.
Import Cache Loader CacheLoader Recovery Scenario.



(** X13: when the cache is not valid at any of the four readings of
    [attemptCacheRecovery] (nothing was stored, [invalidate()] was called,
    or the timeout has passed), the recovery draws the empty charts, the
    empty table and the empty filter options, in that order, leaves the
    KPIs as they are, reports the error and leaves the cache as it is.
    This is the case right after [invalidate()], whatever was cached when
    it was called. *)
Theorem X13_recovery_finds_nothing (clock : kind → Z) (p : page) :
  ((∀ type, Cache.isValid (clock type) (cache p) = false) →
   attemptCacheRecovery clock p =
   (mkPage (cache p)
           (trace p ++ [Called createEmptyCharts;
                        Called (updateRecentOperationsTable (JS.VArr []));
                        Called (populateFilterOptions emptyFilterOptions)]),
    showError "Não foi possível carregar os dados. Tente recarregar a página.")) ∧
  attemptCacheRecovery clock (mkPage (invalidate (cache p)) (trace p)) =
  (mkPage (invalidate (cache p))
          (trace p ++ [Called createEmptyCharts;
                       Called (updateRecentOperationsTable (JS.VArr []));
                       Called (populateFilterOptions emptyFilterOptions)]),
   showError "Não foi possível carregar os dados. Tente recarregar a página.").
Proof.
  assert (∀ q, (∀ type, Cache.isValid (clock type) (cache q) = false) →
               attemptCacheRecovery clock q =
               (mkPage (cache q)
                  (trace q ++ [Called createEmptyCharts;
                               Called (updateRecentOperationsTable (JS.VArr []));
                               Called (populateFilterOptions emptyFilterOptions)]),
                showError "Não foi possível carregar os dados. Tente recarregar a página."))
    as Hgen.
  { intros q Hinvalid. unfold attemptCacheRecovery.
    rewrite !get_invalid by apply Hinvalid. cbn [JS.truthy].
    unfold invoke, log. cbn [cache trace Nat.ltb Nat.leb]. by rewrite <- !app_assoc. }
  split; [apply Hgen|]. by apply (Hgen (mkPage _ _)).
Qed.

Lemma X13_witness :
  calls (trace (attemptCacheRecovery (λ _, 2000)
                  (mkPage (invalidate (cache page_with_kpis)) [])).1) =
  [createEmptyCharts; updateRecentOperationsTable (JS.VArr []);
   populateFilterOptions emptyFilterOptions].
Proof.
  destruct (X13_recovery_finds_nothing (λ _, 2000)
              (mkPage (invalidate (cache page_with_kpis)) [])) as [Hrun _].
  rewrite Hrun; [reflexivity|]. intros type. reflexivity.
Defined.

End CacheLoaderProperties.

(** ** HTML escaping, text by text *)

Section EscapeProperties.
Import Html.

Lemma escape_app s1 s2 : escape (s1 +:+ s2) = escape s1 +:+ escape s2.
Proof.
  induction s1 as [|a s1 IH]; [done|].
  rewrite append_cons. cbn [escape]. by rewrite IH, append_assoc.
Qed.

Lemma escapeHtml_text host s : Html.escapeHtml host (JS.VStr s) = escape s.
Proof. unfold Html.escapeHtml. cbn [JS.nullish String_]. apply five_passes. Qed.

Lemma length_append (s t : string) :
  String.length (s +:+ t) = (String.length s + String.length t)%nat.
Proof. induction s as [|a s IH]; [done|]. rewrite append_cons. simpl. by rewrite IH. Qed.

(** What one character becomes: itself, or [&] and the rest of its
    entity. *)
Lemma escaped_cases a :
  (a ≠ amp ∧ ¬ special a ∧ escaped a = String a "") ∨
  ((a = amp ∨ special a) ∧ ∃ tail, escaped a = String amp tail ∧ tail ≠ "").
Proof.
  unfold escaped, special.
  destruct (Ascii.eqb_spec a amp) as [->|Hamp]; [right; split; [by left|by eexists]|].
  destruct (Ascii.eqb_spec a lt) as [->|Hlt];
    [right; split; [right; by left|by eexists]|].
  destruct (Ascii.eqb_spec a gt) as [->|Hgt];
    [right; split; [right; right; by left|by eexists]|].
  destruct (Ascii.eqb_spec a quot) as [->|Hquot];
    [right; split; [right; right; right; by left|by eexists]|].
  destruct (Ascii.eqb_spec a apos) as [->|Hapos];
    [right; split; [right; right; right; by right|by eexists]|].
  left. split; [done|]. split; [|done]. intros [?|[?|[?|?]]]; done.
Qed.

Lemma length_escape s : (String.length s ≤ String.length (escape s))%nat.
Proof.
  induction s as [|a s IH]; [done|]. cbn [escape]. rewrite length_append.
  destruct (escaped_cases a) as [(_ & _ & ->)|(_ & tail & -> & _)]; simpl; lia.
Qed.

(** The text of one character determines the character. *)
Lemma escaped_inj a b r1 r2 :
  escaped a +:+ r1 = escaped b +:+ r2 → a = b ∧ r1 = r2.
Proof.
  unfold escaped.
  repeat match goal with
         | |- context [Ascii.eqb ?x ?c] => destruct (Ascii.eqb_spec x c); subst
         end;
    rewrite ?append_cons; cbn; intros E; injection E; intros; subst;
    try done; try (split; congruence).
Qed.

Lemma escape_inj s1 s2 : escape s1 = escape s2 → s1 = s2.
Proof.
  revert s2. induction s1 as [|a s1 IH]; intros [|b s2]; cbn [escape]; [done| | |].
  - intros E. destruct (escaped_cases b) as [(_ & _ & Hb)|(_ & tail & Hb & _)];
      rewrite Hb in E; discriminate E.
  - intros E. destruct (escaped_cases a) as [(_ & _ & Ha)|(_ & tail & Ha & _)];
      rewrite Ha in E; discriminate E.
  - intros [-> E]%escaped_inj. f_equal. by apply IH.
Qed.

(** X14: escaping a text piece by piece gives the escaped text:
    [escapeHtml(s1 + s2) = escapeHtml(s1) + escapeHtml(s2)], although the
    five replacements run one after the other over the whole text; and the
    result is the text in which each character is replaced once, by its
    entity or by itself. *)
Theorem X14_escapeHtml_concatenation (host : JS.value → string) (s1 s2 : string) :
  Html.escapeHtml host (JS.VStr (s1 +:+ s2)) =
    Html.escapeHtml host (JS.VStr s1) +:+ Html.escapeHtml host (JS.VStr s2) ∧
  Html.escapeHtml host (JS.VStr s1) = escape s1.
Proof. rewrite !escapeHtml_text. split; [apply escape_app|done]. Qed.

(** X15: [escapeHtml] loses nothing of a text: two texts with the same
    escaped form are the same text. *)
Theorem X15_escapeHtml_injective (host : JS.value → string) (s1 s2 : string) :
  Html.escapeHtml host (JS.VStr s1) = Html.escapeHtml host (JS.VStr s2) → s1 = s2.
Proof. rewrite !escapeHtml_text. apply escape_inj. Qed.

Lemma X15_witness : "a<b" = "a<b".
Proof. apply (X15_escapeHtml_injective (λ _, "") "a<b" "a<b"). reflexivity. Defined.

(** X16: [escapeHtml] returns a text unchanged exactly when the text has
    none of the five characters [&], [<], [>], the double quote and the
    apostrophe; any other text comes back longer. *)
Theorem X16_escapeHtml_fixed_points (host : JS.value → string) (s : string) :
  (Html.escapeHtml host (JS.VStr s) = s ↔
   ∀ a, occurs a s → a ≠ amp ∧ ¬ special a) ∧
  (Html.escapeHtml host (JS.VStr s) ≠ s →
   (String.length s < String.length (Html.escapeHtml host (JS.VStr s)))%nat).
Proof.
  rewrite escapeHtml_text.
  assert (escape s = s ∨ (String.length s < String.length (escape s))%nat) as Hlen.
  { induction s as [|a s IH]; [by left|]. cbn [escape].
    destruct (escaped_cases a) as [(_ & _ & ->)|(_ & tail & -> & Htail)].
    - rewrite append_cons. change ("" +:+ escape s) with (escape s).
      destruct IH as [->|IH]; [by left|right]. simpl. lia.
    - right. rewrite append_cons. simpl. rewrite length_append.
      pose proof (length_escape s). destruct tail; [done|]. simpl. lia. }
  split; [|by destruct Hlen].
  clear Hlen. split.
  - induction s as [|a s IH]; [by intros _ a []|]. cbn [escape].
    destruct (escaped_cases a) as [(Hamp & Hsp & ->)|(_ & tail & -> & Htail)].
    + rewrite append_cons. change ("" +:+ escape s) with (escape s).
      intros [= E] b [->|Hb]; [done|]. by apply IH.
    + intros E. apply (f_equal String.length) in E.
      rewrite append_cons in E. simpl in E. rewrite length_append in E.
      pose proof (length_escape s). destruct tail; [done|]. simpl in E. lia.
  - induction s as [|a s IH]; [done|]. intros H. cbn [escape].
    destruct (escaped_cases a) as [(_ & _ & ->)|([Ha|Ha] & _)].
    + rewrite append_cons. change ("" +:+ escape s) with (escape s).
      f_equal. apply IH. intros b Hb. apply H. by right.
    + by destruct (H a (or_introl eq_refl)).
    + by destruct (H a (or_introl eq_refl)) as [_ []].
Qed.

Lemma X16_witness :
  Html.escapeHtml (λ _, "") (JS.VStr "Porto de Santos") = "Porto de Santos" ∧
  (String.length "R&D" < String.length (Html.escapeHtml (λ _, "") (JS.VStr "R&D")))%nat.
Proof.
  destruct (X16_escapeHtml_fixed_points (λ _, "") "Porto de Santos") as [[_ Hfix] _].
  destruct (X16_escapeHtml_fixed_points (λ _, "") "R&D") as [_ Hlonger].
  split.
  - apply Hfix. intros a Ha. cbn in Ha. unfold special, amp, lt, gt, quot, apos.
    decompose [or] Ha; subst; try done;
      (split; [done|intros [?|[?|[?|?]]]; done]).
  - apply Hlonger. discriminate.
Defined.

End EscapeProperties.

(** ** The row renderer on any record *)

Section RowFacts.
Import Columns Table.
Context (h : host) (w : window).

(** The record with the memo of [renderRow] on it. *)
Lemma summarizeProdutos_truthy operation :
  JS.truthy (summarizeProdutos h operation) = true.
Proof.
  unfold summarizeProdutos.
  destruct (JS.prop "produtos_processo" operation) as [| | | | |[|produto produtos]|];
    try done.
  by destruct (omap (h_produto h) (produto :: produtos)).
Qed.

Lemma result_bind_ext {A B} (m : result A) (f g : A → result B) :
  (∀ a, f a = g a) → m ≫= f = m ≫= g.
Proof. intros Hfg. destruct m; [apply Hfg|done]. Qed.

Lemma prepare_memoized operation v2 v3 :
  JS.truthy (JS.prop "__produtos_summary" operation) = false →
  prepare h w (("__produtos_summary", summarizeProdutos h operation)
               :: ("__produtos_entries", v2) :: ("__produtos_tooltip", v3)
               :: operation) =
  prepare h w operation.
Proof.
  intros Hfresh. unfold prepare.
  change (hasArmazenagemDetails h (_ :: _ :: _ :: operation))
    with (hasArmazenagemDetails h operation).
  change (summarizeProdutos h (_ :: _ :: _ :: operation))
    with (summarizeProdutos h operation).
  cbn [JS.prop String.eqb Ascii.eqb Bool.eqb].
  apply result_bind_ext. intros isKingspanProcess0.
  apply result_bind_ext. intros exportadorDisplay0.
  apply result_bind_ext. intros statusDisplay0.
  change (summarizeDespesas h ?e (_ :: _ :: _ :: operation))
    with (summarizeDespesas h e operation).
  assert (JS.or (summarizeProdutos h operation) (summarizeProdutos h operation) =
          summarizeProdutos h operation) as ->.
  { unfold JS.or. by rewrite summarizeProdutos_truthy. }
  assert (JS.or (JS.prop "__produtos_summary" operation)
                (summarizeProdutos h operation) =
          summarizeProdutos h operation) as ->.
  { unfold JS.or. by rewrite Hfresh. }
  reflexivity.
Qed.

Lemma result_bind_Ok {A B} (m : result A) (f : A → result B) b :
  m ≫= f = Ok b → ∃ a, m = Ok a ∧ f a = Ok b.
Proof. destruct m as [a|]; [by exists a|done]. Qed.

Lemma prepare_produtosResumo operation c :
  prepare h w operation = Ok c →
  produtosResumo c =
  JS.or (JS.prop "__produtos_summary" operation) (summarizeProdutos h operation).
Proof.
  unfold prepare.
  intros (a1 & _ & (a2 & _ & (a3 & _ & H)%result_bind_Ok)%result_bind_Ok)%result_bind_Ok.
  by injection H as <-.
Qed.

Lemma cases_memoized c operation v1 v2 v3 :
  cases h w c (("__produtos_summary", v1) :: ("__produtos_entries", v2)
               :: ("__produtos_tooltip", v3) :: operation) =
  cases h w c operation.
Proof. reflexivity. Qed.

(** Rendering the record [renderRow] has left its memo on. *)
Lemma renderRow_again visibleColumns operation markup operation' :
  renderRow h w visibleColumns operation = Ok (markup, operation') →
  renderRow h w visibleColumns operation' = Ok (markup, operation').
Proof.
  unfold renderRow. destruct visibleColumns as [|column columns]; [by intros [= <- <-]|].
  intros (c & Hc & H)%result_bind_Ok.
  remember (String.concat "" (cells h w c operation (column :: columns))) as cells0
    eqn:Hcells.
  remember (memoize c operation) as memo eqn:Hmemo.
  injection H as <- <-. unfold memoize in Hmemo.
  destruct (JS.truthy (JS.prop "__produtos_summary" operation)) eqn:Hfresh.
  { subst memo. rewrite Hc. cbn [mbind result_bind]. unfold memoize.
    by rewrite Hfresh, Hcells. }
  pose proof (prepare_produtosResumo operation c Hc) as Hp.
  unfold JS.or in Hp. rewrite Hfresh in Hp. rewrite Hp in Hmemo. subst memo.
  rewrite prepare_memoized by done. rewrite Hc. cbn [mbind result_bind].
  unfold cells in *. rewrite cases_memoized, <- Hcells. unfold memoize.
  change (JS.prop "__produtos_summary" (("__produtos_summary", ?v) :: _)) with v.
  by rewrite summarizeProdutos_truthy.
Qed.

End RowFacts.

Section RowFacts2.
Import Columns Table Html.

(** What [escapeHtml] returns has no markup character in it, whatever the
    value and the host. *)
Lemma escapeHtml_safe (host : JS.value → string) (value : JS.value) :
  (∀ a, occurs a (Html.escapeHtml host value) → ¬ special a) ∧
  ampersands_start_entities (Html.escapeHtml host value).
Proof.
  unfold Html.escapeHtml. destruct (JS.nullish value).
  - split; [by intros a []|]. intros before after E. destruct before; discriminate E.
  - rewrite five_passes. split; [intros a; apply escape_plain|].
    apply entities_only_sound, entities_only_escape.
Qed.

Lemma strict_eq_text v s : JS.strict_eq v (JS.VStr s) = true ↔ v = JS.VStr s.
Proof.
  destruct v; simpl; try (split; [discriminate|discriminate]).
  split; [by intros ->%String.eqb_eq|intros [= ->]; apply String.eqb_refl].
Qed.

(** [findIndex] returns the first record with the text [s] as its
    [ref_importador]. *)
Lemma findIndex_first s ops :
  ∀ k i op,
    ops !! i = Some op → JS.prop "ref_importador" op = JS.VStr s →
    ∃ first op',
      findIndex (JS.VStr s) ops k = Some (k + first)%nat ∧ (first ≤ i)%nat ∧
      ops !! first = Some op' ∧ JS.prop "ref_importador" op' = JS.VStr s ∧
      ∀ j op'', (j < first)%nat → ops !! j = Some op'' →
                JS.prop "ref_importador" op'' ≠ JS.VStr s.
Proof.
  induction ops as [|op0 ops IH]; intros k i op Hi Hs; [done|].
  cbn [findIndex].
  destruct (JS.strict_eq (JS.prop "ref_importador" op0) (JS.VStr s)) eqn:E.
  - apply strict_eq_text in E. exists 0%nat, op0.
    split; [f_equal; lia|]. split; [lia|]. split; [done|]. split; [done|].
    intros j op'' Hj. lia.
  - assert (JS.prop "ref_importador" op0 ≠ JS.VStr s) as Hne.
    { intros H%strict_eq_text. congruence. }
    destruct i as [|i]; [injection Hi as ->; done|].
    destruct (IH (S k) i op Hi Hs) as (first & op' & Hf & Hle & Hop' & Hs' & Hmin).
    exists (S first), op'. split; [rewrite Hf; f_equal; lia|].
    split; [lia|]. split; [done|]. split; [done|].
    intros [|j] op'' Hj Hop''; [by injection Hop'' as <-|].
    apply (Hmin j); [lia|done].
Qed.

End RowFacts2.

Section RowProperties.
Import Columns Table Html Scenario.

(** X17: rendering a row a second time gives the same markup and leaves
    the record as the first rendering left it: the memo [renderRow] puts on
    the record ([__produtos_summary] and the two properties beside it)
    changes no cell. *)
Theorem X17_renderRow_again (h : host) (w : window)
    (visibleColumns : list ColumnDefinition) (operation : list (string * JS.value))
    (markup : string) (operation' : list (string * JS.value)) :
  renderRow h w visibleColumns operation = Ok (markup, operation') →
  renderRow h w visibleColumns operation' = Ok (markup, operation').
Proof. apply renderRow_again. Qed.

Lemma X17_witness :
  ∃ markup operation',
    renderRow plain_host bare_window AVAILABLE_COLUMNS [] = Ok (markup, operation') ∧
    renderRow plain_host bare_window AVAILABLE_COLUMNS operation' =
      Ok (markup, operation').
Proof.
  eexists. eexists.
  assert (renderRow plain_host bare_window AVAILABLE_COLUMNS [] =
          Ok (String.concat ""
                (cells plain_host bare_window (without_data plain_host None) []
                       AVAILABLE_COLUMNS),
              memoize (without_data plain_host None) [])) as Hfirst by reflexivity.
  split; [exact Hfirst|].
  exact (X17_renderRow_again plain_host bare_window AVAILABLE_COLUMNS [] _ _ Hfirst).
Defined.

(** X18: the cells of the five storage columns and of the Kingspan text
    columns hold nothing but escaped text, whatever the record holds: the
    content of the cell has no [<], [>], double quote or apostrophe, and
    every [&] in it starts an entity. *)
Theorem X18_escaped_cells (h : host) (w : window) (c : prepared)
    (operation : list (string * JS.value)) (id : string) :
  id ∈ ["data_desova"; "limite_primeiro_periodo"; "limite_segundo_periodo";
        "dias_extras_armazenagem"; "valor_despesas_extras"; "po_cliente";
        "referencia_exportador"; "codigo_produto"; "filial_codigo";
        "licenca_importacao"; "freetime"; "navio"; "armador_agente_trade";
        "moeda"; "incoterm"] →
  ∃ content,
    switch id (cases h w c operation) = td content ∧
    (∀ a, occurs a content → ¬ special a) ∧
    ampersands_start_entities content.
Proof.
  intros Hid.
  repeat (apply elem_of_cons in Hid as [->|Hid]); [..|by inversion Hid];
    (eexists; split; [reflexivity|apply escapeHtml_safe]).
Qed.

Lemma X18_witness :
  ∃ content,
    switch "navio"
      (cases plain_host bare_window (without_data plain_host None)
             [("navio", JS.VStr "<b>MSC</b>")]) = td content ∧
    ¬ occurs "<" content.
Proof.
  destruct (X18_escaped_cells plain_host bare_window (without_data plain_host None)
              [("navio", JS.VStr "<b>MSC</b>")] "navio")
    as (content & Hcell & Hplain & _).
  - apply (bool_decide_unpack _). by vm_compute.
  - exists content. split; [exact Hcell|].
    intros H. apply (Hplain _ H). by left.
Defined.

(** X19: in a table that shows [window.currentOperations], the button of
    a row carries the index of the first record of that array whose
    [ref_importador] is the text the row's record has: the row's own index
    when no earlier record has the same reference, the index of that
    earlier record otherwise. *)
Theorem X19_button_opens_first_with_reference (h : host) (w : window)
    (ops : list (list (string * JS.value))) (i : nat)
    (operation : list (string * JS.value)) (s : string) (c : prepared) :
  currentOperations w = Some ops →
  ops !! i = Some operation →
  JS.prop "ref_importador" operation = JS.VStr s →
  prepare h w operation = Ok c →
  ∃ first op',
    modalIndex c = Some first ∧ (first ≤ i)%nat ∧
    ops !! first = Some op' ∧ JS.prop "ref_importador" op' = JS.VStr s ∧
    ∀ j op'', (j < first)%nat → ops !! j = Some op'' →
              JS.prop "ref_importador" op'' ≠ JS.VStr s.
Proof.
  intros Hops Hi Hs Hc.
  destruct (findIndex_first s ops 0 i operation Hi Hs)
    as (first & op' & Hf & Hle & Hop' & Hs' & Hmin).
  exists first, op'. split; [|done].
  unfold prepare in Hc. rewrite Hops, Hs, Hf in Hc.
  apply result_bind_Ok in Hc as (a1 & _ & Hc).
  apply result_bind_Ok in Hc as (a2 & _ & Hc).
  apply result_bind_Ok in Hc as (a3 & _ & Hc).
  by injection Hc as <-.
Qed.

Lemma X19_witness :
  ∃ c, prepare plain_host
         (mkWindow (Some [[("ref_importador", JS.VStr "IMP-7")];
                          [("ref_importador", JS.VStr "IMP-7"); ("navio", JS.VStr "MSC")]])
                   None JS.VUndefined JS.VUndefined)
         [("ref_importador", JS.VStr "IMP-7"); ("navio", JS.VStr "MSC")] = Ok c ∧
       modalIndex c = Some 0%nat.
Proof.
  eexists. split; [reflexivity|].
  destruct (X19_button_opens_first_with_reference plain_host
              (mkWindow (Some [[("ref_importador", JS.VStr "IMP-7")];
                               [("ref_importador", JS.VStr "IMP-7");
                                ("navio", JS.VStr "MSC")]])
                        None JS.VUndefined JS.VUndefined)
              [[("ref_importador", JS.VStr "IMP-7")];
               [("ref_importador", JS.VStr "IMP-7"); ("navio", JS.VStr "MSC")]]
              1 [("ref_importador", JS.VStr "IMP-7"); ("navio", JS.VStr "MSC")]
              "IMP-7" _ eq_refl eq_refl eq_refl eq_refl)
    as (first & op' & Hm & _).
  reflexivity.
Defined.

End RowProperties.

(** ** The operations handed to the table *)

Section OperationsFacts.
Import Table Operations.
Context (h : host) (parseDate : JS.value → option Z).

Lemma StronglySorted_lookup_lt {A} (R : A → A → Prop) l i j a b :
  StronglySorted R l → (i < j)%nat → l !! i = Some a → l !! j = Some b → R a b.
Proof.
  intros Hs. revert i j. induction Hs as [|x l Hs IH Hx]; intros i j Hij Hi Hj; [done|].
  destruct j as [|j]; [lia|]. destruct i as [|i].
  - injection Hi as ->. rewrite Forall_forall in Hx. apply Hx.
    by eapply list_elem_of_lookup_2.
  - apply (IH i j); [lia|done|done].
Qed.

Lemma dates_bounded (operations : list (list (string * JS.value))) :
  ∃ B, ∀ op d, op ∈ operations →
               parseDate (JS.prop "data_chegada" op) = Some d → - d ≤ B.
Proof.
  induction operations as [|op0 operations [B HB]]; [exists 0; by inversion 1|].
  destruct (parseDate (JS.prop "data_chegada" op0)) as [d0|] eqn:E0.
  - exists (Z.max B (- d0)). intros op d Hin Hd.
    apply elem_of_cons in Hin as [->|Hin].
    + rewrite E0 in Hd. injection Hd as <-. lia.
    + pose proof (HB op d Hin Hd). lia.
  - exists B. intros op d Hin Hd.
    apply elem_of_cons in Hin as [->|Hin]; [congruence|by eapply HB].
Qed.

Lemma verdict_of_Z z :
  ArraySort.verdict_of (JS.of_Z z) =
  match z ?= 0 with
  | Lt => ArraySort.Before | Eq => ArraySort.Same | Gt => ArraySort.After
  end.
Proof.
  unfold ArraySort.verdict_of, JS.of_Z, Qcompare. simpl. by rewrite Z.mul_1_r.
Qed.

Lemma memo_data_chegada operation :
  JS.prop "data_chegada" (memo h operation) = JS.prop "data_chegada" operation.
Proof. reflexivity. Qed.

(** The sort by arrival: dated records first, latest first. *)
Lemma sorted_by_arrival operations i j a b :
  (i < j)%nat →
  ArraySort.sort (by_arrival parseDate) operations !! i = Some a →
  ArraySort.sort (by_arrival parseDate) operations !! j = Some b →
  match parseDate (JS.prop "data_chegada" a), parseDate (JS.prop "data_chegada" b) with
  | Some dateA, Some dateB => dateB ≤ dateA
  | None, Some _ => False
  | _, None => True
  end.
Proof.
  intros Hij Hi Hj. destruct (dates_bounded operations) as [B HB].
  set (key := λ op : list (string * JS.value),
         match parseDate (JS.prop "data_chegada" op) with
         | Some d => - d
         | None => B + 1
         end).
  assert (StronglySorted (λ x y, key x ≤ key y)
            (ArraySort.sort (by_arrival parseDate) operations)) as Hsorted.
  { apply (sort_sorted (by_arrival parseDate) key (λ op, op ∈ operations)).
    - intros x y Hx Hy. unfold by_arrival, key.
      destruct (parseDate (JS.prop "data_chegada" x)) as [dx|] eqn:Ex;
        destruct (parseDate (JS.prop "data_chegada" y)) as [dy|] eqn:Ey;
        rewrite verdict_of_Z.
      + rewrite (Z.compare_sub (- dx) (- dy)).
        by replace (- dx - - dy) with (dy - dx) by lia.
      + pose proof (HB x dx Hx Ex).
        destruct (Z.compare_spec (- dx) (B + 1)); [lia|done|lia].
      + pose proof (HB y dy Hy Ey).
        destruct (Z.compare_spec (B + 1) (- dy)); [lia|lia|done].
      + by rewrite !Z.compare_refl.
    - by apply Forall_forall. }
  pose proof (StronglySorted_lookup_lt _ _ i j a b Hsorted Hij Hi Hj) as Hle.
  assert (b ∈ operations) as Hb.
  { rewrite <- (sort_Permutation (by_arrival parseDate) operations).
    by eapply list_elem_of_lookup_2. }
  unfold key in Hle.
  destruct (parseDate (JS.prop "data_chegada" a)) as [da|] eqn:Ea;
    destruct (parseDate (JS.prop "data_chegada" b)) as [db|] eqn:Eb;
    [lia|done| |done].
  pose proof (HB b db Hb Eb). lia.
Qed.

End OperationsFacts.

Section OperationsProperties.
Import Table Operations Scenario.

(** X20: the records [updateRecentOperationsTable] stores in
    [window.currentOperations] and hands to the table are the given
    records, each with its memo properties, rearranged so that the records
    with an arrival date come before those without one and the dated
    records are in descending order of arrival. *)
Theorem X20_operations_by_arrival (h : host) (parseDate : JS.value → option Z)
    (operations : list (list (string * JS.value))) :
  (∃ arranged, arranged ≡ₚ operations ∧
               sortedOperations h parseDate operations = memo h <$> arranged) ∧
  ∀ i j a b, (i < j)%nat →
    sortedOperations h parseDate operations !! i = Some a →
    sortedOperations h parseDate operations !! j = Some b →
    match parseDate (JS.prop "data_chegada" a), parseDate (JS.prop "data_chegada" b) with
    | Some dateA, Some dateB => dateB ≤ dateA
    | None, Some _ => False
    | _, None => True
    end.
Proof.
  split.
  - exists (ArraySort.sort (by_arrival parseDate) operations).
    split; [apply sort_Permutation|done].
  - intros i j a b Hij Hi Hj. unfold sortedOperations in Hi, Hj.
    apply list_lookup_fmap_Some in Hi as (a0 & -> & Hi).
    apply list_lookup_fmap_Some in Hj as (b0 & -> & Hj).
    rewrite !memo_data_chegada. by eapply sorted_by_arrival.
Qed.

(** Of [three_operations] the record arriving on the 20th is listed first,
    the one arriving on the 5th second, the one without a date last. *)
Lemma X20_witness :
  (λ op, JS.prop "ref_importador" op) <$>
    sortedOperations plain_host january three_operations =
    [JS.VStr "C"; JS.VStr "B"; JS.VStr "A"] ∧
  5 ≤ 20.
Proof.
  split; [reflexivity|].
  exact (proj2 (X20_operations_by_arrival plain_host january three_operations)
               0%nat 1%nat _ _ Nat.lt_0_1 eq_refl eq_refl).
Defined.

End OperationsProperties.

(** ** The CNPJ of the process modal *)

Section CnpjProperties.
Import Table Cnpj.

Lemma digits_are_digits s a : Html.occurs a (digits s) → is_digit a = true.
Proof.
  induction s as [|b s IH]; [done|]. cbn [digits].
  destruct (is_digit b) eqn:E; [|done]. by intros [->|H]; [|apply IH].
Qed.

Lemma digits_of_digits s :
  (∀ a, Html.occurs a s → is_digit a = true) → digits s = s.
Proof.
  induction s as [|b s IH]; [done|]. intros H. cbn [digits].
  rewrite (H b) by (by left). f_equal. apply IH. intros a Ha. apply H. by right.
Qed.

(** X21: [formatCNPJ] of a text with exactly 14 digits, whatever else the
    text holds, is those digits as [XX.XXX.XXX/XXXX-XX]: 18 characters with
    the separators at the positions 2, 6, 10 and 15 and the same digits in
    the same order, a text [formatCNPJ] returns as it is when applied
    again.  A text with another number of digits is returned unchanged. *)
Theorem X21_formatCNPJ (s : string) :
  s ≠ "" →
  (String.length (digits s) = 14%nat →
   ∃ f, formatCNPJ (JS.VStr s) = Ok (JS.VStr f) ∧
        String.length f = 18%nat ∧
        String.get 2 f = Some "."%char ∧ String.get 6 f = Some "."%char ∧
        String.get 10 f = Some "/"%char ∧ String.get 15 f = Some "-"%char ∧
        digits f = digits s ∧
        formatCNPJ (JS.VStr f) = Ok (JS.VStr f)) ∧
  (String.length (digits s) ≠ 14%nat → formatCNPJ (JS.VStr s) = Ok (JS.VStr s)).
Proof.
  intros Hs.
  assert (JS.truthy (JS.VStr s) = true) as Htruthy.
  { simpl. by destruct (String.eqb_spec s ""). }
  split.
  - intros Hlen. unfold formatCNPJ at 1. rewrite Htruthy. cbn [negb].
    rewrite Hlen. cbn [Nat.eqb].
    pose proof (digits_are_digits s) as Hall.
    destruct (digits s) as [|a1 [|a2 [|a3 [|a4 [|a5 [|a6 [|a7 [|a8 [|a9 [|a10
                           [|a11 [|a12 [|a13 [|a14 [|a15 rest]]]]]]]]]]]]]]];
      try discriminate Hlen.
    exists (String a1 (String a2 (String "." (String a3 (String a4 (String a5
              (String "." (String a6 (String a7 (String a8 (String "/" (String a9
              (String a10 (String a11 (String a12 (String "-" (String a13
              (String a14 "")))))))))))))))))).
    split; [reflexivity|].
    assert (digits (String a1 (String a2 (String "." (String a3 (String a4 (String a5
              (String "." (String a6 (String a7 (String a8 (String "/" (String a9
              (String a10 (String a11 (String a12 (String "-" (String a13
              (String a14 ""))))))))))))))))))
            = String a1 (String a2 (String a3 (String a4 (String a5 (String a6
              (String a7 (String a8 (String a9 (String a10 (String a11 (String a12
              (String a13 (String a14 "")))))))))))))) as Hdigits.
    { cbn [digits].
      rewrite (Hall a1), (Hall a2), (Hall a3), (Hall a4), (Hall a5), (Hall a6),
        (Hall a7), (Hall a8), (Hall a9), (Hall a10), (Hall a11), (Hall a12),
        (Hall a13), (Hall a14) by (cbn; tauto).
      reflexivity. }
    split; [reflexivity|]. do 4 (split; [reflexivity|]).
    split; [exact Hdigits|].
    unfold formatCNPJ. cbn [JS.truthy String.eqb negb].
    rewrite Hdigits. reflexivity.
  - intros Hlen. unfold formatCNPJ. rewrite Htruthy. cbn [negb].
    by destruct (Nat.eqb_spec (String.length (digits s)) 14).
Qed.

Lemma X21_witness :
  formatCNPJ (JS.VStr "CNPJ 12345678000195") = Ok (JS.VStr "12.345.678/0001-95") ∧
  formatCNPJ (JS.VStr "12.345.678/0001-95") = Ok (JS.VStr "12.345.678/0001-95") ∧
  formatCNPJ (JS.VStr "1234") = Ok (JS.VStr "1234").
Proof.
  destruct (X21_formatCNPJ "CNPJ 12345678000195") as [Hfull _]; [discriminate|].
  destruct (X21_formatCNPJ "1234") as [_ Hshort]; [discriminate|].
  destruct (Hfull eq_refl) as (f & Hf & _ & _ & _ & _ & _ & _ & Hagain).
  assert (f = "12.345.678/0001-95") as -> by (by injection Hf as <-).
  split; [exact Hf|]. split; [exact Hagain|]. apply Hshort. discriminate.
Defined.

End CnpjProperties.

(** ** A load that succeeds, then a load that fails *)

Section FallbackFacts.
Import Cache Loader Fallback.
Context (u : updaters) (L : retry_loader) (type : kind) (tested : string)
        (payload : JS.value → JS.value) (render : JS.value → call)
        (extra : JS.value → list call).

Hypothesis success : succeeds_at_attempt u L type tested payload render extra.
Hypothesis cached : falls_back_to_cache u L type render.
Hypothesis payload_truthy : ∀ result,
  JS.truthy (JS.field result tested) = true → JS.truthy (payload result) = true.

Lemma contract_shows_last_loaded : shows_last_loaded u L tested payload render extra.
Proof using success cached payload_truthy.
  intros n1 N m res1 res2 p rq result HN Hrej1 Hres Hnull Hsucc Htested Hextra
    Hrender Hm Hrej2 Hstamp Hage.
  destruct (success n1 N res1 p rq result HN Hrej1 Hres Hnull Hsucc Htested
              Hextra Hrender)
    as (p1 & rq1 & Hrun1 & _ & _ & Hslot & Hlast).
  destruct (cached m res2 p1 rq1 Hm Hrej2) as (p2 & rq2 & Hrun2 & _ & Hcalls & _).
  - rewrite Hslot. by apply payload_truthy.
  - unfold isValid. rewrite Hlast.
    apply andb_true_intro. split; [by apply negb_true_iff, Z.eqb_neq|by apply Z.ltb_lt].
  - by rewrite Hslot.
  - exists p1, rq1, p2, rq2. by rewrite Hslot in Hcalls.
Qed.

End FallbackFacts.

Section FallbackProperties.
Import Cache Loader Fallback Scenario.

(** X22: each of the four retry loaders shows again what it loaded last,
    on a page whose functions return when they are called with the value
    loaded.  After a run that succeeded with an answer, a run in which
    every attempt fails returns without throwing and hands the stored
    value of that answer to the loader's updater once more, provided the
    last failure comes less than 5 minutes after the value was stored (and
    the clock did not read 0 then). *)
Theorem X22_fallback_shows_last_loaded (u : updaters) :
  shows_last_loaded u (loadDashboardKPIs u) "kpis" (λ result, JS.field result "kpis")
    updateDashboardKPIs (λ _, []) ∧
  shows_last_loaded u (loadDashboardCharts u) "charts"
    (λ result, JS.field result "charts")
    createDashboardChartsWithValidation material_permission ∧
  shows_last_loaded u (loadRecentOperations u) "operations" operationsToUse
    updateRecentOperationsTable (λ _, []) ∧
  shows_last_loaded u (loadFilterOptions u) "options"
    (λ result, JS.field result "options") populateFilterOptions (λ _, []).
Proof.
  destruct (loadDashboardKPIs_contract u) as (Hk1 & Hk2 & _).
  destruct (loadDashboardCharts_contract u) as (Hc1 & Hc2 & _).
  destruct (loadRecentOperations_contract u) as (Ho1 & Ho2 & _).
  destruct (loadFilterOptions_contract u) as (Hf1 & Hf2 & _).
  split; [|split; [|split]].
  - by eapply contract_shows_last_loaded.
  - by eapply contract_shows_last_loaded.
  - eapply contract_shows_last_loaded; [exact Ho1|exact Ho2|].
    intros result Hops. unfold operationsToUse, JS.or.
    by destruct (JS.truthy (JS.field result "operations_all")) eqn:E.
  - by eapply contract_shows_last_loaded.
Qed.

Lemma X22_witness :
  ∃ p1 rq1 p2 rq2,
    loadDashboardKPIsWithRetry quiet 2 (λ _, (kpis_response some_kpis, 5000))
      (mkPage Cache.initial []) Requests.none = (p1, rq1, Returned) ∧
    loadDashboardKPIsWithRetry quiet 2 (offline 9000) p1 rq1 = (p2, rq2, Returned) ∧
    calls (trace p2) = [updateDashboardKPIs some_kpis; updateDashboardKPIs some_kpis].
Proof.
  destruct (X22_fallback_shows_last_loaded quiet) as (Hkpis & _).
  destruct (Hkpis 2%nat 1%nat 2%nat (λ _, (kpis_response some_kpis, 5000))
              (offline 9000) (mkPage Cache.initial []) Requests.none
              (JS.VObj [("success", JS.VBool true); ("kpis", some_kpis)]))
    as (p1 & rq1 & p2 & rq2 & Hrun1 & Hrun2 & Hcalls).
  - lia.
  - intros i Hi. simpl in Hi. lia.
  - reflexivity.
  - reflexivity.
  - reflexivity.
  - reflexivity.
  - done.
  - done.
  - lia.
  - intros i _. eexists. apply rejects_rejected.
  - discriminate.
  - reflexivity.
  - exists p1, rq1, p2, rq2. split; [exact Hrun1|]. split; [exact Hrun2|].
    rewrite Hcalls.
    apply (f_equal (λ x, calls (trace x.1.1))) in Hrun1. cbn [fst] in Hrun1.
    rewrite <- Hrun1. reflexivity.
Defined.

End FallbackProperties.

(** ** The memo of the table update and the row renderer *)

Section MemoFacts.
Import Columns Table Operations.
Context (h : host) (w : window).

Lemma prepare_memo operation :
  JS.truthy (JS.prop "__produtos_summary" operation) = false →
  prepare h w (memo h operation) = prepare h w operation.
Proof.
  intros Hfresh. unfold memo, prepare.
  change (hasArmazenagemDetails h (_ :: _ :: _ :: _ :: _ :: operation))
    with (hasArmazenagemDetails h operation).
  change (summarizeProdutos h (_ :: _ :: _ :: _ :: _ :: operation))
    with (summarizeProdutos h operation).
  change (summarizeProdutos h (_ :: _ :: operation))
    with (summarizeProdutos h operation).
  cbn [JS.prop String.eqb Ascii.eqb Bool.eqb].
  apply result_bind_ext. intros isKingspanProcess0.
  apply result_bind_ext. intros exportadorDisplay0.
  apply result_bind_ext. intros statusDisplay0.
  change (summarizeDespesas h ?e (_ :: _ :: _ :: _ :: _ :: operation))
    with (summarizeDespesas h e operation).
  assert (JS.or (summarizeProdutos h operation) (summarizeProdutos h operation) =
          summarizeProdutos h operation) as ->.
  { unfold JS.or. by rewrite summarizeProdutos_truthy. }
  assert (JS.or (JS.prop "__produtos_summary" operation)
                (summarizeProdutos h operation) =
          summarizeProdutos h operation) as ->.
  { unfold JS.or. by rewrite Hfresh. }
  reflexivity.
Qed.

Lemma cases_memo c operation :
  JS.isArray (JS.prop "__container_values" operation) = false →
  cases h w c (memo h operation) = cases h w c operation.
Proof.
  intros Hraw. unfold cases at 2. rewrite Hraw. reflexivity.
Qed.

Lemma renderRow_memo visibleColumns operation markup operation' :
  JS.truthy (JS.prop "__produtos_summary" operation) = false →
  JS.isArray (JS.prop "__container_values" operation) = false →
  renderRow h w visibleColumns operation = Ok (markup, operation') →
  renderRow h w visibleColumns (memo h operation) = Ok (markup, memo h operation).
Proof.
  intros Hfresh Hraw. unfold renderRow.
  destruct visibleColumns as [|column columns]; [by intros [= <- <-]|].
  intros (c & Hc & H)%result_bind_Ok.
  remember (String.concat "" (cells h w c operation (column :: columns))) as cells0
    eqn:Hcells.
  injection H as <- _.
  rewrite prepare_memo by done. rewrite Hc. cbn [mbind result_bind].
  unfold cells in *. rewrite cases_memo, <- Hcells by done.
  unfold memoize.
  change (JS.prop "__produtos_summary" (memo h operation))
    with (summarizeProdutos h operation).
  by rewrite summarizeProdutos_truthy.
Qed.

End MemoFacts.

Section MemoProperties.
Import Columns Table Operations Scenario.

(** X23: the memo [updateRecentOperationsTable] puts on a record changes
    no cell of its row.  For a record that carries no memo yet, a row that
    renders to some markup renders to the same markup once the five memo
    properties are on the record, and that rendering leaves the record as
    it is. *)
Theorem X23_memo_changes_no_cell (h : host) (w : window)
    (visibleColumns : list ColumnDefinition) (operation : list (string * JS.value))
    (markup : string) (operation' : list (string * JS.value)) :
  JS.truthy (JS.prop "__produtos_summary" operation) = false →
  JS.isArray (JS.prop "__container_values" operation) = false →
  renderRow h w visibleColumns operation = Ok (markup, operation') →
  renderRow h w visibleColumns (memo h operation) = Ok (markup, memo h operation).
Proof. apply renderRow_memo. Qed.

Lemma X23_witness :
  ∃ markup,
    renderRow plain_host bare_window AVAILABLE_COLUMNS
      (memo plain_host [("navio", JS.VStr "MSC"); ("container", JS.VStr "MSCU1")]) =
    Ok (markup, memo plain_host [("navio", JS.VStr "MSC"); ("container", JS.VStr "MSCU1")]).
Proof.
  eexists.
  apply (X23_memo_changes_no_cell plain_host bare_window AVAILABLE_COLUMNS
           [("navio", JS.VStr "MSC"); ("container", JS.VStr "MSCU1")] _
           (memoize (without_data plain_host None)
                    [("navio", JS.VStr "MSC"); ("container", JS.VStr "MSCU1")]));
    reflexivity.
Defined.

End MemoProperties.

(** ** When the row renderer throws *)

Section ThrowProperties.
Import Columns Table Scenario.

(** X24: over a non-empty list of columns [renderRow] returns markup only
    for a record in which [importador || ''] is a text, [status_sistema]
    is falsy or a text, and [exportador_fornecedor || '-'], if its [length]
    exceeds 18, is a text.  For any other record it throws a [TypeError]
    before it renders a cell: a number as [importador] has no
    [toUpperCase], a truthy [status_sistema] that is no text has no
    [trim], a long array as [exportador_fornecedor] has no [substring]. *)
Theorem X24_renderRow_throws (h : host) (w : window)
    (visibleColumns : list ColumnDefinition) (operation : list (string * JS.value)) :
  visibleColumns ≠ [] →
  ((∃ rendered, renderRow h w visibleColumns operation = Ok rendered) →
   (∃ s, JS.or (JS.prop "importador" operation) (JS.VStr "") = JS.VStr s) ∧
   (exceeds h (length_of h (JS.or (JS.prop "exportador_fornecedor" operation)
                                  (JS.VStr "-"))) 18 = true →
    ∃ s, JS.or (JS.prop "exportador_fornecedor" operation) (JS.VStr "-") = JS.VStr s) ∧
   (JS.truthy (JS.prop "status_sistema" operation) = true →
    ∃ s, JS.prop "status_sistema" operation = JS.VStr s)) ∧
  ((∀ s, JS.or (JS.prop "importador" operation) (JS.VStr "") ≠ JS.VStr s) ∨
   (exceeds h (length_of h (JS.or (JS.prop "exportador_fornecedor" operation)
                                  (JS.VStr "-"))) 18 = true ∧
    ∀ s, JS.or (JS.prop "exportador_fornecedor" operation) (JS.VStr "-") ≠ JS.VStr s) ∨
   (JS.truthy (JS.prop "status_sistema" operation) = true ∧
    ∀ s, JS.prop "status_sistema" operation ≠ JS.VStr s) →
   ∃ what, renderRow h w visibleColumns operation = TypeError what).
Proof.
  intros Hcols.
  assert ((∃ rendered, renderRow h w visibleColumns operation = Ok rendered) →
          (∃ s, JS.or (JS.prop "importador" operation) (JS.VStr "") = JS.VStr s) ∧
          (exceeds h (length_of h (JS.or (JS.prop "exportador_fornecedor" operation)
                                         (JS.VStr "-"))) 18 = true →
           ∃ s, JS.or (JS.prop "exportador_fornecedor" operation) (JS.VStr "-")
                = JS.VStr s) ∧
          (JS.truthy (JS.prop "status_sistema" operation) = true →
           ∃ s, JS.prop "status_sistema" operation = JS.VStr s)) as Honly.
  { unfold renderRow. destruct visibleColumns as [|column columns]; [done|].
    intros [rendered (c & Hc & _)%result_bind_Ok]. unfold prepare in Hc.
    apply result_bind_Ok in Hc as (a1 & H1 & Hc).
    apply result_bind_Ok in Hc as (a2 & H2 & Hc).
    apply result_bind_Ok in Hc as (a3 & H3 & _).
    split; [|split].
    - destruct (JS.or (JS.prop "importador" operation) (JS.VStr "")); try done.
      by eexists.
    - intros Hlong. rewrite Hlong in H2.
      destruct (JS.or (JS.prop "exportador_fornecedor" operation) (JS.VStr "-"));
        try done.
      by eexists.
    - intros Ht. rewrite Ht in H3.
      destruct (JS.prop "status_sistema" operation); try done. by eexists. }
  split; [exact Honly|]. intros Hbad.
  destruct (renderRow h w visibleColumns operation) as [rendered|what] eqn:E;
    [|by exists what].
  destruct Honly as ([s1 E1] & Hexp & Hstatus); [by exists rendered|].
  destruct Hbad as [Hbad|[[Hlong Hbad]|[Ht Hbad]]].
  - by destruct (Hbad s1).
  - destruct (Hexp Hlong) as [s2 E2]. by destruct (Hbad s2).
  - destruct (Hstatus Ht) as [s3 E3]. by destruct (Hbad s3).
Qed.

Lemma X24_witness :
  (∃ s, JS.or (JS.prop "importador" [("importador", JS.VStr "KINGSPAN")])
              (JS.VStr "") = JS.VStr s) ∧
  renderRow plain_host bare_window AVAILABLE_COLUMNS
            [("importador", JS.VNum (JS.of_Z 7))] =
    TypeError "toUpperCase is not a function".
Proof.
  destruct (X24_renderRow_throws plain_host bare_window AVAILABLE_COLUMNS
              [("importador", JS.VStr "KINGSPAN")]) as [Honly _]; [discriminate|].
  destruct (X24_renderRow_throws plain_host bare_window AVAILABLE_COLUMNS
              [("importador", JS.VNum (JS.of_Z 7))]) as [_ Hthrows]; [discriminate|].
  split.
  - apply Honly. eexists. reflexivity.
  - destruct Hthrows as [what Hwhat]; [left; intros s; discriminate|].
    reflexivity.
Defined.

End ThrowProperties.

(** ** The retry budget *)

Section BudgetFacts.
Import Cache Loader.

(** On a page whose functions return, the [try] block of each of the four
    loaders leaves the cache alone unless it runs to its [return]; the
    [catch] block never changes the cache. *)
Lemma loaders_keep_cache u L :
  L ∈ loaders u →
  ((∀ p c, u p c = None) →
   ∀ r now p p2 e, settle L r now p = (p2, Some e) → cache p2 = cache p) ∧
  (∀ e now p, cache (exhausted L e now p).1 = cache p).
Proof.
  intros HL. unfold loaders in HL.
  repeat (apply elem_of_cons in HL as [->|HL]); [..|by inversion HL].
  - split.
    + intros Hu [e0|e0|result] now p p2 e; simpl; try (by intros [= <- _]).
      destruct (JS.nullish result); [by intros [= <- _]|].
      destruct (_ && _); [|by intros [= <- _]].
      unfold call_into. by rewrite Hu.
    + intros e now p. simpl. unfold call_into, and_then.
      destruct (JS.truthy _); [|done]. by destruct (u p _).
  - split.
    + intros Hu [e0|e0|result] now p p2 e; simpl; try (by intros [= <- _]).
      destruct (JS.nullish result); [by intros [= <- _]|].
      destruct (_ && _); [|by intros [= <- _]].
      unfold call_into. rewrite !Hu. by destruct (JS.defined _); rewrite ?Hu.
    + intros e now p. simpl. unfold call_into, and_then.
      destruct (JS.truthy _); by destruct (u p _).
  - split.
    + intros Hu [e0|e0|result] now p p2 e; simpl; try (by intros [= <- _]).
      destruct (JS.nullish result); [by intros [= <- _]|].
      destruct (_ && _); [|by intros [= <- _]].
      unfold call_into. by rewrite Hu.
    + intros e now p. simpl. unfold call_into, and_then.
      destruct (JS.truthy _); by destruct (u p _).
  - split.
    + intros Hu [e0|e0|result] now p p2 e; simpl; try (by intros [= <- _]).
      destruct (JS.nullish result); [by intros [= <- _]|].
      destruct (_ && _); [|by intros [= <- _]].
      unfold call_into. by rewrite Hu.
    + intros e now p. simpl. unfold call_into, and_then.
      destruct (JS.truthy _); by destruct (u p _).
Qed.

(** The requests of a run, whatever its attempts do. *)
Lemma loop_budget L res maxRetries :
  (∀ r now p, ∃ cs, trace (settle L r now p).1 = trace p ++ (Called <$> cs)) →
  (∀ e now p, ∃ cs, trace (exhausted L e now p).1 = trace p ++ (Called <$> cs)) →
  ∀ remaining attempt p rq,
    (attempts (trace (loop L res maxRetries remaining attempt p rq).1.1)
       ≤ attempts (trace p) + remaining)%nat ∧
    ((1 ≤ remaining)%nat →
     (attempts (trace p) + 1
        ≤ attempts (trace (loop L res maxRetries remaining attempt p rq).1.1))%nat).
Proof.
  intros Hsettle Hexhausted.
  induction remaining as [|remaining IH]; intros attempt p rq.
  { simpl. split; lia. }
  rewrite loop_step. cbv zeta.
  set (p1 := log (Requested (key L) (Requests.created rq)) p).
  assert (attempts (trace p1) = (attempts (trace p) + 1)%nat) as Ha.
  { unfold p1, log. simpl. by rewrite attempts_app. }
  destruct (Hsettle (res attempt).1 (res attempt).2 p1) as [cs Hcs].
  destruct (settle L (res attempt).1 (res attempt).2 p1) as [p2 [error|]] eqn:E;
    cbn [fst] in Hcs.
  - assert (attempts (trace p2) = (attempts (trace p) + 1)%nat) as Ha2.
    { rewrite Hcs, attempts_app, attempts_called. lia. }
    destruct (attempt =? maxRetries)%nat.
    + destruct (Hexhausted error (res attempt).2 p2) as [cs' Hcs'].
      destruct (exhausted L error (res attempt).2 p2) as [p3 o]. cbn [fst snd] in *.
      rewrite Hcs', attempts_app, attempts_called, Ha2. split; lia.
    + destruct (IH (S attempt) (sleep attempt p2)
                  (Requests.fetchWithAbort (key L) rq).1) as (Hle & Hge).
      assert (attempts (trace (sleep attempt p2)) = (attempts (trace p) + 1)%nat) as Ha3.
      { unfold sleep, log. simpl. rewrite attempts_app, Ha2.
        change (attempts [Slept ?ms]) with 0%nat. lia. }
      rewrite Ha3 in Hle, Hge. split; [lia|]. intros _.
      destruct remaining as [|remaining']; [cbn [loop fst]; rewrite Ha3; lia|].
      lia.
  - cbn [fst snd]. rewrite Hcs, attempts_app, attempts_called, Ha. split; lia.
Qed.

(** A run that throws has not changed the cache, when no failed attempt
    changes it. *)
Lemma loop_keeps_cache L res maxRetries :
  (∀ r now p p2 e, settle L r now p = (p2, Some e) → cache p2 = cache p) →
  (∀ e now p, cache (exhausted L e now p).1 = cache p) →
  ∀ remaining attempt p rq e,
    (loop L res maxRetries remaining attempt p rq).2 = Threw e →
    cache (loop L res maxRetries remaining attempt p rq).1.1 = cache p.
Proof.
  intros Hkeep Hkeep'.
  induction remaining as [|remaining IH]; intros attempt p rq e; [done|].
  rewrite loop_step. cbv zeta.
  set (p1 := log (Requested (key L) (Requests.created rq)) p).
  destruct (settle L (res attempt).1 (res attempt).2 p1) as [p2 [error|]] eqn:E;
    [|done].
  pose proof (Hkeep _ _ _ _ _ E) as Hc2.
  destruct (attempt =? maxRetries)%nat.
  - pose proof (Hkeep' error (res attempt).2 p2) as Hc3.
    destruct (exhausted L error (res attempt).2 p2) as [p3 o]. cbn [fst snd] in *.
    intros _. by rewrite Hc3, Hc2.
  - intros He. rewrite (IH _ _ _ _ He). unfold sleep, log. simpl. by rewrite Hc2.
Qed.

End BudgetFacts.

Section BudgetProperties.
Import Cache Loader Scenario.

(** X25: whatever the server answers and however the functions of the
    page behave, each of the four retry loaders issues at most
    [maxRetries] requests and, with [maxRetries] at least 1, at least one;
    and on a page whose functions return, a run that ends by throwing
    leaves the cache as it found it.  (An updater that throws does so
    after [dashboardCache.set]: such a run can end by throwing with the
    cache changed.) *)
Theorem X25_retry_budget (u : updaters) (L : retry_loader) (maxRetries : nat)
    (res : resource) (p : page) (rq : Requests.requests) :
  L ∈ loaders u →
  (attempts (trace (withRetry L maxRetries res p rq).1.1)
     ≤ attempts (trace p) + maxRetries)%nat ∧
  ((1 ≤ maxRetries)%nat →
   (attempts (trace p) + 1 ≤ attempts (trace (withRetry L maxRetries res p rq).1.1))%nat) ∧
  ((∀ p' c, u p' c = None) →
   ∀ e, (withRetry L maxRetries res p rq).2 = Threw e →
        cache (withRetry L maxRetries res p rq).1.1 = cache p).
Proof.
  intros HL. destruct (loaders_only_call u L HL) as [Hsettle Hexhausted].
  destruct (loaders_keep_cache u L HL) as [Hkeep Hkeep'].
  destruct (loop_budget L res maxRetries Hsettle Hexhausted maxRetries 1%nat p rq)
    as [Hle Hge].
  split; [exact Hle|]. split; [exact Hge|].
  intros Hu. apply (loop_keeps_cache L res maxRetries (Hkeep Hu) Hkeep').
Qed.

(** The charts of a page that is offline, and the operations of a page
    whose table throws on the answer: two requests each; the first run
    leaves the cache as it was, the second ends by throwing with the
    answer in the cache. *)
Lemma X25_witness :
  (attempts (trace (loadDashboardChartsWithRetry quiet 2 (offline 4000)
                      (mkPage Cache.initial []) Requests.none).1.1) ≤ 0 + 2)%nat ∧
  (0 + 1 ≤ attempts (trace (loadDashboardChartsWithRetry quiet 2 (offline 4000)
                              (mkPage Cache.initial []) Requests.none).1.1))%nat ∧
  cache (loadDashboardChartsWithRetry quiet 2 (offline 4000)
           (mkPage Cache.initial []) Requests.none).1.1 = Cache.initial ∧
  (attempts (trace (loadRecentOperationsWithRetry strict_table 2
                      (λ _, (Json null_operations, 4000%Z))
                      (mkPage Cache.initial []) Requests.none).1.1) ≤ 0 + 2)%nat ∧
  loadRecentOperationsWithRetry strict_table 2 (λ _, (Json null_operations, 4000%Z))
    (mkPage Cache.initial []) Requests.none =
  (mkPage (Cache.set operations (JS.VArr [JS.VNull]) 4000 Cache.initial)
          [Requested "operations" 0;
           Called (updateRecentOperationsTable (JS.VArr [JS.VNull]));
           Slept 1000;
           Requested "operations" 1;
           Called (updateRecentOperationsTable (JS.VArr [JS.VNull]));
           Called (updateRecentOperationsTable (JS.VArr [JS.VNull]))],
   (Requests.fetchWithAbort "operations"
      (Requests.fetchWithAbort "operations" Requests.none).1).1,
   Threw TypeError).
Proof.
  destruct (X25_retry_budget quiet (loadDashboardCharts quiet) 2 (offline 4000)
              (mkPage Cache.initial []) Requests.none) as (Hle & Hge & Hcache).
  { unfold loaders. right. by left. }
  destruct (X25_retry_budget strict_table (loadRecentOperations strict_table) 2
              (λ _, (Json null_operations, 4000%Z))
              (mkPage Cache.initial []) Requests.none) as (Hle' & _ & _).
  { unfold loaders. right. right. by left. }
  split; [exact Hle|]. split; [apply Hge; lia|].
  split; [by eapply Hcache|]. split; [exact Hle'|]. reflexivity.
Defined.

End BudgetProperties.

(** ** The buttons of the table *)

Section ButtonFacts.
Import Table Operations.
Context (h : host) (parseDate : JS.value → option Z).

Lemma prepare_modalIndex w operation c :
  prepare h w operation = Ok c →
  modalIndex c =
  match currentOperations w with
  | Some ops =>
      match findIndex (JS.prop "ref_importador" operation) ops 0 with
      | Some globalIndex => Some globalIndex
      | None => position w
      end
  | None => None
  end.
Proof.
  unfold prepare.
  intros (a1 & _ & (a2 & _ & (a3 & _ & H)%result_bind_Ok)%result_bind_Ok)%result_bind_Ok.
  by injection H as <-.
Qed.

Lemma sortedOperations_references operations :
  (λ op, JS.prop "ref_importador" op) <$> sortedOperations h parseDate operations ≡ₚ
  (λ op, JS.prop "ref_importador" op) <$> operations.
Proof.
  unfold sortedOperations. rewrite <- list_fmap_compose.
  etransitivity; [|apply fmap_Permutation, (sort_Permutation (by_arrival parseDate))].
  assert (∀ l : list (list (string * JS.value)),
            (λ op, JS.prop "ref_importador" op) ∘ memo h <$> l =
            (λ op, JS.prop "ref_importador" op) <$> l) as ->; [|done].
  induction l as [|op l IH]; [done|]. rewrite !fmap_cons, IH. done.
Qed.

End ButtonFacts.

Section ButtonProperties.
Import Table Operations Scenario.

(** X26: once [updateRecentOperationsTable] has stored its records in
    [window.currentOperations], and the records have pairwise different
    texts as [ref_importador], the button of each row carries the index of
    the row's own record. *)
Theorem X26_each_button_opens_its_row (h : host) (parseDate : JS.value → option Z)
    (operations : list (list (string * JS.value))) (w : window) (i : nat)
    (operation : list (string * JS.value)) (c : prepared) :
  currentOperations w = Some (sortedOperations h parseDate operations) →
  NoDup ((λ op, JS.prop "ref_importador" op) <$> operations) →
  (∀ op, op ∈ operations → ∃ s, JS.prop "ref_importador" op = JS.VStr s) →
  sortedOperations h parseDate operations !! i = Some operation →
  prepare h w operation = Ok c →
  modalIndex c = Some i.
Proof.
  intros Hw Hnd Htext Hi Hc.
  assert (∃ s, JS.prop "ref_importador" operation = JS.VStr s) as [s Hs].
  { assert (JS.prop "ref_importador" operation ∈
            (λ op, JS.prop "ref_importador" op) <$> operations) as Hin.
    { rewrite <- (sortedOperations_references h parseDate).
      apply list_elem_of_fmap. exists operation.
      split; [done|by eapply list_elem_of_lookup_2]. }
    apply list_elem_of_fmap in Hin as (op & -> & Hop). by apply Htext. }
  destruct (findIndex_first s (sortedOperations h parseDate operations) 0 i operation
              Hi Hs) as (first & op' & Hf & Hle & Hop' & Hs' & _).
  rewrite (prepare_modalIndex h w operation c Hc), Hw, Hs, Hf. f_equal.
  assert (NoDup ((λ op, JS.prop "ref_importador" op) <$>
                 sortedOperations h parseDate operations)) as Hnd'
    by (by rewrite sortedOperations_references).
  apply (NoDup_lookup _ first i (JS.VStr s) Hnd').
  - by rewrite list_lookup_fmap, Hop'; simpl; rewrite Hs'.
  - by rewrite list_lookup_fmap, Hi; simpl; rewrite Hs.
Qed.

Lemma X26_witness :
  ∃ c, prepare plain_host
         (mkWindow (Some (sortedOperations plain_host january three_operations))
                   None JS.VUndefined JS.VUndefined)
         (memo plain_host [("ref_importador", JS.VStr "A")]) = Ok c ∧
       modalIndex c = Some 2%nat.
Proof.
  eexists. split; [reflexivity|].
  apply (X26_each_button_opens_its_row plain_host january three_operations
           (mkWindow (Some (sortedOperations plain_host january three_operations))
                     None JS.VUndefined JS.VUndefined)
           2 (memo plain_host [("ref_importador", JS.VStr "A")])).
  - reflexivity.
  - cbn.
    repeat (apply NoDup_cons; split;
            [intros Hin;
             repeat (apply elem_of_cons in Hin as [Hin|Hin]; [discriminate Hin|]);
             by inversion Hin|]).
    by apply NoDup_nil.
  - intros op Hop. repeat (apply elem_of_cons in Hop as [->|Hop]);
      [by eexists..|by inversion Hop].
  - reflexivity.
  - reflexivity.
Defined.

End ButtonProperties.
